(** * Duestack: ParsedDeadlineSuggestions

    A shallow embedding of the deadline-suggestion service
    (parsed-deadline-suggestions, parsed-deadline-state,
    parsed-deadline-editing, parsed-deadline-validators and
    parsed-deadline-prompts) and the properties of its confirm, refine,
    edit, intake and validation paths.

    Conventions of the embedding:
    - a JavaScript number is a binary64 float ([PrimFloat]); a [Date] is its
      time value, [option Z] in milliseconds, [None] being NaN ("Invalid
      Date");
    - a string is a sequence of code units below 256 ([string]);
    - an untyped value coming out of [JSON.parse] is a [value]; the fields of
      a suggestion that the service copies from such a payload without
      checking ([title], [confidence], [provenance]) hold a [value];
    - suggestion objects live in a heap and are passed by reference ([loc]):
      the store is a list of references, so that mutation through an alias is
      visible in the store;
    - an operation is a function [World -> World * result A]: an exception
      keeps every mutation made before it was thrown;
    - what the engine and the outside world decide (time zone, [Date.parse],
      [JSON.parse], string-to-number conversion, [Math.random]) is a field of
      the class [Host]; console output is not modelled. *)

From stdpp Require Import base list strings pretty.
From Stdlib Require Import ZArith List String Ascii Bool Lia Floats Uint63.
Import ListNotations.

Set Warnings "-inexact-float,-register-all".
Local Open Scope string_scope.
Local Open Scope list_scope.

(** ** JavaScript values and exceptions *)

Module JS.

Inductive value : Type :=
| VUndefined
| VNull
| VBool (b : bool)
| VNumber (n : float)
| VString (s : string)
| VArray (elems : list value)
| VObject (props : list (string * value)).

(** [Error] is a [new Error(msg)] of the program; the others are raised by
    the engine. [InvalidReference] is not a JavaScript exception: it marks a
    reference outside the heap, which no well-formed world contains. *)
Inductive exn : Type :=
| Error (msg : string)
| TypeError
| RangeError
| SyntaxError
| InvalidReference.

Inductive result (A : Type) : Type :=
| Ok (a : A)
| Throw (e : exn).
Arguments Ok {A} a.
Arguments Throw {A} e.

Definition is_Ok {A} (r : result A) : bool :=
  match r with Ok _ => true | Throw _ => false end.

(** NaN and the two zeros are the falsy numbers. *)
Definition number_falsy (n : float) : bool :=
  PrimFloat.eqb n 0%float || negb (PrimFloat.eqb n n).

Definition ToBoolean (v : value) : bool :=
  match v with
  | VUndefined | VNull => false
  | VBool b => b
  | VNumber n => negb (number_falsy n)
  | VString s => negb (String.eqb s "")
  | VArray _ | VObject _ => true
  end.

(** [a || b] on values. *)
Definition or_else (a b : value) : value := if ToBoolean a then a else b.

Fixpoint lookup_prop (key : string) (props : list (string * value)) : value :=
  match props with
  | [] => VUndefined
  | (k, v) :: rest => if String.eqb k key then v else lookup_prop key rest
  end.

(** [v.key] for the keys the program reads (suggestions, title, due,
    confidence, provenance, course_name): none of them is a property of a
    primitive or of an array. *)
Definition Get (v : value) (key : string) : result value :=
  match v with
  | VUndefined | VNull => Throw TypeError
  | VObject props => Ok (lookup_prop key props)
  | _ => Ok VUndefined
  end.

(** [typeof v === "object"] *)
Definition typeof_object (v : value) : bool :=
  match v with
  | VNull | VArray _ | VObject _ => true
  | _ => false
  end.

Definition typeof_string (v : value) : bool :=
  match v with VString _ => true | _ => false end.

Definition typeof_number (v : value) : bool :=
  match v with VNumber _ => true | _ => false end.

Definition Array_isArray (v : value) : bool :=
  match v with VArray _ => true | _ => false end.

(** *** Strings *)

Definition code (c : ascii) : nat := nat_of_ascii c.

Definition lower_unit (c : ascii) : ascii :=
  let n := code c in
  if ((65 <=? n)%nat && (n <=? 90)%nat) ||
     ((192 <=? n)%nat && (n <=? 222)%nat && negb (n =? 215)%nat)
  then ascii_of_nat (n + 32) else c.

Fixpoint toLowerCase (s : string) : string :=
  match s with
  | EmptyString => EmptyString
  | String c rest => String (lower_unit c) (toLowerCase rest)
  end.

Fixpoint startsWith (needle hay : string) : bool :=
  match needle, hay with
  | EmptyString, _ => true
  | String a n', String b h' => Ascii.eqb a b && startsWith n' h'
  | String _ _, EmptyString => false
  end.

(** [hay.includes(needle)] *)
Fixpoint includes (hay needle : string) : bool :=
  startsWith needle hay ||
  match hay with
  | EmptyString => false
  | String _ rest => includes rest needle
  end.

(** [v.toLowerCase()]: only a string has the method. *)
Definition toLowerCase_method (v : value) : result string :=
  match v with
  | VString s => Ok (toLowerCase s)
  | _ => Throw TypeError
  end.

Definition same_string (v : value) (s : string) : bool :=
  match v with VString t => String.eqb t s | _ => false end.

(** [v.includes(needle)] with a string needle: strings search for a
    substring, arrays for an element, no other value has the method. *)
Definition includes_method (v : value) (needle : string) : result bool :=
  match v with
  | VString s => Ok (includes s needle)
  | VArray elems => Ok (existsb (fun e => same_string e needle) elems)
  | _ => Throw TypeError
  end.

End JS.
Export JS.

(** ** The host: engine built-ins and the outside world *)

Class Host : Type := {
  (** local time zone adjustment in ms at a time value, as in ECMAScript:
      the flag tells whether the argument is a UTC time *)
  LocalTZA : Z -> bool -> Z;
  (** [Date.parse], [None] for NaN *)
  Date_parse : string -> option Z;
  (** [Number(text)] *)
  StringToNumber : string -> float;
  (** the text an array or a plain object converts to *)
  ToPrimitive_object : value -> string;
  (** [JSON.parse], [None] when it throws a SyntaxError *)
  JSON_parse : string -> option value;
  (** the n-th identifier drawn from
      [Math.random().toString(36).substr(2, 9)] *)
  Math_random_id : nat -> string;
}.

(** ** Dates *)

Module JSDate.

Local Open Scope Z_scope.

(** A time value: milliseconds since the epoch, [None] for NaN. *)
Definition Date : Type := option Z.

Definition msPerDay : Z := 86400000.
Definition msPerHour : Z := 3600000.
Definition msPerMinute : Z := 60000.
Definition msPerSecond : Z := 1000.
Definition maxTime : Z := 8640000000000000.

Definition Day (t : Z) : Z := t / msPerDay.
Definition TimeWithinDay (t : Z) : Z := t mod msPerDay.
Definition HourFromTime (t : Z) : Z := (t / msPerHour) mod 24.
Definition MinFromTime (t : Z) : Z := (t / msPerMinute) mod 60.
Definition SecFromTime (t : Z) : Z := (t / msPerSecond) mod 60.
Definition WeekDay (t : Z) : Z := (Day t + 4) mod 7.

(** The proleptic Gregorian calendar of a day number, by eras of 400 years
    starting on 1 March: (year, month 1..12, day 1..31). *)
Definition civil_from_days (z : Z) : Z * Z * Z :=
  let z := z + 719468 in
  let era := z / 146097 in
  let doe := z - era * 146097 in
  let yoe := (doe - doe / 1460 + doe / 36524 - doe / 146096) / 365 in
  let doy := doe - (365 * yoe + yoe / 4 - yoe / 100) in
  let mp := (5 * doy + 2) / 153 in
  let d := doy - (153 * mp + 2) / 5 + 1 in
  let m := if mp <? 10 then mp + 3 else mp - 9 in
  let y := yoe + era * 400 in
  (if m <=? 2 then y + 1 else y, m, d).

Definition days_from_civil (y m d : Z) : Z :=
  let y := if m <=? 2 then y - 1 else y in
  let era := y / 400 in
  let yoe := y - era * 400 in
  let mp := if 2 <? m then m - 3 else m + 9 in
  let doy := (153 * mp + 2) / 5 + d - 1 in
  let doe := yoe * 365 + yoe / 4 - yoe / 100 + doy in
  era * 146097 + doe - 719468.

Definition YearFromTime (t : Z) : Z := fst (fst (civil_from_days (Day t))).
(** months count from 0 *)
Definition MonthFromTime (t : Z) : Z := snd (fst (civil_from_days (Day t))) - 1.
Definition DateFromTime (t : Z) : Z := snd (civil_from_days (Day t)).

Definition MakeTime (hour min sec ms : Z) : Z :=
  hour * msPerHour + min * msPerMinute + sec * msPerSecond + ms.
(** [MakeDay] with a month in 0..11 and a day of the month in range *)
Definition MakeDay (year month date : Z) : Z := days_from_civil year (month + 1) date.
Definition MakeDate (day time : Z) : Z := day * msPerDay + time.

Definition TimeClip (t : Z) : Date :=
  if maxTime <? Z.abs t then None else Some t.

(** [TimeClip] of a number: NaN and the infinities give NaN, any other
    number is truncated to an integer. *)
Definition TimeClip_number (n : float) : Date :=
  match Prim2SF n with
  | S754_zero _ => Some 0
  | S754_infinity _ | S754_nan => None
  | S754_finite s m e =>
      let mag := if 0 <=? e then Z.pos m * 2 ^ e else Z.pos m / 2 ^ (- e) in
      TimeClip (if s then - mag else mag)
  end.

Section WithHost.
Context `{Host}.

Definition LocalTime (t : Z) : Z := t + LocalTZA t true.
Definition UTC (t : Z) : Z := t - LocalTZA t false.

(** [new Date(year, month, date, hours, minutes, seconds)] *)
Definition Date_local (year month date hours minutes seconds : Z) : Date :=
  TimeClip (UTC (MakeDate (MakeDay year month date) (MakeTime hours minutes seconds 0))).

Definition getDay (d : Date) : option Z := option_map (fun t => WeekDay (LocalTime t)) d.
Definition getHours (d : Date) : option Z := option_map (fun t => HourFromTime (LocalTime t)) d.
Definition getMinutes (d : Date) : option Z := option_map (fun t => MinFromTime (LocalTime t)) d.
Definition getSeconds (d : Date) : option Z := option_map (fun t => SecFromTime (LocalTime t)) d.
Definition getDate (d : Date) : option Z := option_map (fun t => DateFromTime (LocalTime t)) d.
Definition getMonth (d : Date) : option Z := option_map (fun t => MonthFromTime (LocalTime t)) d.
Definition getFullYear (d : Date) : option Z := option_map (fun t => YearFromTime (LocalTime t)) d.

(** [d.setHours(hours, minutes, 0, 0)]: the time value of [d] afterwards. *)
Definition setHours (d : Date) (hours minutes : Z) : Date :=
  match d with
  | None => None
  | Some t =>
      let t := LocalTime t in
      TimeClip (UTC (MakeDate (Day t) (MakeTime hours minutes 0 0)))
  end.

(** [ToNumber] *)
Definition ToNumber (v : value) : float :=
  match v with
  | VUndefined => PrimFloat.nan
  | VNull => 0%float
  | VBool b => if b then 1%float else 0%float
  | VNumber n => n
  | VString s => StringToNumber s
  | VArray _ | VObject _ => StringToNumber (ToPrimitive_object v)
  end.

(** [new Date(v)] for a value out of a JSON payload *)
Definition Date_of_value (v : value) : Date :=
  match v with
  | VUndefined => None
  | VNull => Some 0
  | VBool b => Some (if b then 1 else 0)
  | VNumber n => TimeClip_number n
  | VString s => Date_parse s
  | VArray _ | VObject _ => Date_parse (ToPrimitive_object v)
  end.

End WithHost.

(** [a < b] on dates: false as soon as one side is NaN *)
Definition Date_lt (a b : Date) : bool :=
  match a, b with
  | Some x, Some y => x <? y
  | _, _ => false
  end.

(** [d.toISOString()] throws a RangeError on an invalid date; the text
    itself is only ever interpolated into a prompt, so the time value stands
    for it. *)
Definition toISOString (d : Date) : result Z :=
  match d with
  | Some t => Ok t
  | None => Throw RangeError
  end.

Definition isNaN_getTime (d : Date) : bool :=
  match d with Some _ => false | None => true end.

End JSDate.
Export JSDate.

(** ** Data model (parsed-deadline-suggestions) *)

Inductive SourceType : Type := SYLLABUS | IMAGE | WEBSITE | CANVAS.
Inductive ExtractionMethod : Type := RULES | LLM.
Inductive FileType : Type := pdf | png | jpg | txt.

Record UploadedDocument : Type := {
  doc_id : string;
  filename : string;
  content : string;
  fileType : FileType;
  uploadDate : Date;
}.

Record ExtractionConfig : Type := {
  modelVersion : string;
  basePromptTemplate : string;
  maxTokens : float;
  temperature : float;
  timezone : string;
  timeout : option float;
}.

Record User : Type := {
  user_id : string;
  user_name : string;
  user_email : string;
  canvasApiKey : option string;
}.

(** An optional field is [None] (or [VUndefined]) when it is undefined.
    [title], [confidence] and [provenance] are declared string, number and
    string, and hold whatever the payload held. *)
Record ParsedDeadlineSuggestion : Type := {
  id : string;
  title : value;
  due : Date;
  source : SourceType;
  confirmed : option bool;
  confidence : value;
  extractionMethod : option ExtractionMethod;
  provenance : value;
  warnings : option (list string);
  uploadedDocument : option UploadedDocument;
  canvasMetadata : option string;
  websiteUrl : option string;
}.

(** Assignments to one field of a suggestion object. *)
Definition set_id (x : string) (s : ParsedDeadlineSuggestion) :=
  {| id := x; title := title s; due := due s; source := source s;
     confirmed := confirmed s; confidence := confidence s;
     extractionMethod := extractionMethod s; provenance := provenance s;
     warnings := warnings s; uploadedDocument := uploadedDocument s;
     canvasMetadata := canvasMetadata s; websiteUrl := websiteUrl s |}.
Definition set_title (x : value) (s : ParsedDeadlineSuggestion) :=
  {| id := id s; title := x; due := due s; source := source s;
     confirmed := confirmed s; confidence := confidence s;
     extractionMethod := extractionMethod s; provenance := provenance s;
     warnings := warnings s; uploadedDocument := uploadedDocument s;
     canvasMetadata := canvasMetadata s; websiteUrl := websiteUrl s |}.
Definition set_due (x : Date) (s : ParsedDeadlineSuggestion) :=
  {| id := id s; title := title s; due := x; source := source s;
     confirmed := confirmed s; confidence := confidence s;
     extractionMethod := extractionMethod s; provenance := provenance s;
     warnings := warnings s; uploadedDocument := uploadedDocument s;
     canvasMetadata := canvasMetadata s; websiteUrl := websiteUrl s |}.
Definition set_confirmed (x : option bool) (s : ParsedDeadlineSuggestion) :=
  {| id := id s; title := title s; due := due s; source := source s;
     confirmed := x; confidence := confidence s;
     extractionMethod := extractionMethod s; provenance := provenance s;
     warnings := warnings s; uploadedDocument := uploadedDocument s;
     canvasMetadata := canvasMetadata s; websiteUrl := websiteUrl s |}.
Definition set_confidence (x : value) (s : ParsedDeadlineSuggestion) :=
  {| id := id s; title := title s; due := due s; source := source s;
     confirmed := confirmed s; confidence := x;
     extractionMethod := extractionMethod s; provenance := provenance s;
     warnings := warnings s; uploadedDocument := uploadedDocument s;
     canvasMetadata := canvasMetadata s; websiteUrl := websiteUrl s |}.
Definition set_provenance (x : value) (s : ParsedDeadlineSuggestion) :=
  {| id := id s; title := title s; due := due s; source := source s;
     confirmed := confirmed s; confidence := confidence s;
     extractionMethod := extractionMethod s; provenance := x;
     warnings := warnings s; uploadedDocument := uploadedDocument s;
     canvasMetadata := canvasMetadata s; websiteUrl := websiteUrl s |}.
Definition set_warnings (x : option (list string)) (s : ParsedDeadlineSuggestion) :=
  {| id := id s; title := title s; due := due s; source := source s;
     confirmed := confirmed s; confidence := confidence s;
     extractionMethod := extractionMethod s; provenance := provenance s;
     warnings := x; uploadedDocument := uploadedDocument s;
     canvasMetadata := canvasMetadata s; websiteUrl := websiteUrl s |}.
Definition set_uploadedDocument (x : option UploadedDocument) (s : ParsedDeadlineSuggestion) :=
  {| id := id s; title := title s; due := due s; source := source s;
     confirmed := confirmed s; confidence := confidence s;
     extractionMethod := extractionMethod s; provenance := provenance s;
     warnings := warnings s; uploadedDocument := x;
     canvasMetadata := canvasMetadata s; websiteUrl := websiteUrl s |}.
Definition set_websiteUrl (x : option string) (s : ParsedDeadlineSuggestion) :=
  {| id := id s; title := title s; due := due s; source := source s;
     confirmed := confirmed s; confidence := confidence s;
     extractionMethod := extractionMethod s; provenance := provenance s;
     warnings := warnings s; uploadedDocument := uploadedDocument s;
     canvasMetadata := canvasMetadata s; websiteUrl := x |}.

(** [s.warnings || []] *)
Definition warnings_or_empty (s : ParsedDeadlineSuggestion) : list string :=
  match warnings s with Some ws => ws | None => [] end.

(** [s.warnings = [...(s.warnings || []), w]] *)
Definition push_warning (w : string) (s : ParsedDeadlineSuggestion) :=
  set_warnings (Some (warnings_or_empty s ++ [w])) s.

(** [s.confirmed] as a condition: undefined is falsy *)
Definition is_confirmed (s : ParsedDeadlineSuggestion) : bool :=
  match confirmed s with Some b => b | None => false end.

(** ** The world: heap of suggestion objects, store, random draws *)

(** A reference is an index into the heap. *)
Abbreviation loc := nat (only parsing).

Record World : Type := {
  heap : list ParsedDeadlineSuggestion;
  (** the private array of ParsedDeadlineState *)
  suggestions : list loc;
  (** how many identifiers were drawn so far *)
  draws : nat;
}.

Definition with_heap (h : list ParsedDeadlineSuggestion) (w : World) : World :=
  {| heap := h; suggestions := suggestions w; draws := draws w |}.
Definition with_suggestions (refs : list loc) (w : World) : World :=
  {| heap := heap w; suggestions := refs; draws := draws w |}.
Definition with_draws (n : nat) (w : World) : World :=
  {| heap := heap w; suggestions := suggestions w; draws := n |}.

Definition M (A : Type) : Type := World -> World * result A.

Definition ret {A} (a : A) : M A := fun w => (w, Ok a).
Definition throw {A} (e : exn) : M A := fun w => (w, Throw e).
Definition bind {A B} (m : M A) (k : A -> M B) : M B :=
  fun w => match m w with
           | (w', Ok a) => k a w'
           | (w', Throw e) => (w', Throw e)
           end.
Definition lift {A} (r : result A) : M A := fun w => (w, r).

Notation "'let*' x ':=' m 'in' k" := (bind m (fun x => k))
  (at level 10, x name, m at level 200, k at level 200).
Notation "m1 ';;' m2" := (bind m1 (fun _ => m2))
  (at level 100, m2 at level 200, right associativity).

(** Reading the object behind a reference. *)
Definition deref (l : loc) : M ParsedDeadlineSuggestion :=
  fun w => match heap w !! l with
           | Some s => (w, Ok s)
           | None => (w, Throw InvalidReference)
           end.

(** Mutating the object behind a reference. *)
Definition modify (l : loc) (f : ParsedDeadlineSuggestion -> ParsedDeadlineSuggestion) : M unit :=
  fun w => match heap w !! l with
           | Some s => (with_heap (<[l := f s]> (heap w)) w, Ok tt)
           | None => (w, Throw InvalidReference)
           end.

(** A new object literal. *)
Definition alloc (s : ParsedDeadlineSuggestion) : M loc :=
  fun w => (with_heap (heap w ++ [s]) w, Ok (List.length (heap w))).

Definition when_some {A} (o : option A) (k : A -> M unit) : M unit :=
  match o with Some a => k a | None => ret tt end.
Definition when (b : bool) (k : M unit) : M unit := if b then k else ret tt.

(** ** ParsedDeadlineState (parsed-deadline-state.ts) *)

Module ParsedDeadlineState.

(** [s.id === suggestionId] for the object behind a stored reference *)
Definition has_id (h : list ParsedDeadlineSuggestion) (suggestionId : string) (l : loc) : bool :=
  match h !! l with
  | Some s => String.eqb (id s) suggestionId
  | None => false
  end.

Fixpoint findIndex {A} (p : A -> bool) (xs : list A) : option nat :=
  match xs with
  | [] => None
  | x :: rest => if p x then Some 0 else option_map S (findIndex p rest)
  end.

Definition addSuggestions (refs : list loc) : M unit :=
  fun w => (with_suggestions (suggestions w ++ refs) w, Ok tt).

Definition getAllSuggestions : M (list loc) :=
  fun w => (w, Ok (suggestions w)).

Definition getUnconfirmedSuggestions : M (list loc) :=
  fun w => (w, Ok (List.filter
                     (fun l => match heap w !! l with
                               | Some s => negb (is_confirmed s)
                               | None => false
                               end) (suggestions w))).

Definition getSuggestionById (suggestionId : string) : M (option loc) :=
  fun w => (w, Ok (List.find (has_id (heap w) suggestionId) (suggestions w))).

Definition updateSuggestion (suggestionId : string) (updatedSuggestion : loc) : M bool :=
  fun w => match findIndex (has_id (heap w) suggestionId) (suggestions w) with
           | None => (w, Ok false)
           | Some index =>
               (with_suggestions (<[index := updatedSuggestion]> (suggestions w)) w, Ok true)
           end.

Definition clearSuggestions : M unit :=
  fun w => (with_suggestions [] w, Ok tt).

(** [this.suggestions.splice(index, 1)] at the first match *)
Definition removeSuggestion (suggestionId : string) : M bool :=
  fun w => match findIndex (has_id (heap w) suggestionId) (suggestions w) with
           | None => (w, Ok false)
           | Some index => (with_suggestions (delete index (suggestions w)) w, Ok true)
           end.

Definition getSuggestionsCount : M nat :=
  fun w => (w, Ok (List.length (suggestions w))).

(** [this.suggestions.filter(p)], [p] reading the object behind each
    reference *)
Definition filter_store (p : ParsedDeadlineSuggestion -> bool) : M (list loc) :=
  fun w => (w, Ok (List.filter
                     (fun l => match heap w !! l with
                               | Some s => p s
                               | None => false
                               end) (suggestions w))).

Definition SourceType_text (source : SourceType) : string :=
  match source with
  | SYLLABUS => "SYLLABUS" | IMAGE => "IMAGE"
  | WEBSITE => "WEBSITE" | CANVAS => "CANVAS"
  end.

Definition ExtractionMethod_text (method : ExtractionMethod) : string :=
  match method with RULES => "RULES" | LLM => "LLM" end.

(** [s.source] as the string it is *)
Definition source_text (s : ParsedDeadlineSuggestion) : string :=
  SourceType_text (source s).

Definition getSuggestionsBySource (source : string) : M (list loc) :=
  filter_store (fun s => String.eqb (source_text s) source).

Definition getSuggestionsByMethod (method : string) : M (list loc) :=
  filter_store (fun s => match extractionMethod s with
                         | Some m => String.eqb (ExtractionMethod_text m) method
                         | None => false
                         end).

(** [s.warnings && s.warnings.length > 0] *)
Definition getSuggestionsWithWarnings : M (list loc) :=
  filter_store (fun s => match warnings s with
                         | Some ws => (0 <? List.length ws)%nat
                         | None => false
                         end).

(** [a >= b] and [a <= b] on dates: false as soon as one side is NaN *)
Definition Date_le (a b : Date) : bool :=
  match a, b with
  | Some x, Some y => Z.leb x y
  | _, _ => false
  end.

Definition getSuggestionsByDateRange (startDate endDate : Date) : M (list loc) :=
  filter_store (fun s => Date_le startDate (due s) && Date_le (due s) endDate).

Section WithHost.
Context `{Host}.

(** [s.confidence !== undefined && s.confidence >= min && s.confidence <= max] *)
Definition getSuggestionsByConfidence (minConfidence maxConfidence : float) : M (list loc) :=
  filter_store (fun s =>
    match confidence s with
    | VUndefined => false
    | c => PrimFloat.leb minConfidence (ToNumber c)
           && PrimFloat.leb (ToNumber c) maxConfidence
    end).

End WithHost.

End ParsedDeadlineState.

(** ** Manual editing (parsed-deadline-editing) *)

Module Editing.

Record Updates : Type := {
  upd_title : option string;
  upd_due : option Date;
  upd_confidence : option float;
  upd_provenance : option string;
}.

Definition editSuggestion (suggestion : loc) (updates : Updates) : M loc :=
  when_some (upd_title updates) (fun t => modify suggestion (set_title (VString t))) ;;
  when_some (upd_due updates) (fun d => modify suggestion (set_due d)) ;;
  when_some (upd_confidence updates) (fun c => modify suggestion (set_confidence (VNumber c))) ;;
  when_some (upd_provenance updates) (fun p => modify suggestion (set_provenance (VString p))) ;;
  modify suggestion (push_warning "Manually edited by user") ;;
  ret suggestion.

(** *** The pattern [/(\d{1,2}):(\d{2})\s*(am|pm)?/i] *)

Inductive Period : Type := AM | PM.

Definition is_digit (c : ascii) : bool :=
  (48 <=? code c)%nat && (code c <=? 57)%nat.
Definition digit (c : ascii) : nat := code c - 48.

(** [\s] among the code units below 256 *)
Definition is_space (c : ascii) : bool :=
  let n := code c in
  ((9 <=? n)%nat && (n <=? 13)%nat) || (n =? 32)%nat || (n =? 160)%nat.

Definition is_letter (lower upper c : ascii) : bool :=
  Ascii.eqb c lower || Ascii.eqb c upper.

Fixpoint skip_spaces (s : string) : string :=
  match s with
  | String c rest => if is_space c then skip_spaces rest else s
  | EmptyString => EmptyString
  end.

(** [(am|pm)?] at the head of [s] *)
Definition match_period (s : string) : option Period :=
  match s with
  | String a (String m _) =>
      if is_letter "m" "M" m then
        if is_letter "a" "A" a then Some AM
        else if is_letter "p" "P" a then Some PM
        else None
      else None
  | _ => None
  end.

(** The groups of a match that starts at the head of [s]: two hour digits
    are tried before one. *)
Definition match_here (s : string) : option (nat * nat * option Period) :=
  let two :=
    match s with
    | String h1 (String h2 (String c (String m1 (String m2 rest)))) =>
        if is_digit h1 && is_digit h2 && Ascii.eqb c ":" && is_digit m1 && is_digit m2
        then Some (10 * digit h1 + digit h2, 10 * digit m1 + digit m2,
                   match_period (skip_spaces rest))
        else None
    | _ => None
    end in
  match two with
  | Some r => Some r
  | None =>
      match s with
      | String h1 (String c (String m1 (String m2 rest))) =>
          if is_digit h1 && Ascii.eqb c ":" && is_digit m1 && is_digit m2
          then Some (digit h1, 10 * digit m1 + digit m2,
                     match_period (skip_spaces rest))
          else None
      | _ => None
      end
  end.

(** [newTime.match(...)]: the leftmost match, as (parseInt of group 1,
    parseInt of group 2, group 3 lower-cased). *)
Fixpoint timeMatch (newTime : string) : option (nat * nat * option Period) :=
  match match_here newTime with
  | Some r => Some r
  | None =>
      match newTime with
      | EmptyString => None
      | String _ rest => timeMatch rest
      end
  end.

(** Conversion to the 24-hour clock. *)
Definition to24 (hours : nat) (period : option Period) : nat :=
  match period with
  | Some PM => if (hours =? 12)%nat then hours else hours + 12
  | Some AM => if (hours =? 12)%nat then 0 else hours
  | None => hours
  end.

Section WithHost.
Context `{Host}.

Definition updateSuggestionTime (suggestion : loc) (newTime : string) : M bool :=
  match timeMatch newTime with
  | None => ret false
  | Some (hours, minutes, period) =>
      let hours := to24 hours period in
      let* s := deref suggestion in
      let newDate := setHours (due s) (Z.of_nat hours) (Z.of_nat minutes) in
      let* _ := editSuggestion suggestion
                  {| upd_title := None; upd_due := Some newDate;
                     upd_confidence := None; upd_provenance := None |} in
      ret true
  end.

(** [suggestions.find(s => s.id === id)] over an array of references *)
Definition find_by_id (refs : list loc) (sid : string) : M (option loc) :=
  fun w => (w, Ok (List.find (ParsedDeadlineState.has_id (heap w) sid) refs)).

Fixpoint batchUpdateTiming_loop (refs : list loc) (suggestionIds : list string)
    (timeRule : string) (success failed : nat) : M (nat * nat) :=
  match suggestionIds with
  | [] => ret (success, failed)
  | sid :: rest =>
      let* found := find_by_id refs sid in
      let* ok := match found with
                 | Some l => updateSuggestionTime l timeRule
                 | None => ret false
                 end in
      if ok then batchUpdateTiming_loop refs rest timeRule (S success) failed
      else batchUpdateTiming_loop refs rest timeRule success (S failed)
  end.

Definition batchUpdateTiming (refs : list loc) (suggestionIds : list string)
    (timeRule : string) : M (nat * nat) :=
  batchUpdateTiming_loop refs suggestionIds timeRule 0 0.

End WithHost.
End Editing.

(** ** Prompts (parsed-deadline-prompts) and the language model *)

(** A prompt is a template string: it is kept as the values interpolated
    into it. *)
Inductive Prompt : Type :=
| DocumentExtractionPrompt (template file : string) (type : FileType) (text : string)
| WebsiteExtractionPrompt (template url text : string)
| RefinementPrompt (template : string) (title : value) (dueISO : Z)
    (confidence : value) (source : SourceType) (provenance : value)
    (feedback : string).

Definition createDocumentExtractionPrompt (document : UploadedDocument)
    (config : ExtractionConfig) : Prompt :=
  DocumentExtractionPrompt (basePromptTemplate config) (filename document)
    (fileType document) (content document).

Definition createWebsiteExtractionPrompt (url text : string)
    (config : ExtractionConfig) : Prompt :=
  WebsiteExtractionPrompt (basePromptTemplate config) url text.

(** [suggestion.due.toISOString()] throws on an invalid date. *)
Definition createRefinementPrompt (suggestion : ParsedDeadlineSuggestion)
    (feedback : string) (config : ExtractionConfig) : result Prompt :=
  match toISOString (due suggestion) with
  | Throw e => Throw e
  | Ok iso =>
      Ok (RefinementPrompt (basePromptTemplate config) (title suggestion) iso
            (confidence suggestion) (source suggestion) (provenance suggestion)
            feedback)
  end.

Record LLMConfig : Type := {
  llm_modelVersion : string;
  llm_maxTokens : float;
  llm_temperature : float;
  llm_timeout : option float;
}.

Definition llmConfig_of (config : ExtractionConfig) : LLMConfig :=
  {| llm_modelVersion := modelVersion config; llm_maxTokens := maxTokens config;
     llm_temperature := temperature config; llm_timeout := timeout config |}.

(** The model behind [GeminiLLM]: what a call answers, or the error it
    rejects with (time-out, transport, empty answer). *)
Record GeminiLLM : Type := {
  executeLLM : Prompt -> LLMConfig -> result string;
  executeLLMWithURL : Prompt -> string -> LLMConfig -> result string;
}.

(** ** Validators (parsed-deadline-validators) *)

Module Validators.

Definition rbind {A B} (r : result A) (k : A -> result B) : result B :=
  match r with Ok a => k a | Throw e => Throw e end.

Notation "'let+' x ':=' r 'in' k" := (rbind r (fun x => k))
  (at level 10, x name, r at level 200, k at level 200).

(** The lines pushed to an [issues] array; only the values interpolated
    into each message are kept. *)
Inductive Issue : Type :=
| MissingTitle (index : nat)
| MissingDue (index : nat)
| InvalidDateFormat (index : nat) (due : value)
| InvalidConfidence (index : nat) (confidence : value)
| HallucinatedTBD (index : nat)
| HallucinatedSoon (index : nat)
| PastDate (title : value) (dueISO : Z)
| FarFutureDate (title : value) (dueISO : Z)
| DuplicateFound (title : value)
| LowConfidence (title confidence : value)
| WeekendDeadline (title : value)
| EarlyMorningDeadline (title : value) (hour : option Z)
| LateEveningDeadline (title : value) (hour : option Z)
| VagueHighConfidence (title confidence : value)
| ShortDeadline (title : value)
| RoundDate (title : value).

(** Comparisons of a possibly-NaN integer with a constant. *)
Definition num_eq (x : option Z) (k : Z) : bool :=
  match x with Some v => Z.eqb v k | None => false end.
Definition num_lt (x : option Z) (k : Z) : bool :=
  match x with Some v => Z.ltb v k | None => false end.
Definition num_gt (x : option Z) (k : Z) : bool :=
  match x with Some v => Z.ltb k v | None => false end.

Definition W_past : string := "Date is in the past".
Definition W_far : string := "Date is very far in the future".
Definition W_duplicate : string := "Potential duplicate".
Definition W_low : string := "Low confidence score".
Definition W_weekend : string := "Weekend deadline - verify if correct".
Definition W_early : string := "Very early morning deadline - verify if correct".
Definition W_late : string := "Very late evening deadline - verify if correct".
Definition W_vague : string := "High confidence on vague term - possible hallucination".
Definition W_short : string := "Very short deadline - verify if correct".
Definition W_round : string := "High confidence on round date - possible generation".

Definition vagueTerms : list string := ["tbd"; "soon"; "later"; "eventually"; "sometime"].

Section WithHost.
Context `{Host}.

(** [v < c] and [v > c] against a number literal *)
Definition value_lt (v : value) (c : float) : bool := PrimFloat.ltb (ToNumber v) c.
Definition value_gt (v : value) (c : float) : bool := PrimFloat.ltb c (ToNumber v).

(** [title && title.toLowerCase().includes(term)] *)
Definition title_mentions (title : value) (term : string) : result bool :=
  if ToBoolean title then
    let+ low := toLowerCase_method title in Ok (includes low term)
  else Ok false.

(** The body of the [forEach] of [validateLLMResponse], for one entry. *)
Definition validate_entry (suggestion : value) (index : nat)
    (issues : list Issue) : result (list Issue) :=
  let+ title := Get suggestion "title" in
  let issues :=
    if negb (ToBoolean title) || negb (typeof_string title)
    then issues ++ [MissingTitle index] else issues in
  let+ due := Get suggestion "due" in
  let issues :=
    if negb (ToBoolean due) then issues ++ [MissingDue index]
    else if isNaN_getTime (Date_of_value due)
         then issues ++ [InvalidDateFormat index due] else issues in
  let+ confidence := Get suggestion "confidence" in
  let issues :=
    match confidence with
    | VUndefined => issues
    | _ =>
        if negb (typeof_number confidence) || value_lt confidence 0%float
           || value_gt confidence 1%float
        then issues ++ [InvalidConfidence index confidence] else issues
    end in
  let+ tbd := title_mentions title "tbd" in
  let issues := if tbd then issues ++ [HallucinatedTBD index] else issues in
  let+ soon := title_mentions title "soon" in
  let issues := if soon then issues ++ [HallucinatedSoon index] else issues in
  Ok issues.

Fixpoint validate_entries (entries : list value) (index : nat)
    (issues : list Issue) : result (list Issue) :=
  match entries with
  | [] => Ok issues
  | suggestion :: rest =>
      let+ issues := validate_entry suggestion index issues in
      validate_entries rest (S index) issues
  end.

(** Returns the issues it logs; throws on a payload of the wrong shape. *)
Definition validateLLMResponse (response : value) (source : string) : result (list Issue) :=
  if negb (ToBoolean response) || negb (typeof_object response) then
    Throw (Error "LLM response is not a valid JSON object")
  else
    let+ suggestions := Get response "suggestions" in
    match suggestions with
    | VArray entries => validate_entries entries 0 []
    | _ => Throw (Error "LLM response missing 'suggestions' array")
    end.

Definition validateAcademicCalendarLogic (suggestion : loc) (issues : list Issue)
    : M (list Issue) :=
  let* s := deref suggestion in
  let dueDate := due s in
  let dayOfWeek := getDay dueDate in
  let* issues :=
    if num_eq dayOfWeek 0 || num_eq dayOfWeek 6 then
      modify suggestion (push_warning W_weekend) ;;
      ret (issues ++ [WeekendDeadline (title s)])
    else ret issues in
  let hour := getHours dueDate in
  let* issues :=
    if num_lt hour 6 then
      modify suggestion (push_warning W_early) ;;
      ret (issues ++ [EarlyMorningDeadline (title s) hour])
    else ret issues in
  let* issues :=
    if num_gt hour 23 then
      modify suggestion (push_warning W_late) ;;
      ret (issues ++ [LateEveningDeadline (title s) hour])
    else ret issues in
  ret issues.

(** [terms.some(term => title.toLowerCase().includes(term))] *)
Fixpoint some_term (terms : list string) (title : value) : result bool :=
  match terms with
  | [] => Ok false
  | term :: rest =>
      let+ low := toLowerCase_method title in
      if includes low term then Ok true else some_term rest title
  end.

Definition round_day (day : option Z) : bool :=
  num_eq day 1 || num_eq day 15 || num_eq day 30 || num_eq day 31.

(** [now] is the reading of the clock, [new Date()]. *)
Definition validateForHallucination (suggestion : loc) (issues : list Issue)
    (now : Z) : M (list Issue) :=
  let* s := deref suggestion in
  let* hasVagueTerms := lift (some_term vagueTerms (title s)) in
  let* issues :=
    if hasVagueTerms && ToBoolean (confidence s) && value_gt (confidence s) 0.7%float then
      modify suggestion (push_warning W_vague) ;;
      ret (issues ++ [VagueHighConfidence (title s) (confidence s)])
    else ret issues in
  let timeDiff := option_map (fun t => t - now)%Z (due s) in
  let* issues :=
    if num_lt timeDiff msPerDay && num_gt timeDiff 0 then
      modify suggestion (push_warning W_short) ;;
      ret (issues ++ [ShortDeadline (title s)])
    else ret issues in
  let day := getDate (due s) in
  let* issues :=
    if round_day day then
      if ToBoolean (confidence s) && value_gt (confidence s) 0.8%float then
        modify suggestion (push_warning W_round) ;;
        ret (issues ++ [RoundDate (title s)])
      else ret issues
    else ret issues in
  ret issues.

(** [allSuggestions.filter(s => s.title.toLowerCase() ===
    suggestion.title.toLowerCase() && s.id !== suggestion.id)] *)
Fixpoint duplicates_of (s : ParsedDeadlineSuggestion) (allSuggestions : list loc)
    : M (list loc) :=
  match allSuggestions with
  | [] => ret []
  | a :: rest =>
      let* other := deref a in
      let* low_other := lift (toLowerCase_method (title other)) in
      let* low_s := lift (toLowerCase_method (title s)) in
      let* more := duplicates_of s rest in
      if String.eqb low_other low_s && negb (String.eqb (id other) (id s))
      then ret (a :: more) else ret more
  end.

Definition validate_one (suggestion : loc) (allSuggestions : list loc)
    (now : Z) (issues : list Issue) : M (list Issue) :=
  let* s := deref suggestion in
  let oneYearFromNow := TimeClip (now + 365 * 24 * 60 * 60 * 1000)%Z in
  let* issues :=
    if Date_lt (due s) (Some now) then
      let* iso := lift (toISOString (due s)) in
      modify suggestion (push_warning W_past) ;;
      ret (issues ++ [PastDate (title s) iso])
    else ret issues in
  let* issues :=
    if Date_lt oneYearFromNow (due s) then
      let* iso := lift (toISOString (due s)) in
      modify suggestion (push_warning W_far) ;;
      ret (issues ++ [FarFutureDate (title s) iso])
    else ret issues in
  let* duplicates := duplicates_of s allSuggestions in
  let* issues :=
    if (0 <? List.length duplicates)%nat then
      modify suggestion (push_warning W_duplicate) ;;
      ret (issues ++ [DuplicateFound (title s)])
    else ret issues in
  let* issues :=
    if ToBoolean (confidence s) && value_lt (confidence s) 0.3%float then
      modify suggestion (push_warning W_low) ;;
      ret (issues ++ [LowConfidence (title s) (confidence s)])
    else ret issues in
  let* issues := validateAcademicCalendarLogic suggestion issues in
  validateForHallucination suggestion issues now.

Fixpoint validate_loop (suggestions : list loc) (allSuggestions : list loc)
    (now : Z) (issues : list Issue) : M (list Issue) :=
  match suggestions with
  | [] => ret issues
  | suggestion :: rest =>
      let* issues := validate_one suggestion allSuggestions now issues in
      validate_loop rest allSuggestions now issues
  end.

(** The [source] argument of the original is never read. *)
Definition validateSuggestions (suggestions : list loc) (allSuggestions : list loc)
    (now : Z) : M (list Issue) :=
  validate_loop suggestions allSuggestions now [].

End WithHost.
End Validators.

(** ** The service (parsed-deadline-suggestions) *)

Module ParsedDeadlineSuggestions.

Import Validators.

(** What [confirm] returns. *)
Record Confirmation : Type := {
  course : value;
  conf_title : value;
  conf_due : Date;
  conf_source : SourceType;
  addedBy : User;
}.

(** *** The pattern [/\{[\s\S]*\}/]: from the first opening brace to the
    last closing brace after it *)

Fixpoint upto_last_brace (s : string) : option string :=
  match s with
  | EmptyString => None
  | String c rest =>
      match upto_last_brace rest with
      | Some p => Some (String c p)
      | None => if Ascii.eqb c "}" then Some (String c EmptyString) else None
      end
  end.

Fixpoint jsonMatch (response : string) : option string :=
  match response with
  | EmptyString => None
  | String c rest =>
      if Ascii.eqb c "{" then option_map (String c) (upto_last_brace rest)
      else jsonMatch rest
  end.

Section WithHost.
Context `{Host}.

Definition generateId : M string :=
  fun w => (with_draws (S (draws w)) w, Ok (Math_random_id (draws w))).

(** [document?.filename || websiteUrl || "unknown"] *)
Definition source_label (document : option UploadedDocument)
    (websiteUrl : option string) : string :=
  let or_text (a : option string) (b : string) :=
    match a with
    | Some t => if String.eqb t "" then b else t
    | None => b
    end in
  or_text (option_map filename document) (or_text websiteUrl "unknown").

(** One round of the [for ... of] loop of [parseLLMResponse]: the object
    built for [item], or nothing when the item is skipped. *)
Definition convert_item (item : value) (document : option UploadedDocument)
    (source : SourceType) (websiteUrl : option string) : M (option loc) :=
  let* item_title := lift (Get item "title") in
  let* item_due := lift (Get item "due") in
  if negb (ToBoolean item_title) || negb (ToBoolean item_due) then ret None
  else
    let* new_id := generateId in
    let* item_confidence := lift (Get item "confidence") in
    let* item_provenance := lift (Get item "provenance") in
    let* suggestion := alloc
      {| id := new_id;
         title := item_title;
         due := Date_of_value item_due;
         source := source;
         confirmed := None;
         confidence := or_else item_confidence (VNumber 0.5%float);
         extractionMethod := Some LLM;
         provenance := or_else item_provenance (VString "LLM extraction");
         warnings := Some [];
         uploadedDocument := None;
         canvasMetadata := None;
         websiteUrl := None |} in
    when_some document (fun d => modify suggestion (set_uploadedDocument (Some d))) ;;
    when_some websiteUrl (fun u =>
      when (negb (String.eqb u "")) (modify suggestion (set_websiteUrl (Some u)))) ;;
    ret (Some suggestion).

Fixpoint convert_items (items : list value) (document : option UploadedDocument)
    (source : SourceType) (websiteUrl : option string) (suggestions : list loc)
    : M (list loc) :=
  match items with
  | [] => ret suggestions
  | item :: rest =>
      let* converted := convert_item item document source websiteUrl in
      convert_items rest document source websiteUrl
        (match converted with
         | Some l => suggestions ++ [l]
         | None => suggestions
         end)
  end.

Definition parseLLMResponse (response : string) (document : option UploadedDocument)
    (source : SourceType) (websiteUrl : option string) : M (list loc) :=
  match jsonMatch response with
  | None => throw (Error "No JSON found in LLM response")
  | Some text =>
      match JSON_parse text with
      | None => throw SyntaxError
      | Some parsed =>
          let* _ := lift (validateLLMResponse parsed (source_label document websiteUrl)) in
          let* parsed_suggestions := lift (Get parsed "suggestions") in
          match parsed_suggestions with
          | VArray items => convert_items items document source websiteUrl []
          | _ => throw (Error "Invalid response format - missing suggestions array")
          end
      end
  end.

(** [now] is what the clock reads while the new suggestions are validated. *)
Definition llmExtractFromDocument (document : UploadedDocument)
    (config : ExtractionConfig) (llm : GeminiLLM) (now : Z) : M (list loc) :=
  let prompt := createDocumentExtractionPrompt document config in
  let* response := lift (executeLLM llm prompt (llmConfig_of config)) in
  let* suggestions := parseLLMResponse response (Some document) SYLLABUS None in
  let* all := ParsedDeadlineState.getAllSuggestions in
  let* _ := validateSuggestions suggestions all now in
  ParsedDeadlineState.addSuggestions suggestions ;;
  ret suggestions.

Definition llmExtractFromWebsite (url : string) (config : ExtractionConfig)
    (llm : GeminiLLM) (now : Z) : M (list loc) :=
  let prompt := createWebsiteExtractionPrompt url "" config in
  let* response := lift (executeLLMWithURL llm prompt url (llmConfig_of config)) in
  let* suggestions := parseLLMResponse response None WEBSITE (Some url) in
  let* all := ParsedDeadlineState.getAllSuggestions in
  let* _ := validateSuggestions suggestions all now in
  ParsedDeadlineState.addSuggestions suggestions ;;
  ret suggestions.

Definition refineWithFeedback (suggestion : loc) (feedback : string)
    (config : ExtractionConfig) (llm : GeminiLLM) : M loc :=
  let* s := deref suggestion in
  let* prompt := lift (createRefinementPrompt s feedback config) in
  let* response := lift (executeLLM llm prompt (llmConfig_of config)) in
  let* refinedSuggestions :=
    parseLLMResponse response (uploadedDocument s) (source s) (websiteUrl s) in
  match refinedSuggestions with
  | [] => throw (Error "No refined suggestions returned from LLM")
  | refinedSuggestion :: _ =>
      let* s := deref suggestion in
      modify refinedSuggestion (set_id (id s)) ;;
      modify refinedSuggestion
        (set_warnings (Some (warnings_or_empty s ++ ["Refined with user feedback"]))) ;;
      let* _ := ParsedDeadlineState.updateSuggestion (id s) refinedSuggestion in
      ret refinedSuggestion
  end.

Definition editSuggestion (suggestionId : string) (updates : Editing.Updates)
    : M (option loc) :=
  let* found := ParsedDeadlineState.getSuggestionById suggestionId in
  match found with
  | None => ret None
  | Some suggestion =>
      let* updatedSuggestion := Editing.editSuggestion suggestion updates in
      let* _ := ParsedDeadlineState.updateSuggestion suggestionId updatedSuggestion in
      ret (Some updatedSuggestion)
  end.

Definition updateSuggestionTitle (suggestionId newTitle : string) : M bool :=
  let* suggestion := editSuggestion suggestionId
    {| Editing.upd_title := Some newTitle; Editing.upd_due := None;
       Editing.upd_confidence := None; Editing.upd_provenance := None |} in
  ret (match suggestion with Some _ => true | None => false end).

Definition updateSuggestionDate (suggestionId : string) (newDate : Date) : M bool :=
  let* suggestion := editSuggestion suggestionId
    {| Editing.upd_title := None; Editing.upd_due := Some newDate;
       Editing.upd_confidence := None; Editing.upd_provenance := None |} in
  ret (match suggestion with Some _ => true | None => false end).

Definition updateSuggestionTime (suggestionId newTime : string) : M bool :=
  let* found := ParsedDeadlineState.getSuggestionById suggestionId in
  match found with
  | None => ret false
  | Some suggestion =>
      let* success := Editing.updateSuggestionTime suggestion newTime in
      (if success
       then let* _ := ParsedDeadlineState.updateSuggestion suggestionId suggestion in ret tt
       else ret tt) ;;
      ret success
  end.

Definition extractCourseFromSuggestion (suggestion : ParsedDeadlineSuggestion)
    : result value :=
  let metadata_text :=
    match canvasMetadata suggestion with
    | Some t => if String.eqb t "" then None else Some t
    | None => None
    end in
  match metadata_text with
  | Some text =>
      match JSON_parse text with
      | None => Throw SyntaxError
      | Some metadata =>
          let+ course_name := Get metadata "course_name" in
          Ok (or_else course_name (VString "Unknown Course"))
      end
  | None =>
      let+ mentions :=
        if ToBoolean (provenance suggestion)
        then includes_method (provenance suggestion) "6.1040"
        else Ok false in
      if mentions then Ok (VString "6.1040") else Ok (VString "Unknown Course")
  end.

(** [!suggestion.due] is false for every [Date] object, valid or not: only
    the title can fail the second guard. *)
Definition confirm (suggestion : loc) (user : User) : M Confirmation :=
  let* s := deref suggestion in
  if is_confirmed s then throw (Error "Suggestion is already confirmed")
  else if negb (ToBoolean (title s)) then
    throw (Error "Suggestion must have valid title and due date")
  else
    modify suggestion (set_confirmed (Some true)) ;;
    let* s := deref suggestion in
    let* _ := ParsedDeadlineState.updateSuggestion (id s) suggestion in
    let* s := deref suggestion in
    let* course_name := lift (extractCourseFromSuggestion s) in
    ret {| course := course_name; conf_title := title s; conf_due := due s;
           conf_source := source s; addedBy := user |}.

(** *** Canvas *)

(** One entry of the mock Canvas feed. *)
Record CanvasAssignment : Type := {
  canvas_title : string;
  due_date : string;
  course_name : string;
}.

Definition mockCanvasData : list CanvasAssignment :=
  [ {| canvas_title := "Problem Set 3"; due_date := "2024-12-15T23:59:59Z";
       course_name := "6.1040" |};
    {| canvas_title := "Final Project"; due_date := "2024-12-20T17:00:00Z";
       course_name := "6.1040" |} ].

Definition dquote : string := String (ascii_of_nat 34) EmptyString.

(** [JSON.stringify(item)]: the three members in order, their texts between
    double quotes (no character of the feed needs an escape). *)
Definition stringify_assignment (item : CanvasAssignment) : string :=
  String.concat dquote
    ["{"; "title"; ":"; canvas_title item; ","; "due_date"; ":"; due_date item;
     ","; "course_name"; ":"; course_name item; "}"].

Fixpoint parseFromCanvas_map (items : list CanvasAssignment) : M (list loc) :=
  match items with
  | [] => ret []
  | item :: rest =>
      let* new_id := generateId in
      let* suggestion := alloc
        {| id := new_id;
           title := VString (canvas_title item);
           due := Date_parse (due_date item);
           source := CANVAS;
           confirmed := None;
           confidence := VNumber 0.9%float;
           extractionMethod := Some RULES;
           provenance :=
             VString (String.append "Canvas assignment from " (course_name item));
           warnings := None;
           uploadedDocument := None;
           canvasMetadata := Some (stringify_assignment item);
           websiteUrl := None |} in
      let* more := parseFromCanvas_map rest in
      ret (suggestion :: more)
  end.

Definition parseFromCanvas (user : User) : M (list loc) :=
  let* suggestions := parseFromCanvas_map mockCanvasData in
  ParsedDeadlineState.addSuggestions suggestions ;;
  ret suggestions.

(** The service applies the batch to a copy of the store's array. *)
Definition batchUpdateTiming (suggestionIds : list string) (timeRule : string)
    : M (nat * nat) :=
  let* all := ParsedDeadlineState.getAllSuggestions in
  Editing.batchUpdateTiming all suggestionIds timeRule.

End WithHost.
End ParsedDeadlineSuggestions.

(** ** A reference host

    A concrete [Host] with a fixed time zone, four hours behind UTC (New
    York in summer): it reads the ISO date-time format and plain decimal
    literals, and parses JSON without escapes and exponents. The examples
    and the instances of the theorems run on it. *)

Module ReferenceHost.

Local Open Scope Z_scope.

Definition quote : ascii := ascii_of_nat 34.

Definition is_digit (c : ascii) : bool := Editing.is_digit c.
Definition digit (c : ascii) : Z := Z.of_nat (Editing.digit c).

(** The longest run of digits at the head of [s]: its value, its length and
    what follows. *)
Fixpoint digits (s : string) (acc : Z) (n : nat) : Z * nat * string :=
  match s with
  | String c rest => if is_digit c then digits rest (10 * acc + digit c) (S n)
                     else (acc, n, s)
  | EmptyString => (acc, n, s)
  end.

(** Exactly [n] digits, then the rest. *)
Definition fixed_digits (n : nat) (s : string) : option (Z * string) :=
  match digits (substring 0 n s) 0 0 with
  | (v, k, EmptyString) =>
      if (k =? n)%nat then Some (v, substring n (String.length s - n) s) else None
  | _ => None
  end.

Definition expect (c : ascii) (s : string) : option string :=
  match s with
  | String d rest => if Ascii.eqb c d then Some rest else None
  | EmptyString => None
  end.

Definition tz_offset : Z := -4 * msPerHour.

Definition days_in_month (y m : Z) : Z :=
  if m =? 12 then 31 else days_from_civil y (m + 1) 1 - days_from_civil y m 1.

Definition obind {A B} (o : option A) (k : A -> option B) : option B :=
  match o with Some a => k a | None => None end.

(** The zone designator: Z, a signed offset, or none (local time). *)
Definition designator (s : string) : option Z :=
  match s with
  | EmptyString => Some tz_offset
  | String c rest =>
      if Ascii.eqb c "Z" then (if String.eqb rest "" then Some 0 else None)
      else if Ascii.eqb c "+" || Ascii.eqb c "-" then
        obind (fixed_digits 2 rest) (fun '(hh, rest) =>
        obind (expect ":" rest) (fun rest =>
        obind (fixed_digits 2 rest) (fun '(mm, rest) =>
        if String.eqb rest "" && (hh <=? 23) && (mm <=? 59) then
          Some ((if Ascii.eqb c "-" then -1 else 1) * (hh * msPerHour + mm * msPerMinute))
        else None)))
      else None
  end.

(** [:ss] and [.sss], both optional. *)
Definition seconds (s : string) : Z * Z * string :=
  match obind (expect ":" s) (fixed_digits 2) with
  | Some (ss, s') =>
      match obind (expect "." s') (fixed_digits 3) with
      | Some (ms, s'') => (ss, ms, s'')
      | None => (ss, 0, s')
      end
  | None => (0, 0, s)
  end.

(** [HH:mm], the seconds, then the designator. *)
Definition clock (day : Z) (s : string) : option Z :=
  obind (fixed_digits 2 s) (fun '(hh, s) =>
  obind (expect ":" s) (fun s =>
  obind (fixed_digits 2 s) (fun '(mi, s) =>
  let '(ss, ms, s) := seconds s in
  obind (designator s) (fun offset =>
  if (hh <=? 23) && (mi <=? 59) && (ss <=? 59) then
    TimeClip (MakeDate day (MakeTime hh mi ss ms) - offset)
  else None)))).

Definition parse_date (s : string) : option Z :=
  obind (fixed_digits 4 s) (fun '(y, s) =>
  obind (expect "-" s) (fun s =>
  obind (fixed_digits 2 s) (fun '(m, s) =>
  obind (expect "-" s) (fun s =>
  obind (fixed_digits 2 s) (fun '(d, s) =>
  if (1 <=? m) && (m <=? 12) && (1 <=? d) && (d <=? days_in_month y m) then
    let day := days_from_civil y m d in
    match s with
    | EmptyString => TimeClip (MakeDate day 0)
    | String c rest => if Ascii.eqb c "T" then clock day rest else None
    end
  else None))))).

(** A decimal literal: digits with an optional fraction. *)
Definition float_of_Z (n : Z) : float := PrimFloat.of_uint63 (Uint63.of_Z n).

Definition decimal (s : string) : option (float * string) :=
  let '(int_part, n, rest) := digits s 0 0 in
  if (n =? 0)%nat then None
  else
    let '(num, k, rest) :=
      match rest with
      | String c rest' =>
          if Ascii.eqb c "." then
            let '(all, k, rest'') := digits rest' int_part 0 in
            if (k =? 0)%nat then (int_part, 0%nat, rest) else (all, k, rest'')
          else (int_part, 0%nat, rest)
      | EmptyString => (int_part, 0%nat, rest)
      end in
    if (num <? 2 ^ 53) && (k <=? 15)%nat then
      Some (PrimFloat.div (float_of_Z num) (float_of_Z (10 ^ Z.of_nat k)), rest)
    else None.

Definition signed_decimal (s : string) : option (float * string) :=
  match s with
  | String c rest =>
      if Ascii.eqb c "-" then
        option_map (fun '(f, r) => (PrimFloat.opp f, r)) (decimal rest)
      else decimal s
  | EmptyString => None
  end.

Definition is_ws (c : ascii) : bool :=
  Ascii.eqb c " " || (code c =? 9)%nat || (code c =? 10)%nat || (code c =? 13)%nat.

Fixpoint skip_ws (s : string) : string :=
  match s with
  | String c rest => if is_ws c then skip_ws rest else s
  | EmptyString => s
  end.

Definition parse_number (s : string) : float :=
  let s := skip_ws s in
  if String.eqb s "" then 0%float
  else match signed_decimal s with
       | Some (f, rest) => if String.eqb (skip_ws rest) "" then f else PrimFloat.nan
       | None => PrimFloat.nan
       end.

(** The characters of a JSON string up to its closing quote. *)
Fixpoint string_body (s : string) : option (string * string) :=
  match s with
  | EmptyString => None
  | String c rest =>
      if Ascii.eqb c quote then Some (EmptyString, rest)
      else if Ascii.eqb c "\" || (code c <? 32)%nat then None
      else option_map (fun '(b, r) => (String c b, r)) (string_body rest)
  end.

(** A JSON number has no digit after a leading zero. *)
Definition leading_zero (s : string) : bool :=
  let unsigned :=
    match s with
    | String c rest => if Ascii.eqb c "-" then rest else s
    | EmptyString => s
    end in
  match unsigned with
  | String c (String d _) => Ascii.eqb c "0" && is_digit d
  | _ => false
  end.

(** The last occurrence of a key wins. *)
Definition add_member (k : string) (v : value) (props : list (string * value)) :=
  List.filter (fun kv => negb (String.eqb (fst kv) k)) props ++ [(k, v)].

Fixpoint parse_value (fuel : nat) (s : string) : option (value * string) :=
  match fuel with
  | O => None
  | S fuel =>
      match skip_ws s with
      | EmptyString => None
      | String c rest as s' =>
          if Ascii.eqb c "{" then
            match skip_ws rest with
            | String d rest' =>
                if Ascii.eqb d "}" then Some (VObject [], rest')
                else parse_members fuel (skip_ws rest) []
            | EmptyString => None
            end
          else if Ascii.eqb c "[" then
            match skip_ws rest with
            | String d rest' =>
                if Ascii.eqb d "]" then Some (VArray [], rest')
                else parse_elements fuel rest []
            | EmptyString => None
            end
          else if Ascii.eqb c quote then
            option_map (fun '(b, r) => (VString b, r)) (string_body rest)
          else if startsWith "true" s' then Some (VBool true, substring 4 (String.length s') s')
          else if startsWith "false" s' then Some (VBool false, substring 5 (String.length s') s')
          else if startsWith "null" s' then Some (VNull, substring 4 (String.length s') s')
          else if leading_zero s' then None
          else option_map (fun '(f, r) => (VNumber f, r)) (signed_decimal s')
      end
  end
with parse_elements (fuel : nat) (s : string) (acc : list value)
    : option (value * string) :=
  match fuel with
  | O => None
  | S fuel =>
      obind (parse_value fuel s) (fun '(v, rest) =>
      match skip_ws rest with
      | String c rest' =>
          if Ascii.eqb c "," then parse_elements fuel rest' (acc ++ [v])
          else if Ascii.eqb c "]" then Some (VArray (acc ++ [v]), rest')
          else None
      | EmptyString => None
      end)
  end
with parse_members (fuel : nat) (s : string) (acc : list (string * value))
    : option (value * string) :=
  match fuel with
  | O => None
  | S fuel =>
      match skip_ws s with
      | String c rest =>
          if Ascii.eqb c quote then
            obind (string_body rest) (fun '(k, rest) =>
            obind (expect ":" (skip_ws rest)) (fun rest =>
            obind (parse_value fuel rest) (fun '(v, rest) =>
            match skip_ws rest with
            | String c rest' =>
                if Ascii.eqb c "," then parse_members fuel rest' (add_member k v acc)
                else if Ascii.eqb c "}" then Some (VObject (add_member k v acc), rest')
                else None
            | EmptyString => None
            end)))
          else None
      | EmptyString => None
      end
  end.

Definition parse_json (s : string) : option value :=
  match parse_value (2 * String.length s + 2) s with
  | Some (v, rest) => if String.eqb (skip_ws rest) "" then Some v else None
  | None => None
  end.

(** An integer-valued number in decimal. *)
Definition integer_text (n : float) : string :=
  match Prim2SF n with
  | S754_zero _ => "0"
  | S754_finite s m e =>
      let mag := if 0 <=? e then Z.pos m * 2 ^ e else Z.pos m / 2 ^ (- e) in
      String.append (if s then "-" else "") (pretty.pretty mag)
  | S754_infinity s => if s then "-Infinity" else "Infinity"
  | S754_nan => "NaN"
  end.

(** The text of an array (its elements joined by commas) or of a plain
    object; a number inside an array is printed as an integer. *)
Fixpoint to_text (v : value) : string :=
  match v with
  | VUndefined | VNull => ""
  | VBool b => if b then "true" else "false"
  | VNumber n => integer_text n
  | VString s => s
  | VArray elems =>
      (fix join (xs : list value) : string :=
         match xs with
         | [] => ""
         | [x] => to_text x
         | x :: rest => String.append (to_text x) (String.append "," (join rest))
         end) elems
  | VObject _ => "[object Object]"
  end.

#[export] Instance host : Host := {|
  LocalTZA := fun _ _ => tz_offset;
  Date_parse := parse_date;
  StringToNumber := parse_number;
  ToPrimitive_object := to_text;
  JSON_parse := parse_json;
  Math_random_id := fun n => String.append "r" (pretty.pretty n);
|}.

End ReferenceHost.

(** * Properties *)

Import ParsedDeadlineState Validators ParsedDeadlineSuggestions.

(** ** Running an operation *)

Lemma bind_ok {A B} (m : M A) (k : A -> M B) w w' a :
  m w = (w', Ok a) -> bind m k w = k a w'.
Proof. intros E. unfold bind. now rewrite E. Qed.

Lemma bind_throw {A B} (m : M A) (k : A -> M B) w w' e :
  m w = (w', Throw e) -> bind m k w = (w', Throw e).
Proof. intros E. unfold bind. now rewrite E. Qed.

Lemma deref_ok l s w : heap w !! l = Some s -> deref l w = (w, Ok s).
Proof. intros E. unfold deref. now rewrite E. Qed.

(** The world after the object at [l] became [x]. *)
Definition upd (l : loc) (x : ParsedDeadlineSuggestion) (w : World) : World :=
  with_heap (<[l := x]> (heap w)) w.

Lemma modify_ok l f s w :
  heap w !! l = Some s -> modify l f w = (upd l (f s) w, Ok tt).
Proof. intros E. unfold modify, upd. now rewrite E. Qed.

Lemma heap_upd_same l x s w :
  heap w !! l = Some s -> heap (upd l x w) !! l = Some x.
Proof.
  intros E. cbn. apply list_lookup_insert_eq. now apply lookup_lt_Some in E.
Qed.

Lemma heap_upd_other l l' x w :
  l <> l' -> heap (upd l x w) !! l' = heap w !! l'.
Proof. intros N. cbn. now apply list_lookup_insert_ne. Qed.

Lemma upd_upd l x y w : upd l y (upd l x w) = upd l y w.
Proof. unfold upd. cbn [heap with_heap]. now rewrite list_insert_insert_eq. Qed.

Lemma upd_same l s w : heap w !! l = Some s -> upd l s w = w.
Proof.
  intros E. unfold upd. rewrite list_insert_id by exact E. now destruct w.
Qed.

(** Chaining a mutation of the object at [l]. *)
Lemma modify_then {B} l f s w (k : M B) :
  heap w !! l = Some s -> (modify l f ;; k) w = k (upd l (f s) w).
Proof. intros E. now rewrite (bind_ok _ _ _ _ _ (modify_ok _ f _ _ E)). Qed.

(** ** The store *)

(** The record the store holds for an identifier: what [getSuggestionById]
    finds, dereferenced. *)
Definition stored (sid : string) (w : World) : option ParsedDeadlineSuggestion :=
  match List.find (has_id (heap w) sid) (suggestions w) with
  | Some l => heap w !! l
  | None => None
  end.

Lemma find_findIndex {A} (p : A -> bool) xs x :
  List.find p xs = Some x ->
  exists i, findIndex p xs = Some i /\ xs !! i = Some x.
Proof.
  induction xs as [|y ys IH]; cbn; [discriminate|].
  destruct (p y).
  - intros [= ->]. now exists 0.
  - intros E. destruct (IH E) as (i & Ei & Li). exists (S i). now rewrite Ei.
Qed.

Lemma find_ext_pointwise {A} (p p' : A -> bool) xs :
  (forall x, p x = p' x) -> List.find p xs = List.find p' xs.
Proof.
  intros E. induction xs as [|y ys IH]; cbn; [reflexivity|].
  now rewrite E, IH.
Qed.

Lemma has_id_true h sid l :
  has_id h sid l = true -> exists s, h !! l = Some s /\ id s = sid.
Proof.
  unfold has_id. destruct (h !! l) as [s|]; [|discriminate].
  intros E. exists s. split; [reflexivity|]. now apply String.eqb_eq.
Qed.

(** Replacing an object by one with the same identifier does not change
    which references carry an identifier. *)
Lemma has_id_upd l x s w sid l' :
  heap w !! l = Some s -> id x = id s ->
  has_id (heap (upd l x w)) sid l' = has_id (heap w) sid l'.
Proof.
  intros E I. unfold has_id. destruct (Nat.eq_dec l l') as [<-|N].
  - rewrite (heap_upd_same _ _ _ _ E), E. now rewrite I.
  - now rewrite (heap_upd_other _ _ _ _ N).
Qed.

(** Writing back the reference that the store already holds for an
    identifier leaves the store as it is. *)
Lemma updateSuggestion_same sid l w :
  List.find (has_id (heap w) sid) (suggestions w) = Some l ->
  updateSuggestion sid l w = (w, Ok true).
Proof.
  intros F. destruct (find_findIndex _ _ _ F) as (i & Ei & Li).
  unfold updateSuggestion. rewrite Ei, (list_insert_id _ _ _ Li).
  now destruct w.
Qed.

(** ** Manual edits *)

Definition apply_updates (u : Editing.Updates) (s : ParsedDeadlineSuggestion)
    : ParsedDeadlineSuggestion :=
  let s := match Editing.upd_title u with Some t => set_title (VString t) s | None => s end in
  let s := match Editing.upd_due u with Some d => set_due d s | None => s end in
  let s := match Editing.upd_confidence u with Some c => set_confidence (VNumber c) s | None => s end in
  let s := match Editing.upd_provenance u with Some p => set_provenance (VString p) s | None => s end in
  push_warning "Manually edited by user" s.

Lemma when_some_modify {A B} (o : option A) (g : A -> ParsedDeadlineSuggestion -> ParsedDeadlineSuggestion)
    l s w (k : M B) :
  heap w !! l = Some s ->
  (when_some o (fun a => modify l (g a)) ;; k) w =
  k (upd l (match o with Some a => g a s | None => s end) w).
Proof.
  intros E. destruct o as [a|]; cbn [when_some].
  - now apply modify_then.
  - rewrite (upd_same _ _ _ E). reflexivity.
Qed.

Lemma Editing_editSuggestion_run l u s w :
  heap w !! l = Some s ->
  Editing.editSuggestion l u w = (upd l (apply_updates u s) w, Ok l).
Proof.
  intros E. unfold Editing.editSuggestion.
  rewrite (when_some_modify _ (fun t => set_title (VString t)) _ _ _ _ E).
  rewrite (when_some_modify _ set_due _ _ _ _ (heap_upd_same _ _ _ _ E)), upd_upd.
  rewrite (when_some_modify _ (fun c => set_confidence (VNumber c)) _ _ _ _ (heap_upd_same _ _ _ _ E)), upd_upd.
  rewrite (when_some_modify _ (fun p => set_provenance (VString p)) _ _ _ _ (heap_upd_same _ _ _ _ E)), upd_upd.
  rewrite (modify_then _ _ _ _ _ (heap_upd_same _ _ _ _ E)), upd_upd.
  reflexivity.
Qed.

Lemma apply_updates_id u s : id (apply_updates u s) = id s.
Proof. unfold apply_updates. now destruct u as [[?|] [?|] [?|] [?|]]. Qed.

Lemma apply_updates_confirmed u s : confirmed (apply_updates u s) = confirmed s.
Proof. unfold apply_updates. now destruct u as [[?|] [?|] [?|] [?|]]. Qed.

(** The service's [editSuggestion] on an identifier the store knows. *)
Lemma editSuggestion_run sid l s u w :
  List.find (has_id (heap w) sid) (suggestions w) = Some l ->
  heap w !! l = Some s ->
  editSuggestion sid u w = (upd l (apply_updates u s) w, Ok (Some l)).
Proof.
  intros F E. unfold editSuggestion, getSuggestionById.
  unfold bind at 1. rewrite F.
  rewrite (bind_ok _ _ _ _ _ (Editing_editSuggestion_run _ u _ _ E)).
  rewrite (bind_ok _ _ _ (upd l (apply_updates u s) w) true); [reflexivity|].
  apply updateSuggestion_same. cbn [suggestions upd with_heap].
  rewrite <- F. apply find_ext_pointwise. intros l'.
  apply (has_id_upd _ _ _ _ _ _ E), apply_updates_id.
Qed.

(** What a manual edit with [u] makes of [s]. *)
Definition edited (u : Editing.Updates) (s s' : ParsedDeadlineSuggestion) : Prop :=
  id s' = id s /\
  title s' = match Editing.upd_title u with Some t => VString t | None => title s end /\
  due s' = match Editing.upd_due u with Some d => d | None => due s end /\
  confidence s' =
    match Editing.upd_confidence u with Some c => VNumber c | None => confidence s end /\
  provenance s' =
    match Editing.upd_provenance u with Some p => VString p | None => provenance s end /\
  warnings s' = Some (warnings_or_empty s ++ ["Manually edited by user"]) /\
  confirmed s' = confirmed s /\
  source s' = source s.

Lemma apply_updates_edited u s : edited u s (apply_updates u s).
Proof. unfold edited, apply_updates. now destruct u as [[?|] [?|] [?|] [?|]]. Qed.

Definition only_due (d : Date) : Editing.Updates :=
  {| Editing.upd_title := None; Editing.upd_due := Some d;
     Editing.upd_confidence := None; Editing.upd_provenance := None |}.

Section EditProps.
Context `{Host}.

Lemma Editing_updateSuggestionTime_run l s newTime hours minutes period w :
  heap w !! l = Some s ->
  Editing.timeMatch newTime = Some (hours, minutes, period) ->
  Editing.updateSuggestionTime l newTime w =
    (upd l (apply_updates
              (only_due (setHours (due s) (Z.of_nat (Editing.to24 hours period))
                           (Z.of_nat minutes))) s) w, Ok true).
Proof.
  intros E T. unfold Editing.updateSuggestionTime. rewrite T.
  rewrite (bind_ok _ _ _ _ _ (deref_ok _ _ _ E)).
  now rewrite (bind_ok _ _ _ _ _ (Editing_editSuggestion_run _ _ _ _ E)).
Qed.

Lemma Editing_updateSuggestionTime_reject l newTime w :
  Editing.timeMatch newTime = None ->
  Editing.updateSuggestionTime l newTime w = (w, Ok false).
Proof. intros T. unfold Editing.updateSuggestionTime. now rewrite T. Qed.

Lemma updateSuggestionTime_run sid l s newTime hours minutes period w :
  List.find (has_id (heap w) sid) (suggestions w) = Some l ->
  heap w !! l = Some s ->
  Editing.timeMatch newTime = Some (hours, minutes, period) ->
  updateSuggestionTime sid newTime w =
    (upd l (apply_updates
              (only_due (setHours (due s) (Z.of_nat (Editing.to24 hours period))
                           (Z.of_nat minutes))) s) w, Ok true).
Proof.
  intros F E T. unfold updateSuggestionTime, getSuggestionById.
  unfold bind at 1. rewrite F.
  rewrite (bind_ok _ _ _ _ _ (Editing_updateSuggestionTime_run _ _ _ _ _ _ _ E T)).
  set (w' := upd l _ w).
  assert (U : updateSuggestion sid l w' = (w', Ok true)).
  { apply updateSuggestion_same. subst w'. cbn [suggestions upd with_heap].
    rewrite <- F. apply find_ext_pointwise. intros l'.
    apply (has_id_upd _ _ _ _ _ _ E), apply_updates_id. }
  unfold bind. now rewrite U.
Qed.

Lemma updateSuggestionTime_reject sid newTime w :
  Editing.timeMatch newTime = None ->
  updateSuggestionTime sid newTime w = (w, Ok false).
Proof.
  intros T.
  unfold updateSuggestionTime, getSuggestionById. unfold bind at 1.
  destruct (List.find _ _) as [l|]; [|reflexivity].
  now rewrite (bind_ok _ _ _ _ _ (Editing_updateSuggestionTime_reject l _ _ T)).
Qed.

(** *** Confirmation *)

Lemma updateSuggestion_heap sid l w : heap (fst (updateSuggestion sid l w)) = heap w.
Proof. unfold updateSuggestion. now destruct (findIndex _ _). Qed.

Lemma updateSuggestion_total sid l w :
  exists b, updateSuggestion sid l w = (fst (updateSuggestion sid l w), Ok b).
Proof. unfold updateSuggestion. destruct (findIndex _ _); eauto. Qed.

Lemma confirm_already_confirmed l s user w :
  heap w !! l = Some s -> is_confirmed s = true ->
  confirm l user w = (w, Throw (Error "Suggestion is already confirmed")).
Proof.
  intros E C. unfold confirm.
  rewrite (bind_ok _ _ _ _ _ (deref_ok _ _ _ E)). now rewrite C.
Qed.

Lemma confirm_without_title l s user w :
  heap w !! l = Some s -> is_confirmed s = false -> ToBoolean (title s) = false ->
  confirm l user w = (w, Throw (Error "Suggestion must have valid title and due date")).
Proof.
  intros E C T. unfold confirm.
  rewrite (bind_ok _ _ _ _ _ (deref_ok _ _ _ E)). now rewrite C, T.
Qed.

(** An unconfirmed suggestion with a title is marked and written to the
    store slot of its identifier before the course is derived: the outcome
    is that of [extractCourseFromSuggestion]. *)
Lemma confirm_run l s user w :
  heap w !! l = Some s -> is_confirmed s = false -> ToBoolean (title s) = true ->
  let s' := set_confirmed (Some true) s in
  confirm l user w =
    (fst (updateSuggestion (id s) l (upd l s' w)),
     match extractCourseFromSuggestion s' with
     | Ok c => Ok {| course := c; conf_title := title s; conf_due := due s;
                     conf_source := source s; addedBy := user |}
     | Throw e => Throw e
     end).
Proof.
  intros E C T s'. unfold confirm.
  rewrite (bind_ok _ _ _ _ _ (deref_ok _ _ _ E)). rewrite C, T. cbn [negb].
  rewrite (modify_then _ _ _ _ _ E). fold s'.
  pose proof (heap_upd_same _ s' _ _ E) as E'.
  rewrite (bind_ok _ _ _ _ _ (deref_ok _ _ _ E')).
  destruct (updateSuggestion_total (id s') l (upd l s' w)) as (b & U).
  rewrite (bind_ok _ _ _ _ _ U).
  assert (E'' : heap (fst (updateSuggestion (id s') l (upd l s' w))) !! l = Some s')
    by now rewrite updateSuggestion_heap.
  rewrite (bind_ok _ _ _ _ _ (deref_ok _ _ _ E'')).
  unfold bind, lift. cbn [id s' set_confirmed] in *.
  destruct (extractCourseFromSuggestion _); reflexivity.
Qed.

End EditProps.

Section ConfirmedEdits.
Context `{Host}.

(** C6, amended. The edit paths do not look at the confirmed flag. For a
    stored suggestion with confirmed = true, [editSuggestion] returns the
    suggestion with the given fields replaced and the warning "Manually
    edited by user" appended, and [updateSuggestionTime] with a time text
    that holds a clock time returns true, with due moved to that time and
    the same warning appended; in both cases the suggestion stays confirmed
    and no other object and no store slot changes. *)
Theorem edits_ignore_confirmation sid l s w :
  List.find (has_id (heap w) sid) (suggestions w) = Some l ->
  heap w !! l = Some s ->
  is_confirmed s = true ->
  (forall updates, exists s',
      editSuggestion sid updates w = (upd l s' w, Ok (Some l)) /\
      edited updates s s' /\ is_confirmed s' = true) /\
  (forall newTime hours minutes period,
      Editing.timeMatch newTime = Some (hours, minutes, period) ->
      exists s',
        updateSuggestionTime sid newTime w = (upd l s' w, Ok true) /\
        edited (only_due (setHours (due s) (Z.of_nat (Editing.to24 hours period))
                            (Z.of_nat minutes))) s s' /\
        is_confirmed s' = true).
Proof.
  intros F E C. split.
  - intros u. exists (apply_updates u s). split; [now apply editSuggestion_run|].
    split; [apply apply_updates_edited|].
    unfold is_confirmed in *. now rewrite apply_updates_confirmed.
  - intros newTime hours minutes period T. eexists. split.
    + now apply (updateSuggestionTime_run _ _ _ _ _ _ _ _ F E T).
    + split; [apply apply_updates_edited|].
      unfold is_confirmed in *. now rewrite apply_updates_confirmed.
Qed.

End ConfirmedEdits.

(** ** Conversion of a payload *)

(** [item.key], for an item that can be read. *)
Definition prop (item : value) (key : string) : value :=
  match Get item key with Ok v => v | Throw _ => VUndefined end.

(** Reading a property of [null] or [undefined] throws. *)
Definition readable (item : value) : bool :=
  match item with VNull | VUndefined => false | _ => true end.

(** An entry that the conversion loop keeps. *)
Definition is_candidate (item : value) : bool :=
  ToBoolean (prop item "title") && ToBoolean (prop item "due").

Definition nonempty (o : option string) : option string :=
  match o with
  | Some u => if String.eqb u "" then None else Some u
  | None => None
  end.

(** The world after the objects [news] were created with as many
    identifiers drawn. *)
Definition extended (news : list ParsedDeadlineSuggestion) (w : World) : World :=
  {| heap := heap w ++ news; suggestions := suggestions w;
     draws := draws w + List.length news |}.

(** The payloads that structural validation rejects: not an object, or an
    object without a candidate list, or with one that is not a list. *)
Inductive structurally_invalid : value -> Prop :=
| not_an_object v :
    (forall props, v <> VObject props) -> structurally_invalid v
| missing_list props :
    lookup_prop "suggestions" props = VUndefined -> structurally_invalid (VObject props)
| not_a_list props :
    Array_isArray (lookup_prop "suggestions" props) = false ->
    structurally_invalid (VObject props).

(** The two errors of the structural tier. *)
Definition StructuralError (e : exn) : Prop :=
  e = Error "LLM response is not a valid JSON object" \/
  e = Error "LLM response missing 'suggestions' array".

Lemma extended_nil w : extended [] w = w.
Proof. unfold extended. rewrite app_nil_r, Nat.add_0_r. now destruct w. Qed.

Lemma extended_app a b w : extended b (extended a w) = extended (a ++ b) w.
Proof.
  unfold extended. cbn. now rewrite <- app_assoc, length_app, Nat.add_assoc.
Qed.

Lemma Get_readable item key : readable item = true -> Get item key = Ok (prop item key).
Proof. unfold prop. now destruct item. Qed.

Section Conversion.
Context `{Host}.

(** The object that the conversion loop builds for a kept entry. *)
Definition suggestion_of (item : value) (new_id : string)
    (document : option UploadedDocument) (source : SourceType)
    (websiteUrl : option string) : ParsedDeadlineSuggestion :=
  {| id := new_id;
     title := prop item "title";
     due := Date_of_value (prop item "due");
     source := source;
     confirmed := None;
     confidence := or_else (prop item "confidence") (VNumber 0.5%float);
     extractionMethod := Some LLM;
     provenance := or_else (prop item "provenance") (VString "LLM extraction");
     warnings := Some [];
     uploadedDocument := document;
     canvasMetadata := None;
     websiteUrl := nonempty websiteUrl |}.

(** The objects built for a list of entries, the first identifier being the
    [n]-th draw. *)
Fixpoint converted (items : list value) (n : nat)
    (document : option UploadedDocument) (source : SourceType)
    (websiteUrl : option string) : list ParsedDeadlineSuggestion :=
  match items with
  | [] => []
  | item :: rest =>
      if is_candidate item
      then suggestion_of item (Math_random_id n) document source websiteUrl
           :: converted rest (S n) document source websiteUrl
      else converted rest n document source websiteUrl
  end.

Lemma convert_item_skipped item document source websiteUrl w :
  readable item = true -> is_candidate item = false ->
  convert_item item document source websiteUrl w = (w, Ok None).
Proof.
  intros R C. unfold convert_item, lift, bind.
  repeat (rewrite Get_readable by exact R). unfold is_candidate in C.
  rewrite <- negb_andb, C. reflexivity.
Qed.

Lemma convert_item_kept item document source websiteUrl w :
  readable item = true -> is_candidate item = true ->
  convert_item item document source websiteUrl w =
    (extended [suggestion_of item (Math_random_id (draws w)) document source websiteUrl] w,
     Ok (Some (List.length (heap w)))).
Proof.
  intros R C. unfold convert_item, lift, bind at 1 2.
  repeat (rewrite Get_readable by exact R). unfold is_candidate in C.
  rewrite <- negb_andb, C. cbn [negb].
  unfold bind at 1. cbn [generateId].
  unfold bind at 1 2. repeat (rewrite Get_readable by exact R).
  unfold bind at 1. cbn [alloc].
  set (s0 := {| id := _ |}).
  set (w1 := with_heap _ _).
  assert (E : heap w1 !! List.length (heap w) = Some s0).
  { subst w1. cbn. apply list_lookup_middle. reflexivity. }
  rewrite (when_some_modify document (fun d => set_uploadedDocument (Some d)) _ _ _ _ E).
  set (s1 := match document with Some _ => _ | None => _ end).
  assert (E1 : heap (upd (List.length (heap w)) s1 w1) !! List.length (heap w) = Some s1)
    by apply (heap_upd_same _ _ _ _ E).
  assert (Fin : forall s2, upd (List.length (heap w)) s2 w1 =
                           with_draws (S (draws w)) (with_heap (heap w ++ [s2]) w)).
  { intros s2. subst w1. unfold upd, with_heap, with_draws. cbn.
    f_equal. rewrite insert_app_r_alt by reflexivity.
    now rewrite Nat.sub_diag. }
  assert (Ext : forall s2, with_draws (S (draws w)) (with_heap (heap w ++ [s2]) w)
                           = extended [s2] w).
  { intros s2. unfold extended, with_draws, with_heap. cbn. f_equal. lia. }
  unfold suggestion_of, nonempty.
  destruct websiteUrl as [u|]; cbn [when_some].
  - destruct (String.eqb u "") eqn:U; cbn [when negb].
    + unfold bind, ret. rewrite Fin, Ext. subst s1 s0. cbn.
      destruct document; reflexivity.
    + rewrite (modify_then _ _ _ _ _ E1), upd_upd. unfold ret.
      rewrite Fin, Ext. subst s1 s0. cbn. destruct document; reflexivity.
  - unfold bind, ret. rewrite Fin, Ext. subst s1 s0. cbn.
    destruct document; reflexivity.
Qed.

Lemma convert_items_run items document source websiteUrl acc w :
  forallb readable items = true ->
  let news := converted items (draws w) document source websiteUrl in
  convert_items items document source websiteUrl acc w =
    (extended news w, Ok (acc ++ seq (List.length (heap w)) (List.length news))).
Proof.
  revert acc w. induction items as [|item rest IH]; intros acc w R; cbn in R |- *.
  - unfold ret. now rewrite extended_nil, app_nil_r.
  - apply andb_prop in R as [R1 R2].
    destruct (is_candidate item) eqn:C.
    + rewrite (bind_ok _ _ _ _ _ (convert_item_kept _ _ _ _ _ R1 C)).
      rewrite (IH _ _ R2). cbn [extended draws heap].
      rewrite extended_app. cbn [List.length app seq].
      rewrite length_app, Nat.add_1_r, <- app_assoc. cbn [app List.length].
      now rewrite Nat.add_1_r.
    + rewrite (bind_ok _ _ _ _ _ (convert_item_skipped _ _ _ _ _ R1 C)).
      now rewrite (IH _ _ R2).
Qed.

(** Structural validation reads every entry: when it returns, no entry is
    [null]. *)
Lemma validate_entry_readable item index issues issues' :
  validate_entry item index issues = Ok issues' -> readable item = true.
Proof. destruct item; cbn; try discriminate; reflexivity. Qed.

Lemma validate_entries_readable items index issues issues' :
  validate_entries items index issues = Ok issues' -> forallb readable items = true.
Proof.
  revert index issues. induction items as [|item rest IH]; intros index issues V.
  - reflexivity.
  - cbn in V |- *. unfold rbind in V at 1.
    destruct (validate_entry item index issues) as [i1|] eqn:V1; [|discriminate].
    rewrite (validate_entry_readable _ _ _ _ V1). cbn. now apply (IH _ _ V).
Qed.

Lemma validateLLMResponse_invalid parsed label :
  structurally_invalid parsed ->
  exists e, validateLLMResponse parsed label = Throw e /\ StructuralError e.
Proof.
  unfold StructuralError, validateLLMResponse.
  intros [v N | props M | props M].
  - destruct v as [| |[|]|n|s|elems|props]; cbn; eauto.
    + destruct (number_falsy n); cbn; eauto.
    + destruct (String.eqb s ""); cbn; eauto.
    + now destruct (N props).
  - cbn. rewrite M. eauto.
  - cbn. destruct (lookup_prop "suggestions" props); try discriminate; eauto.
Qed.

Lemma validateLLMResponse_passes parsed label issues :
  validateLLMResponse parsed label = Ok issues ->
  exists props items,
    parsed = VObject props /\ lookup_prop "suggestions" props = VArray items /\
    forallb readable items = true.
Proof.
  unfold validateLLMResponse.
  destruct parsed as [| |[|]|n|s|elems|props]; cbn; try discriminate.
  - destruct (number_falsy n); discriminate.
  - destruct (String.eqb s ""); discriminate.
  - destruct (lookup_prop "suggestions" props) as [| | | | |items|] eqn:L;
      try discriminate.
    intros V. exists props, items. split; [reflexivity|]. split; [exact L|].
    now apply validate_entries_readable in V.
Qed.

(** A payload of the wrong shape stops [parseLLMResponse] before any object
    is created. *)
Lemma parseLLMResponse_invalid response text parsed document source websiteUrl w :
  jsonMatch response = Some text -> JSON_parse text = Some parsed ->
  structurally_invalid parsed ->
  exists e, parseLLMResponse response document source websiteUrl w = (w, Throw e)
            /\ StructuralError e.
Proof.
  intros J P S. unfold parseLLMResponse. rewrite J, P.
  destruct (validateLLMResponse_invalid parsed (source_label document websiteUrl) S)
    as (e & V & Se).
  exists e. split; [|exact Se]. unfold bind, lift. now rewrite V.
Qed.

(** A payload that passes structural validation is converted entry by
    entry. *)
Lemma parseLLMResponse_run response text props items issues document source websiteUrl w :
  jsonMatch response = Some text -> JSON_parse text = Some (VObject props) ->
  validateLLMResponse (VObject props) (source_label document websiteUrl) = Ok issues ->
  lookup_prop "suggestions" props = VArray items ->
  let news := converted items (draws w) document source websiteUrl in
  parseLLMResponse response document source websiteUrl w =
    (extended news w, Ok (seq (List.length (heap w)) (List.length news))).
Proof.
  intros J P V L news. unfold parseLLMResponse. rewrite J, P.
  unfold bind at 1. unfold lift at 1. rewrite V.
  unfold bind at 1. unfold lift at 1. cbn [Get]. rewrite L.
  destruct (validateLLMResponse_passes _ _ _ V) as (props' & items' & [= <-] & L' & R).
  rewrite L in L'. injection L' as <-.
  apply (convert_items_run items document source websiteUrl [] w R).
Qed.

(** C7. A payload that is not an object, or lacks the candidate list, or
    whose candidate list is not a list, makes intake (from a document and
    from a website) fail with a structural error, and the world after the
    failed intake, store and objects, is the world before it. *)
Theorem intake_rejects_invalid_shape response text parsed config llm now w :
  jsonMatch response = Some text ->
  JSON_parse text = Some parsed ->
  structurally_invalid parsed ->
  (forall document,
     executeLLM llm (createDocumentExtractionPrompt document config)
       (llmConfig_of config) = Ok response ->
     exists e, llmExtractFromDocument document config llm now w = (w, Throw e)
               /\ StructuralError e) /\
  (forall url,
     executeLLMWithURL llm (createWebsiteExtractionPrompt url "" config) url
       (llmConfig_of config) = Ok response ->
     exists e, llmExtractFromWebsite url config llm now w = (w, Throw e)
               /\ StructuralError e).
Proof.
  intros J P S. split.
  - intros document L.
    destruct (parseLLMResponse_invalid _ _ _ (Some document) SYLLABUS None w J P S)
      as (e & Pe & Se).
    exists e. split; [|exact Se]. unfold llmExtractFromDocument.
    unfold bind at 1. unfold lift. rewrite L.
    now rewrite (bind_throw _ _ _ _ _ Pe).
  - intros url L.
    destruct (parseLLMResponse_invalid _ _ _ None WEBSITE (Some url) w J P S)
      as (e & Pe & Se).
    exists e. split; [|exact Se]. unfold llmExtractFromWebsite.
    unfold bind at 1. unfold lift. rewrite L.
    now rewrite (bind_throw _ _ _ _ _ Pe).
Qed.

(** C10. An entry that the conversion keeps and whose confidence is falsy,
    the number 0 in particular, gets the confidence 0.5: the stated value 0
    is replaced like an absent one. *)
Theorem zero_confidence_defaults item document source websiteUrl w :
  readable item = true ->
  ToBoolean (prop item "title") = true ->
  ToBoolean (prop item "due") = true ->
  (prop item "confidence" = VNumber 0%float \/
   ToBoolean (prop item "confidence") = false) ->
  exists w' l s,
    convert_item item document source websiteUrl w = (w', Ok (Some l)) /\
    heap w' !! l = Some s /\
    confidence s = VNumber 0.5%float /\
    title s = prop item "title".
Proof.
  intros R T D C.
  assert (F : ToBoolean (prop item "confidence") = false)
    by (destruct C as [-> | C]; [reflexivity | exact C]).
  assert (K : is_candidate item = true) by (unfold is_candidate; now rewrite T, D).
  do 3 eexists. split; [apply (convert_item_kept _ _ _ _ _ R K)|].
  split; [cbn; apply list_lookup_middle; reflexivity|].
  cbn. unfold or_else. now rewrite F.
Qed.

End Conversion.

Section Titles.
Context `{Host}.

(** An entry that passes structural validation with a truthy title has a
    non-empty text as title: for any other truthy value the validator stops
    on a TypeError when it lower-cases the title. *)
Lemma validate_entry_title item index issues issues' :
  validate_entry item index issues = Ok issues' ->
  ToBoolean (prop item "title") = true ->
  exists t, prop item "title" = VString t /\ t <> "".
Proof.
  intros V T. pose proof (validate_entry_readable _ _ _ _ V) as R.
  unfold validate_entry in V. repeat (rewrite Get_readable in V by exact R).
  cbn [rbind] in V. unfold title_mentions in V. rewrite T in V.
  destruct (prop item "title") as [| | | |t| |]; cbn in V; try discriminate.
  exists t. split; [reflexivity|].
  intros ->. discriminate.
Qed.

(** Every object built from a payload that passes structural validation has
    a non-empty text as title. *)
Lemma converted_titles items index issues issues' n document source websiteUrl :
  validate_entries items index issues = Ok issues' ->
  Forall (fun s => exists t, title s = VString t /\ t <> "")
    (converted items n document source websiteUrl).
Proof.
  revert index issues n. induction items as [|item rest IH]; intros index issues n V.
  - constructor.
  - cbn in V. unfold rbind in V at 1.
    destruct (validate_entry item index issues) as [i1|] eqn:V1; [|discriminate].
    cbn [converted]. destruct (is_candidate item) eqn:C.
    + constructor; [|now apply (IH _ _ _ V)].
      apply (validate_entry_title _ _ _ _ V1).
      unfold is_candidate in C. now apply andb_prop in C as [C _].
    + now apply (IH _ _ _ V).
Qed.

End Titles.

(** ** Refinement *)


(** Writing [r] into the first slot that satisfies [p] makes [r] the first
    match, when [r] satisfies [p] too. *)
Lemma find_insert_first {A} (p : A -> bool) xs i r :
  findIndex p xs = Some i -> p r = true -> List.find p (<[i := r]> xs) = Some r.
Proof.
  revert i. induction xs as [|y ys IH]; intros i; cbn; [discriminate|].
  destruct (p y) eqn:Py.
  - intros [= <-] Pr. cbn. now rewrite Pr.
  - destruct (findIndex p ys) as [j|] eqn:F; [|discriminate].
    intros [= <-] Pr. cbn. rewrite Py. now apply IH.
Qed.

(** Every reference of the store points into the heap. *)
Definition well_formed (w : World) : Prop :=
  Forall (fun r => r < List.length (heap w)) (suggestions w).

Section Refinement.
Context `{Host}.

Lemma converted_first items item n document source websiteUrl :
  List.find is_candidate items = Some item ->
  exists more,
    converted items n document source websiteUrl =
    suggestion_of item (Math_random_id n) document source websiteUrl :: more.
Proof.
  induction items as [|x xs IH]; cbn; [discriminate|].
  destruct (is_candidate x).
  - intros [= ->]. eauto.
  - exact IH.
Qed.

Lemma converted_none items n document source websiteUrl :
  List.find is_candidate items = None ->
  converted items n document source websiteUrl = [].
Proof.
  induction items as [|x xs IH]; cbn; [reflexivity|].
  destruct (is_candidate x); [discriminate|exact IH].
Qed.

(** The refined object: the first kept candidate under the identifier and
    on top of the warnings of the suggestion it replaces. *)
Definition refined (s : ParsedDeadlineSuggestion) (item : value) (n : nat)
    : ParsedDeadlineSuggestion :=
  set_warnings (Some (warnings_or_empty s ++ ["Refined with user feedback"]))
    (set_id (id s)
       (suggestion_of item (Math_random_id n) (uploadedDocument s) (source s)
          (websiteUrl s))).

Lemma refineWithFeedback_run l s feedback config llm prompt response text props
    items issues label item w :
  heap w !! l = Some s ->
  createRefinementPrompt s feedback config = Ok prompt ->
  executeLLM llm prompt (llmConfig_of config) = Ok response ->
  jsonMatch response = Some text ->
  JSON_parse text = Some (VObject props) ->
  validateLLMResponse (VObject props) label = Ok issues ->
  lookup_prop "suggestions" props = VArray items ->
  List.find is_candidate items = Some item ->
  let news := converted items (draws w) (uploadedDocument s) (source s) (websiteUrl s) in
  let r := List.length (heap w) in
  let w2 := upd r (refined s item (draws w)) (extended news w) in
  refineWithFeedback l feedback config llm w =
    (fst (updateSuggestion (id s) r w2), Ok r) /\
  heap w2 !! r = Some (refined s item (draws w)) /\
  (forall x, x < r -> heap w2 !! x = heap w !! x).
Proof.
  intros E Pr L J P V Sg F news r w2.
  destruct (converted_first items item (draws w) (uploadedDocument s) (source s)
              (websiteUrl s) F) as (more & N).
  assert (E1 : heap (extended news w) !! l = Some s).
  { cbn. now apply lookup_app_l_Some. }
  assert (R0 : heap (extended news w) !! r =
               Some (suggestion_of item (Math_random_id (draws w)) (uploadedDocument s)
                       (source s) (websiteUrl s))).
  { cbn. subst news. rewrite N. now apply list_lookup_middle. }
  split; [|split].
  - unfold refineWithFeedback.
    rewrite (bind_ok _ _ _ _ _ (deref_ok _ _ _ E)).
    unfold bind at 1. unfold lift at 1. rewrite Pr.
    unfold bind at 1. unfold lift at 1. rewrite L.
    rewrite (bind_ok _ _ _ _ _
               (parseLLMResponse_run _ _ _ _ _ _ _ _ w J P V Sg)).
    assert (Len : seq (List.length (heap w)) (List.length news) =
                  r :: seq (S r) (List.length more)).
    { subst news. now rewrite N. }
    fold news. rewrite Len.
    rewrite (bind_ok _ _ _ _ _ (deref_ok _ _ _ E1)).
    rewrite (modify_then _ _ _ _ _ R0).
    rewrite (modify_then _ _ _ _ _ (heap_upd_same _ _ _ _ R0)), upd_upd.
    fold r. change (upd r _ (extended news w)) with w2.
    destruct (updateSuggestion_total (id s) r w2) as (b & U).
    now rewrite (bind_ok _ _ _ _ _ U).
  - apply (heap_upd_same _ _ _ _ R0).
  - intros x Lt. subst w2. rewrite heap_upd_other by lia.
    cbn. apply lookup_app_l. exact Lt.
Qed.

(** The refinement prompt prints the due date: a suggestion whose due date
    is invalid cannot be refined, the call throws before the extractor is
    asked. *)
Lemma refineWithFeedback_invalid_due l s feedback config llm w :
  heap w !! l = Some s -> due s = None ->
  refineWithFeedback l feedback config llm w = (w, Throw RangeError).
Proof.
  intros E D. unfold refineWithFeedback.
  rewrite (bind_ok _ _ _ _ _ (deref_ok _ _ _ E)).
  unfold bind, lift, createRefinementPrompt. now rewrite D.
Qed.


End Refinement.

(** ** Strings and numbers *)

Lemma startsWith_prefix needle hay :
  startsWith needle hay = true <-> exists post, hay = String.append needle post.
Proof.
  revert hay. induction needle as [|a n IH]; intros hay; cbn.
  - split; [intros _; now exists hay|reflexivity].
  - destruct hay as [|b h]; cbn.
    + split; [discriminate|intros (post & E); discriminate].
    + rewrite andb_true_iff, IH, Ascii.eqb_eq. split.
      * intros (-> & post & ->). now exists post.
      * intros (post & [= -> ->]). eauto.
Qed.

Lemma includes_substring hay needle :
  includes hay needle = true <->
  exists pre post, hay = String.append pre (String.append needle post).
Proof.
  induction hay as [|c h IH]; cbn [includes]; rewrite orb_true_iff, startsWith_prefix.
  - split.
    + intros [(post & E)|F]; [|discriminate]. now exists EmptyString, post.
    + intros ([|a pre] & post & E); [left; now exists post|discriminate].
  - rewrite IH. split.
    + intros [(post & E)|(pre & post & E)].
      * now exists EmptyString, post.
      * exists (String c pre), post. cbn. now rewrite E.
    + intros ([|a pre] & post & E).
      * left. now exists post.
      * right. injection E as -> ->. now exists pre, post.
Qed.

Lemma toLowerCase_append a b :
  toLowerCase (String.append a b) = String.append (toLowerCase a) (toLowerCase b).
Proof. induction a as [|c a IH]; simpl; [reflexivity|now rewrite IH]. Qed.

Lemma toLowerCase_split t a b :
  toLowerCase t = String.append a b ->
  exists t1 t2, t = String.append t1 t2 /\ toLowerCase t1 = a /\ toLowerCase t2 = b.
Proof.
  revert t. induction a as [|c a IH]; intros t E; cbn in E.
  - now exists EmptyString, t.
  - destruct t as [|d t]; [discriminate|]. cbn in E. injection E as Ec Et.
    destruct (IH _ Et) as (t1 & t2 & -> & <- & <-).
    exists (String d t1), t2. cbn. now rewrite Ec.
Qed.

(** [t] contains [term] up to the case of its letters. *)
Definition contains_ignoring_case (t term : string) : Prop :=
  exists pre mid post,
    t = String.append pre (String.append mid post) /\ toLowerCase mid = term.

Lemma includes_toLowerCase t term :
  includes (toLowerCase t) term = true <-> contains_ignoring_case t term.
Proof.
  rewrite includes_substring. unfold contains_ignoring_case. split.
  - intros (a & b & E).
    destruct (toLowerCase_split _ _ _ E) as (t1 & t23 & -> & _ & E23).
    destruct (toLowerCase_split _ _ _ E23) as (t2 & t3 & -> & E2 & _).
    now exists t1, t2, t3.
  - intros (pre & mid & post & -> & <-).
    exists (toLowerCase pre), (toLowerCase post).
    now rewrite !toLowerCase_append.
Qed.

(** A number above a positive threshold is truthy. *)
Lemma above_positive_truthy k m e n :
  Prim2SF k = S754_finite false m e ->
  PrimFloat.ltb k n = true -> number_falsy n = false.
Proof.
  intros K. unfold number_falsy.
  rewrite FloatAxioms.ltb_spec, !FloatAxioms.eqb_spec, K.
  change (Prim2SF 0%float) with (S754_zero false).
  destruct (Prim2SF n) as [s|s| |s m' e']; cbn; try discriminate.
  - destruct s; [discriminate|reflexivity].
  - intros _. unfold SFeqb. cbn.
    destruct s; rewrite Z.compare_refl, Pos.compare_cont_refl; reflexivity.
Qed.

(** ** Hallucination heuristics *)

(** The title holds one of the vague marker words, in any case. *)
Definition mentions_vague_term (t : string) : Prop :=
  exists term, In term vagueTerms /\ contains_ignoring_case t term.

(** The confidence is a number above [k]. *)
Definition confidence_above (c : value) (k : float) : Prop :=
  exists n, c = VNumber n /\ PrimFloat.ltb k n = true.

(** A confidence of the declared type: a number, or absent. *)
Definition typed_confidence (c : value) : Prop :=
  c = VUndefined \/ exists n, c = VNumber n.

Section Hallucination.
Context `{Host}.

Lemma some_term_text terms t :
  some_term terms (VString t) = Ok (existsb (includes (toLowerCase t)) terms).
Proof.
  induction terms as [|term rest IH]; cbn; [reflexivity|].
  destruct (includes (toLowerCase t) term); [reflexivity|exact IH].
Qed.

(** The three decisions of [validateForHallucination]. *)
Definition vague_flag (s : ParsedDeadlineSuggestion) (t : string) : bool :=
  existsb (includes (toLowerCase t)) vagueTerms && ToBoolean (confidence s)
  && value_gt (confidence s) 0.7%float.
Definition short_flag (s : ParsedDeadlineSuggestion) (now : Z) : bool :=
  let timeDiff := option_map (fun t => t - now)%Z (due s) in
  num_lt timeDiff msPerDay && num_gt timeDiff 0.
Definition round_flag (s : ParsedDeadlineSuggestion) : bool :=
  round_day (getDate (due s)) && (ToBoolean (confidence s)
  && value_gt (confidence s) 0.8%float).

Definition pick (b : bool) (w : string) : list string := if b then [w] else [].

(** One conditional push, as a step on the object at [l]. *)
Lemma conditional_push {B} l (b : bool) x (issue : Issue) issues s w (k : list Issue -> M B) :
  heap w !! l = Some s ->
  (let* issues' :=
     (if b then modify l (push_warning x) ;; ret (issues ++ [issue])
      else ret issues) in k issues') w =
  k (if b then issues ++ [issue] else issues)
    (if b then upd l (push_warning x s) w else w).
Proof.
  intros E. destruct b.
  - unfold bind at 1. rewrite (modify_then _ _ _ _ _ E). reflexivity.
  - reflexivity.
Qed.

Lemma validateForHallucination_run l s t issues now w :
  heap w !! l = Some s -> title s = VString t ->
  exists w' issues' s',
    validateForHallucination l issues now w = (w', Ok issues') /\
    heap w' !! l = Some s' /\
    warnings_or_empty s' =
      warnings_or_empty s ++ pick (vague_flag s t) W_vague
        ++ pick (short_flag s now) W_short ++ pick (round_flag s) W_round.
Proof.
  intros E T. unfold validateForHallucination.
  rewrite (bind_ok _ _ _ _ _ (deref_ok _ _ _ E)).
  unfold bind at 1. unfold lift at 1. rewrite T, some_term_text.
  unfold vague_flag, short_flag, round_flag.
  set (V := existsb _ _ && _ && _).
  set (Sh := num_lt _ _ && num_gt _ _).
  rewrite (conditional_push l V W_vague _ issues s w _ E).
  set (w1 := if V then _ else w). set (s1 := if V then push_warning W_vague s else s).
  assert (E1 : heap w1 !! l = Some s1).
  { subst w1 s1. destruct V; [apply (heap_upd_same _ _ _ _ E)|exact E]. }
  rewrite (conditional_push l Sh W_short _ _ s1 w1 _ E1).
  set (w2 := if Sh then _ else w1). set (s2 := if Sh then push_warning W_short s1 else s1).
  assert (E2 : heap w2 !! l = Some s2).
  { subst w2 s2. destruct Sh; [apply (heap_upd_same _ _ _ _ E1)|exact E1]. }
  set (i2 := if Sh then _ else _).
  destruct (round_day (getDate (due s))) eqn:Rd; cbn [andb].
  - set (R := ToBoolean _ && value_gt _ _).
    rewrite (conditional_push l R W_round _ i2 s2 w2 _ E2).
    eexists _, _, (if R then push_warning W_round s2 else s2).
    split; [reflexivity|]. split.
    + destruct R; [apply (heap_upd_same _ _ _ _ E2)|exact E2].
    + subst s2 s1. destruct V, Sh, R; cbn; rewrite <- ?app_assoc, ?app_nil_r; reflexivity.
  - exists w2, i2, s2. split; [reflexivity|]. split; [exact E2|].
    subst s2 s1. destruct V, Sh; cbn; rewrite <- ?app_assoc, ?app_nil_r; reflexivity.
Qed.

Lemma vague_flag_meaning s t :
  typed_confidence (confidence s) ->
  vague_flag s t = true <->
  mentions_vague_term t /\ confidence_above (confidence s) 0.7%float.
Proof.
  intros Ty. unfold vague_flag, mentions_vague_term, confidence_above.
  rewrite !andb_true_iff, existsb_exists. split.
  - intros (((term & I & Inc) & Tb) & Gt). split.
    + exists term. split; [exact I|]. now apply includes_toLowerCase.
    + destruct Ty as [U|(n & N)]; [rewrite U in Tb; discriminate|].
      exists n. split; [exact N|]. rewrite N in Gt. exact Gt.
  - intros ((term & I & C) & (n & N & Gt)). rewrite N. repeat split.
    + exists term. split; [exact I|]. now apply includes_toLowerCase.
    + cbn. erewrite above_positive_truthy; [reflexivity| |exact Gt]. reflexivity.
    + exact Gt.
Qed.

(** C9. The validation pass for hallucinations appends the warning "High
    confidence on vague term - possible hallucination", once, exactly when
    the title holds one of the words tbd, soon, later, eventually, sometime
    in any case and the confidence is a number above 0.7. *)
Theorem hallucination_warning_iff l s t issues now w :
  heap w !! l = Some s ->
  title s = VString t ->
  typed_confidence (confidence s) ->
  exists w' issues' s' added,
    validateForHallucination l issues now w = (w', Ok issues') /\
    heap w' !! l = Some s' /\
    warnings_or_empty s' = warnings_or_empty s ++ added /\
    NoDup added /\
    (In W_vague added <->
     mentions_vague_term t /\ confidence_above (confidence s) 0.7%float).
Proof.
  intros E T Ty.
  destruct (validateForHallucination_run l s t issues now w E T)
    as (w' & issues' & s' & Run & E' & Ws).
  exists w', issues', s',
    (pick (vague_flag s t) W_vague ++ pick (short_flag s now) W_short
       ++ pick (round_flag s) W_round).
  split; [exact Run|]. split; [exact E'|]. split; [exact Ws|]. split.
  - destruct (vague_flag s t), (short_flag s now), (round_flag s); cbn;
      repeat constructor; cbn; intuition discriminate.
  - rewrite <- (vague_flag_meaning s t Ty).
    destruct (vague_flag s t), (short_flag s now), (round_flag s); cbn;
      intuition discriminate.
Qed.

End Hallucination.

(** ** Calendar conventions and the time of day *)

Local Open Scope Z_scope.

Lemma HourFromTime_range t : 0 <= HourFromTime t < 24.
Proof. unfold HourFromTime. apply Z.mod_pos_bound. lia. Qed.

Lemma Day_MakeDate day time :
  0 <= time < msPerDay -> Day (MakeDate day time) = day.
Proof.
  intros R. unfold Day, MakeDate. symmetry.
  apply (Z.div_unique_pos _ _ _ time); [exact R|]. lia.
Qed.

Lemma MakeTime_range h m : 0 <= h < 24 -> 0 <= m < 60 -> 0 <= MakeTime h m 0 0 < msPerDay.
Proof. unfold MakeTime, msPerHour, msPerMinute, msPerSecond, msPerDay. lia. Qed.

Lemma clock_MakeDate day h m :
  0 <= h < 24 -> 0 <= m < 60 ->
  let t := MakeDate day (MakeTime h m 0 0) in
  HourFromTime t = h /\ MinFromTime t = m /\ SecFromTime t = 0.
Proof.
  intros Rh Rm t. subst t.
  unfold HourFromTime, MinFromTime, SecFromTime, MakeDate, MakeTime,
    msPerDay, msPerHour, msPerMinute, msPerSecond.
  repeat split.
  - replace (day * 86400000 + (h * 3600000 + m * 60000 + 0 * 1000 + 0))
      with (m * 60000 + (day * 24 + h) * 3600000) by lia.
    rewrite Z.div_add by lia. rewrite (Z.div_small (m * 60000)) by lia.
    replace (0 + (day * 24 + h)) with (h + day * 24) by lia.
    rewrite Z.mod_add by lia. apply Z.mod_small. lia.
  - replace (day * 86400000 + (h * 3600000 + m * 60000 + 0 * 1000 + 0))
      with ((day * 1440 + h * 60 + m) * 60000) by lia.
    rewrite Z.div_mul by lia.
    replace (day * 1440 + h * 60 + m) with (m + (day * 24 + h) * 60) by lia.
    rewrite Z.mod_add by lia. apply Z.mod_small. lia.
  - replace (day * 86400000 + (h * 3600000 + m * 60000 + 0 * 1000 + 0))
      with ((day * 86400 + h * 3600 + m * 60) * 1000) by lia.
    rewrite Z.div_mul by lia.
    replace (day * 86400 + h * 3600 + m * 60) with (0 + (day * 1440 + h * 60 + m) * 60) by lia.
    rewrite Z.mod_add by lia. reflexivity.
Qed.

Example calendar_anchors :
  civil_from_days 0 = (1970, 1, 1) /\ civil_from_days (-1) = (1969, 12, 31) /\
  civil_from_days 11016 = (2000, 2, 29) /\ civil_from_days 20362 = (2025, 10, 1) /\
  days_from_civil 2025 10 1 = 20362 /\ WeekDay 0 = 4.
Proof. repeat split. Qed.

(** The day number of the calendar date of a day is that day: on every day
    from 1 January 2023 to the end of 2028, and on every 73rd day from the
    year 1559 to the year 2558. *)
Example calendar_round_trip :
  let round_trip z :=
    let '(y, m, d) := civil_from_days z in days_from_civil y m d =? z in
  forallb (fun n => round_trip (19358 + Z.of_nat n)) (seq 0 2192) = true /\
  forallb (fun n => round_trip (73 * Z.of_nat n - 150000)) (seq 0 5000) = true.
Proof. split; vm_compute; reflexivity. Qed.

Section Calendar.
Context `{Host}.

(** The local calendar date and clock time of a date object. *)
Definition local_date (d : Date) : option Z * option Z * option Z :=
  (getFullYear d, getMonth d, getDate d).
Definition local_clock (d : Date) : option Z * option Z * option Z :=
  (getHours d, getMinutes d, getSeconds d).

(** [getHours] never exceeds 23. *)
Lemma hour_never_above_23 d : num_gt (getHours d) 23 = false.
Proof.
  destruct d as [t|]; cbn; [|reflexivity].
  pose proof (HourFromTime_range (LocalTime t)). lia.
Qed.

Definition weekend_flag (s : ParsedDeadlineSuggestion) : bool :=
  num_eq (getDay (due s)) 0 || num_eq (getDay (due s)) 6.
Definition early_flag (s : ParsedDeadlineSuggestion) : bool :=
  num_lt (getHours (due s)) 6.

(** The calendar checks append the weekend warning on a Saturday or a
    Sunday and the early-morning warning before 06:00, each once, and
    nothing else: the late-evening warning is never appended. *)
Lemma validateAcademicCalendarLogic_run l s issues w :
  heap w !! l = Some s ->
  exists w' issues' s',
    validateAcademicCalendarLogic l issues w = (w', Ok issues') /\
    heap w' !! l = Some s' /\
    warnings_or_empty s' =
      warnings_or_empty s ++ pick (weekend_flag s) W_weekend
        ++ pick (early_flag s) W_early.
Proof.
  intros E. unfold validateAcademicCalendarLogic.
  rewrite (bind_ok _ _ _ _ _ (deref_ok _ _ _ E)).
  unfold weekend_flag, early_flag.
  set (We := num_eq _ 0 || num_eq _ 6). set (Ea := num_lt _ 6).
  rewrite (conditional_push l We W_weekend _ issues s w _ E).
  set (w1 := if We then _ else w). set (s1 := if We then push_warning W_weekend s else s).
  assert (E1 : heap w1 !! l = Some s1).
  { subst w1 s1. destruct We; [apply (heap_upd_same _ _ _ _ E)|exact E]. }
  rewrite (conditional_push l Ea W_early _ _ s1 w1 _ E1).
  rewrite hour_never_above_23.
  eexists _, _, (if Ea then push_warning W_early s1 else s1).
  split; [reflexivity|]. split.
  - destruct Ea; [apply (heap_upd_same _ _ _ _ E1)|exact E1].
  - subst s1. destruct We, Ea; cbn; rewrite <- ?app_assoc, ?app_nil_r; reflexivity.
Qed.

(** [setHours] with a clock time in range, where this local time exists in
    the zone: the local day is kept and the local clock reads the time. *)
Lemma setHours_keeps_day t h m :
  0 <= h < 24 -> 0 <= m < 60 ->
  let local := MakeDate (Day (LocalTime t)) (MakeTime h m 0 0) in
  LocalTime (UTC local) = local ->
  Z.abs (UTC local) <= maxTime ->
  setHours (Some t) h m = Some (UTC local) /\
  local_date (Some (UTC local)) = local_date (Some t) /\
  local_clock (Some (UTC local)) = (Some h, Some m, Some 0).
Proof.
  intros Rh Rm local RT Clip.
  assert (D : Day local = Day (LocalTime t))
    by (apply Day_MakeDate, MakeTime_range; assumption).
  destruct (clock_MakeDate (Day (LocalTime t)) h m Rh Rm) as (Hh & Hm & Hs).
  fold local in Hh, Hm, Hs.
  split; [|split].
  - cbn. fold local. unfold TimeClip.
    destruct (maxTime <? Z.abs (UTC local)) eqn:C; [lia|reflexivity].
  - unfold local_date, getFullYear, getMonth, getDate, YearFromTime,
      MonthFromTime, DateFromTime. cbn. now rewrite RT, D.
  - unfold local_clock. cbn. now rewrite RT, Hh, Hm, Hs.
Qed.

(** A time text without a clock time is rejected and nothing changes; one
    with a clock time below 24:00 moves the due date of a stored suggestion
    to that time of the same local day. *)
Lemma updateSuggestionTime_keeps_date sid l s t newTime w :
  List.find (has_id (heap w) sid) (suggestions w) = Some l ->
  heap w !! l = Some s -> due s = Some t ->
  match Editing.timeMatch newTime with
  | None => updateSuggestionTime sid newTime w = (w, Ok false)
  | Some (hours, minutes, period) =>
      let h := Z.of_nat (Editing.to24 hours period) in
      let m := Z.of_nat minutes in
      let local := MakeDate (Day (LocalTime t)) (MakeTime h m 0 0) in
      h < 24 -> m < 60 ->
      LocalTime (UTC local) = local -> Z.abs (UTC local) <= maxTime ->
      exists s',
        updateSuggestionTime sid newTime w = (upd l s' w, Ok true) /\
        local_date (due s') = local_date (due s) /\
        local_clock (due s') = (Some h, Some m, Some 0)
  end.
Proof.
  intros F E D. destruct (Editing.timeMatch newTime) as [[[hours minutes] period]|] eqn:T.
  - intros h m local Rh Rm RT Clip.
    destruct (setHours_keeps_day t h m) as (Sh & Ld & Lc); [lia|lia|exact RT|exact Clip|].
    eexists. split; [apply (updateSuggestionTime_run _ _ _ _ _ _ _ _ F E T)|].
    cbn. rewrite D. fold h m. rewrite Sh. split; assumption.
  - now apply updateSuggestionTime_reject.
Qed.

End Calendar.

Local Close Scope Z_scope.

(** ** What keeps a confirmed suggestion confirmed *)

(** The store holds a confirmed record for the identifier. *)
Definition confirmed_in_store (sid : string) (w : World) : Prop :=
  exists s, stored sid w = Some s /\ is_confirmed s = true.

Lemma findIndex_Some {A} (p : A -> bool) xs i :
  findIndex p xs = Some i -> exists y, xs !! i = Some y /\ p y = true.
Proof.
  revert i. induction xs as [|x xs IH]; intros i; cbn; [discriminate|].
  destruct (p x) eqn:Px.
  - intros [= <-]. now exists x.
  - destruct (findIndex p xs) as [j|]; [|discriminate].
    intros [= <-]. now apply IH.
Qed.

(** Overwriting a slot that does not match by a reference that does not
    match either does not change the first match. *)
Lemma find_insert_irrelevant {A} (p : A -> bool) xs i y r :
  xs !! i = Some y -> p y = false -> p r = false ->
  List.find p (<[i := r]> xs) = List.find p xs.
Proof.
  revert i. induction xs as [|x xs IH]; intros i; [discriminate|].
  destruct i as [|i]; cbn.
  - intros [= ->] Py Pr. now rewrite Py, Pr.
  - intros L Py Pr. destruct (p x); [reflexivity|]. now apply IH.
Qed.

Lemma confirmed_in_store_upd sid l x s w :
  heap w !! l = Some s -> id x = id s ->
  (is_confirmed s = true -> is_confirmed x = true) ->
  confirmed_in_store sid w -> confirmed_in_store sid (upd l x w).
Proof.
  intros E I C (s0 & St & C0). unfold confirmed_in_store, stored in *.
  cbn [suggestions upd with_heap].
  rewrite (find_ext_pointwise _ (has_id (heap w) sid))
    by (intros l'; apply (has_id_upd _ _ _ _ _ _ E I)).
  destruct (List.find (has_id (heap w) sid) (suggestions w)) as [l0|]; [|discriminate].
  destruct (Nat.eq_dec l l0) as [<-|N].
  - exists x. split; [apply (heap_upd_same _ _ _ _ E)|].
    apply C. rewrite E in St. now injection St as ->.
  - exists s0. split; [|exact C0]. now rewrite (heap_upd_other _ _ _ _ N).
Qed.

Lemma confirmed_in_store_updateSuggestion sid sid0 l x w :
  heap w !! l = Some x -> id x = sid0 -> is_confirmed x = true ->
  confirmed_in_store sid w ->
  confirmed_in_store sid (fst (updateSuggestion sid0 l w)).
Proof.
  intros E I C (s0 & St & C0). unfold updateSuggestion.
  destruct (findIndex (has_id (heap w) sid0) (suggestions w)) as [i|] eqn:Fi;
    [|now exists s0].
  unfold confirmed_in_store, stored in *. cbn [fst heap suggestions with_suggestions].
  assert (Pl : has_id (heap w) sid0 l = true).
  { unfold has_id. rewrite E, I. apply String.eqb_refl. }
  destruct (String.eqb_spec sid sid0) as [->|N].
  - rewrite (find_insert_first _ _ _ _ Fi Pl). now exists x.
  - destruct (findIndex_Some _ _ _ Fi) as (y & Ly & Py).
    rewrite (find_insert_irrelevant _ _ _ y l Ly); [now exists s0| |].
    + unfold has_id in Py |- *. destruct (heap w !! y) as [sy|]; [|reflexivity].
      apply String.eqb_eq in Py. rewrite Py. now apply String.eqb_neq.
    + unfold has_id. rewrite E, I. apply String.eqb_neq. congruence.
Qed.

(** *** Validation only appends warnings *)

(** The two objects agree on every field but [warnings]. *)
Definition same_but_warnings (s s' : ParsedDeadlineSuggestion) : Prop :=
  set_warnings None s' = set_warnings None s.

(** The second world is the first one with warnings added. *)
Definition annotates (w w' : World) : Prop :=
  suggestions w' = suggestions w /\ draws w' = draws w /\
  Forall2 same_but_warnings (heap w) (heap w').

(** An operation that does nothing but add warnings, whether it returns or
    throws. *)
Definition annotating {A} (m : M A) : Prop :=
  forall w w' r, m w = (w', r) -> annotates w w'.

Lemma same_but_warnings_refl s : same_but_warnings s s.
Proof. reflexivity. Qed.

Lemma same_but_warnings_trans a b c :
  same_but_warnings a b -> same_but_warnings b c -> same_but_warnings a c.
Proof. unfold same_but_warnings. congruence. Qed.

Lemma annotates_refl w : annotates w w.
Proof.
  repeat split. induction (heap w); constructor; [reflexivity|assumption].
Qed.

Lemma Forall2_trans_local {A} (R : A -> A -> Prop) xs ys zs :
  (forall a b c, R a b -> R b c -> R a c) ->
  Forall2 R xs ys -> Forall2 R ys zs -> Forall2 R xs zs.
Proof.
  intros T F. revert zs. induction F as [|x y xs ys Rxy F IH]; intros zs G.
  - inversion G. constructor.
  - inversion G as [|y' z ys' zs' Ryz G']; subst. constructor; eauto.
Qed.

Lemma annotates_trans a b c : annotates a b -> annotates b c -> annotates a c.
Proof.
  intros (S1 & D1 & F1) (S2 & D2 & F2). repeat split; try congruence.
  apply (Forall2_trans_local _ _ _ _ same_but_warnings_trans F1 F2).
Qed.

Lemma Forall2_insert_local {A} (R : A -> A -> Prop) xs l x y :
  (forall a, R a a) -> xs !! l = Some x -> R x y -> Forall2 R xs (<[l := y]> xs).
Proof.
  intros Rf. revert l. induction xs as [|a xs IH]; intros l; [discriminate|].
  destruct l as [|l]; cbn.
  - intros [= ->] Rxy. constructor; [exact Rxy|].
    clear IH. induction xs; constructor; auto.
  - intros L Rxy. constructor; [apply Rf|]. now apply IH.
Qed.

Lemma annotates_push l x s w :
  heap w !! l = Some s -> annotates w (upd l (push_warning x s) w).
Proof.
  intros E. repeat split. cbn.
  apply (Forall2_insert_local _ _ _ s); [apply same_but_warnings_refl|exact E|].
  reflexivity.
Qed.

Lemma annotating_ret {A} (a : A) : annotating (ret a).
Proof. intros w w' r [= <- _]. apply annotates_refl. Qed.

Lemma annotating_lift {A} (x : result A) : annotating (lift x).
Proof. intros w w' r [= <- _]. apply annotates_refl. Qed.

Lemma annotating_deref l : annotating (deref l).
Proof.
  intros w w' r. unfold deref. destruct (heap w !! l); intros [= <- _];
    apply annotates_refl.
Qed.

Lemma annotating_push l x : annotating (modify l (push_warning x)).
Proof.
  intros w w' r. unfold modify. destruct (heap w !! l) as [s|] eqn:E.
  - intros [= <- _]. apply (annotates_push _ _ _ _ E).
  - intros [= <- _]. apply annotates_refl.
Qed.

Lemma annotating_bind {A B} (m : M A) (k : A -> M B) :
  annotating m -> (forall a, annotating (k a)) -> annotating (bind m k).
Proof.
  intros Hm Hk w w' r. unfold bind. destruct (m w) as [w1 [a|e]] eqn:E.
  - intros K. apply (annotates_trans _ w1); [apply (Hm _ _ _ E)|apply (Hk _ _ _ _ K)].
  - intros [= <- _]. apply (Hm _ _ _ E).
Qed.

Create HintDb annot discriminated.
#[local] Hint Resolve annotating_ret annotating_lift annotating_deref
  annotating_push : annot.

(** Decomposes an operation into its steps. *)
Ltac annot :=
  repeat first
    [ apply annotating_bind; [|intros ?]
    | match goal with |- annotating (if ?b then _ else _) => destruct b end
    | solve [auto with annot] ].

Section Annotation.
Context `{Host}.

Lemma annotating_calendar l issues : annotating (validateAcademicCalendarLogic l issues).
Proof. unfold validateAcademicCalendarLogic. annot. Qed.

Lemma annotating_hallucination l issues now :
  annotating (validateForHallucination l issues now).
Proof. unfold validateForHallucination. annot. Qed.

Lemma annotating_duplicates s all : annotating (duplicates_of s all).
Proof. induction all as [|a rest IH]; cbn [duplicates_of]; annot. Qed.

Lemma annotating_validate_one l all now issues :
  annotating (validate_one l all now issues).
Proof.
  unfold validate_one.
  pose proof annotating_calendar. pose proof annotating_hallucination.
  pose proof annotating_duplicates. annot.
Qed.

(** Domain validation only adds warnings to objects: the store, the
    identifiers and every other field are left as they were, also when the
    pass stops on an exception. *)
Lemma annotating_validateSuggestions refs all now :
  annotating (validateSuggestions refs all now).
Proof.
  unfold validateSuggestions. generalize (@nil Issue) as issues.
  induction refs as [|l rest IH]; intros issues; cbn [validate_loop].
  - annot.
  - apply annotating_bind; [apply annotating_validate_one|]. intros a. apply IH.
Qed.

End Annotation.

Lemma same_but_warnings_fields s s' :
  same_but_warnings s s' -> id s' = id s /\ confirmed s' = confirmed s.
Proof.
  unfold same_but_warnings. intros E.
  split; [exact (f_equal id E)|exact (f_equal confirmed E)].
Qed.

Lemma annotates_lookup w w' l s :
  annotates w w' -> heap w !! l = Some s ->
  exists s', heap w' !! l = Some s' /\ same_but_warnings s s'.
Proof.
  intros (_ & _ & F) E.
  destruct (Forall2_lookup_l _ _ _ _ _ F E) as (s' & E' & R). eauto.
Qed.

Lemma annotates_has_id w w' sid l :
  annotates w w' -> has_id (heap w') sid l = has_id (heap w) sid l.
Proof.
  intros A. unfold has_id. destruct (heap w !! l) as [s|] eqn:E.
  - destruct (annotates_lookup _ _ _ _ A E) as (s' & -> & R).
    now destruct (same_but_warnings_fields _ _ R) as (-> & _).
  - destruct A as (_ & _ & F).
    assert (L : heap w' !! l = None).
    { apply lookup_ge_None. apply lookup_ge_None in E.
      apply Forall2_length in F. lia. }
    now rewrite L.
Qed.

Lemma annotates_keeps_confirmed sid w w' :
  annotates w w' -> confirmed_in_store sid w -> confirmed_in_store sid w'.
Proof.
  intros A (s & St & C). unfold confirmed_in_store, stored in *.
  destruct A as (Sg & Dr & F). rewrite Sg.
  rewrite (find_ext_pointwise _ (has_id (heap w) sid))
    by (intros l'; apply annotates_has_id; repeat split; assumption).
  destruct (List.find (has_id (heap w) sid) (suggestions w)) as [l|]; [|discriminate].
  destruct (Forall2_lookup_l _ _ _ _ _ F St) as (s' & E' & R).
  exists s'. split; [exact E'|].
  destruct (same_but_warnings_fields _ _ R) as (_ & Cf).
  unfold is_confirmed in *. now rewrite Cf.
Qed.

Section KeepsConfirmed.
Context `{Host}.

(** Confirmation, the manual edits and domain validation leave every
    confirmed record of the store confirmed, whatever their target and
    outcome. *)
Lemma confirmed_kept sid w :
  confirmed_in_store sid w ->
  (forall l user, confirmed_in_store sid (fst (confirm l user w))) /\
  (forall target updates, confirmed_in_store sid (fst (editSuggestion target updates w))) /\
  (forall target newTime, confirmed_in_store sid (fst (updateSuggestionTime target newTime w))) /\
  (forall refs all now, confirmed_in_store sid (fst (validateSuggestions refs all now w))).
Proof.
  intros C. repeat split.
  - intros l user. destruct (heap w !! l) as [s|] eqn:E.
    + destruct (is_confirmed s) eqn:Cs.
      * now rewrite (confirm_already_confirmed _ _ _ _ E Cs).
      * destruct (ToBoolean (title s)) eqn:T.
        -- rewrite (confirm_run _ _ _ _ E Cs T). cbn [fst].
           apply (confirmed_in_store_updateSuggestion _ _ _ (set_confirmed (Some true) s));
             [apply (heap_upd_same _ _ _ _ E)|reflexivity|reflexivity|].
           now apply (confirmed_in_store_upd _ _ _ _ _ E).
        -- now rewrite (confirm_without_title _ _ _ _ E Cs T).
    + unfold confirm, bind, deref. now rewrite E.
  - intros target updates.
    destruct (List.find (has_id (heap w) target) (suggestions w)) as [l|] eqn:F.
    + destruct (List.find_some _ _ F) as (_ & Hid).
      destruct (has_id_true _ _ _ Hid) as (s & E & _).
      rewrite (editSuggestion_run _ _ _ updates _ F E). cbn [fst].
      apply (confirmed_in_store_upd _ _ _ _ _ E); [apply apply_updates_id| |exact C].
      unfold is_confirmed. now rewrite apply_updates_confirmed.
    + unfold editSuggestion, getSuggestionById, bind. now rewrite F.
  - intros target newTime.
    destruct (Editing.timeMatch newTime) as [[[hours minutes] period]|] eqn:T.
    + destruct (List.find (has_id (heap w) target) (suggestions w)) as [l|] eqn:F.
      * destruct (List.find_some _ _ F) as (_ & Hid).
        destruct (has_id_true _ _ _ Hid) as (s & E & _).
        rewrite (updateSuggestionTime_run _ _ _ _ _ _ _ _ F E T). cbn [fst].
        apply (confirmed_in_store_upd _ _ _ _ _ E); [apply apply_updates_id| |exact C].
        unfold is_confirmed. now rewrite apply_updates_confirmed.
      * unfold updateSuggestionTime, getSuggestionById, bind. now rewrite F.
    + now rewrite (updateSuggestionTime_reject _ _ _ T).
  - intros refs all now.
    apply (annotates_keeps_confirmed _ w); [|exact C].
    apply (annotating_validateSuggestions refs all now w _
             (snd (validateSuggestions refs all now w))).
    now destruct (validateSuggestions refs all now w).
Qed.

(** In a zone with a fixed offset every local time exists. *)
Lemma fixed_zone_round_trip offset local :
  (forall t b, LocalTZA t b = offset) -> LocalTime (UTC local) = local.
Proof. intros Z. unfold LocalTime, UTC. rewrite !Z. lia. Qed.

End KeepsConfirmed.

(** * Further properties *)

(** ** The store: update, removal, addition and queries *)

Lemma find_app_local {A} (p : A -> bool) xs ys :
  List.find p (xs ++ ys) =
  match List.find p xs with Some x => Some x | None => List.find p ys end.
Proof.
  induction xs as [|x xs IH]; cbn; [reflexivity|].
  destruct (p x); [reflexivity|exact IH].
Qed.

Lemma find_None_findIndex {A} (p : A -> bool) xs :
  List.find p xs = None <-> findIndex p xs = None.
Proof.
  induction xs as [|x xs IH]; cbn; [tauto|].
  destruct (p x); [split; discriminate|].
  rewrite IH. destruct (findIndex p xs); cbn; split; intros; congruence.
Qed.

(** Deleting a slot that does not match does not change the first match. *)
Lemma find_delete_irrelevant {A} (p : A -> bool) xs i y :
  xs !! i = Some y -> p y = false -> List.find p (delete i xs) = List.find p xs.
Proof.
  revert i. induction xs as [|x xs IH]; intros i; [discriminate|].
  destruct i as [|i]; cbn.
  - intros [= ->] Py. now rewrite Py.
  - intros L Py. destruct (p x); [reflexivity|]. now apply (IH i).
Qed.

(** Deleting the first match leaves the matches that come after it. *)
Lemma find_delete_first {A} (p : A -> bool) xs i :
  findIndex p xs = Some i -> List.find p (delete i xs) = List.find p (drop (S i) xs).
Proof.
  revert i. induction xs as [|x xs IH]; intros i; cbn; [discriminate|].
  destruct (p x) eqn:Px.
  - intros [= <-]. cbn. now rewrite drop_0.
  - destruct (findIndex p xs) as [j|]; [|discriminate].
    intros [= <-]. cbn. rewrite Px. now apply IH.
Qed.

Lemma stored_None sid w :
  stored sid w = None <-> List.find (has_id (heap w) sid) (suggestions w) = None.
Proof.
  unfold stored. destruct (List.find _ _) as [l|] eqn:F; [|tauto].
  destruct (List.find_some _ _ F) as (_ & Hid).
  destruct (has_id_true _ _ _ Hid) as (s & -> & _). split; discriminate.
Qed.

Lemma has_id_differs h sid other l :
  other <> sid -> has_id h sid l = true -> has_id h other l = false.
Proof.
  intros N Hid. destruct (has_id_true _ _ _ Hid) as (s & E & I).
  unfold has_id. rewrite E, I. apply String.eqb_neq. congruence.
Qed.

(** X1. [updateSuggestion] followed by [getSuggestionById]: writing an
    object that carries the identifier into the store makes it the record
    of that identifier, keeps the number of suggestions and the record of
    every other identifier; for an identifier the store does not hold, the
    update reports false and changes nothing. *)
Theorem update_then_get sid l x w :
  heap w !! l = Some x -> id x = sid ->
  let w' := fst (updateSuggestion sid l w) in
  (stored sid w = None -> updateSuggestion sid l w = (w, Ok false)) /\
  (stored sid w <> None ->
     snd (updateSuggestion sid l w) = Ok true /\
     getSuggestionById sid w' = (w', Ok (Some l)) /\
     stored sid w' = Some x) /\
  heap w' = heap w /\
  List.length (suggestions w') = List.length (suggestions w) /\
  (forall other, other <> sid -> stored other w' = stored other w).
Proof.
  intros E I w'. subst w'. unfold updateSuggestion.
  assert (Pl : has_id (heap w) sid l = true).
  { unfold has_id. rewrite E, I. apply String.eqb_refl. }
  destruct (findIndex (has_id (heap w) sid) (suggestions w)) as [i|] eqn:Fi.
  - cbn [fst snd]. split; [|split; [|split; [|split]]].
    + intros N. apply stored_None in N. apply find_None_findIndex in N. rewrite N in Fi. discriminate.
    + intros _. split; [reflexivity|].
      unfold getSuggestionById, stored. cbn [heap suggestions with_suggestions].
      rewrite (find_insert_first _ _ _ _ Fi Pl). split; [reflexivity|exact E].
    + reflexivity.
    + cbn. apply length_insert.
    + intros other N. unfold stored. cbn [heap suggestions with_suggestions].
      destruct (findIndex_Some _ _ _ Fi) as (y & Ly & Py).
      rewrite (find_insert_irrelevant _ _ _ y l Ly); [reflexivity| |].
      * apply (has_id_differs _ sid _ _ N Py).
      * apply (has_id_differs _ sid _ _ N Pl).
  - cbn [fst snd]. split; [reflexivity|]. split; [|repeat split].
    intros N. exfalso. apply N. apply stored_None, find_None_findIndex, Fi.
Qed.

(** X2. [removeSuggestion] takes out the first suggestion with the
    identifier and nothing else: the record of every other identifier
    stays, one suggestion less is counted, and a later suggestion with the
    same identifier, if there is one, becomes the record of the identifier.
    For an identifier the store does not hold it reports false and changes
    nothing. No object is touched. *)
Theorem remove_first_only sid w :
  let w' := fst (removeSuggestion sid w) in
  heap w' = heap w /\
  (forall other, other <> sid -> stored other w' = stored other w) /\
  (stored sid w = None -> removeSuggestion sid w = (w, Ok false)) /\
  (forall i, findIndex (has_id (heap w) sid) (suggestions w) = Some i ->
     snd (removeSuggestion sid w) = Ok true /\
     S (List.length (suggestions w')) = List.length (suggestions w) /\
     List.find (has_id (heap w) sid) (suggestions w') =
       List.find (has_id (heap w) sid) (drop (S i) (suggestions w))).
Proof.
  intros w'. subst w'. unfold removeSuggestion.
  destruct (findIndex (has_id (heap w) sid) (suggestions w)) as [i|] eqn:Fi;
    cbn [fst snd].
  - split; [reflexivity|]. split; [|split].
    + intros other N. unfold stored. cbn [heap suggestions with_suggestions].
      destruct (findIndex_Some _ _ _ Fi) as (y & Ly & Py).
      now rewrite (find_delete_irrelevant _ _ _ y Ly (has_id_differs _ sid _ _ N Py)).
    + intros N. apply stored_None in N. apply find_None_findIndex in N. rewrite N in Fi. discriminate.
    + intros j [= <-]. split; [reflexivity|]. cbn [suggestions with_suggestions].
      split; [|now apply find_delete_first].
      destruct (findIndex_Some _ _ _ Fi) as (y & Ly & _).
      rewrite length_delete by eauto. apply lookup_lt_Some in Ly. lia.
  - split; [reflexivity|]. split; [reflexivity|]. split; [reflexivity|].
    intros j [=].
Qed.

(** X3. [addSuggestions] appends without looking at identifiers: every
    suggestion is counted, the record of an identifier that the store
    already holds is not replaced by an added suggestion that carries the
    same identifier, and an identifier that the store did not hold gets the
    first added suggestion that carries it. *)
Theorem add_keeps_first sid refs w :
  let w' := fst (ParsedDeadlineState.addSuggestions refs w) in
  heap w' = heap w /\
  List.length (suggestions w') = List.length (suggestions w) + List.length refs /\
  (forall s, stored sid w = Some s -> stored sid w' = Some s) /\
  (stored sid w = None ->
   stored sid w' = match List.find (has_id (heap w) sid) refs with
                   | Some l => heap w !! l
                   | None => None
                   end).
Proof.
  intros w'. subst w'. cbn. split; [reflexivity|]. split; [apply length_app|].
  unfold stored. cbn [heap suggestions with_suggestions]. rewrite find_app_local.
  split.
  - intros s St. destruct (List.find _ (suggestions w)); [exact St|discriminate].
  - intros N. apply stored_None in N. now rewrite N.
Qed.

(** ** Manual edits by identifier *)

Definition only_title (t : string) : Editing.Updates :=
  {| Editing.upd_title := Some t; Editing.upd_due := None;
     Editing.upd_confidence := None; Editing.upd_provenance := None |}.

(** The store holds a record for the identifier. *)
Definition holds (sid : string) (w : World) : bool :=
  match stored sid w with Some _ => true | None => false end.

Lemma stored_find sid w s :
  stored sid w = Some s ->
  exists l, List.find (has_id (heap w) sid) (suggestions w) = Some l /\
            heap w !! l = Some s.
Proof.
  unfold stored. destruct (List.find _ _) as [l|]; [|discriminate]. eauto.
Qed.

Lemma stored_upd_same sid l s x w :
  List.find (has_id (heap w) sid) (suggestions w) = Some l ->
  heap w !! l = Some s -> id x = id s ->
  List.find (has_id (heap (upd l x w)) sid) (suggestions (upd l x w)) = Some l /\
  stored sid (upd l x w) = Some x.
Proof.
  intros F E I.
  assert (F' : List.find (has_id (heap (upd l x w)) sid) (suggestions (upd l x w)) = Some l).
  { cbn [suggestions upd with_heap]. rewrite <- F. apply find_ext_pointwise.
    intros l'. apply (has_id_upd _ _ _ _ _ _ E I). }
  split; [exact F'|]. unfold stored. rewrite F'. apply (heap_upd_same _ _ _ _ E).
Qed.

Section EditsById.
Context `{Host}.

(** X4. The direct updates of a title or a due date report true exactly
    when the store holds the identifier. On an unknown identifier nothing
    changes (and [editSuggestion] returns null, [updateSuggestionTime]
    false, whatever the time text); on a known one the field is replaced,
    the warning "Manually edited by user" is appended and the other fields
    stay. *)
Theorem direct_updates_by_id sid w :
  (forall newTitle,
     snd (updateSuggestionTitle sid newTitle w) = Ok (holds sid w)) /\
  (forall newDate,
     snd (updateSuggestionDate sid newDate w) = Ok (holds sid w)) /\
  (stored sid w = None ->
     (forall newTitle, updateSuggestionTitle sid newTitle w = (w, Ok false)) /\
     (forall newDate, updateSuggestionDate sid newDate w = (w, Ok false)) /\
     (forall updates, editSuggestion sid updates w = (w, Ok None)) /\
     (forall newTime, updateSuggestionTime sid newTime w = (w, Ok false))) /\
  (forall s, stored sid w = Some s ->
     (forall newTitle, exists s',
        stored sid (fst (updateSuggestionTitle sid newTitle w)) = Some s' /\
        edited (only_title newTitle) s s') /\
     (forall newDate, exists s',
        stored sid (fst (updateSuggestionDate sid newDate w)) = Some s' /\
        edited (only_due newDate) s s')).
Proof.
  unfold holds.
  destruct (stored sid w) as [s|] eqn:St.
  - destruct (stored_find _ _ _ St) as (l & F & E).
    assert (Run : forall u, editSuggestion sid u w = (upd l (apply_updates u s) w, Ok (Some l)))
      by (intros u; apply (editSuggestion_run _ _ _ u _ F E)).
    split; [|split; [|split]].
    + intros t. unfold updateSuggestionTitle.
      now rewrite (bind_ok _ _ _ _ _ (Run _)).
    + intros d. unfold updateSuggestionDate.
      now rewrite (bind_ok _ _ _ _ _ (Run _)).
    + discriminate.
    + intros s0 [= <-]. split.
      * intros t. exists (apply_updates (only_title t) s). unfold updateSuggestionTitle.
        rewrite (bind_ok _ _ _ _ _ (Run _)). cbn [fst ret]. split.
        -- apply (stored_upd_same _ _ _ _ _ F E), apply_updates_id.
        -- apply apply_updates_edited.
      * intros d. exists (apply_updates (only_due d) s). unfold updateSuggestionDate.
        rewrite (bind_ok _ _ _ _ _ (Run _)). cbn [fst ret]. split.
        -- apply (stored_upd_same _ _ _ _ _ F E), apply_updates_id.
        -- apply apply_updates_edited.
  - pose proof (proj1 (stored_None _ _) St) as F.
    assert (Run : forall u, editSuggestion sid u w = (w, Ok None)).
    { intros u. unfold editSuggestion, getSuggestionById, bind. now rewrite F. }
    assert (T : forall t, updateSuggestionTitle sid t w = (w, Ok false)).
    { intros t. unfold updateSuggestionTitle. now rewrite (bind_ok _ _ _ _ _ (Run _)). }
    assert (D : forall d, updateSuggestionDate sid d w = (w, Ok false)).
    { intros d. unfold updateSuggestionDate. now rewrite (bind_ok _ _ _ _ _ (Run _)). }
    split; [intros t; now rewrite T|]. split; [intros d; now rewrite D|].
    split; [|discriminate]. intros _. repeat split; try assumption.
    intros newTime. unfold updateSuggestionTime, getSuggestionById, bind. now rewrite F.
Qed.

(** What two updates in a row ask for a field: the second when it names the
    field, else the first, else what was there. *)
Definition latest {A B} (f : A -> B) (second first : option A) (was : B) : B :=
  match second, first with
  | Some a, _ => f a
  | None, Some a => f a
  | None, None => was
  end.

(** X5. Two manual edits in a row: for each field the later update that
    names it wins, and the audit trail gets one "Manually edited by user"
    per edit, without deduplication. *)
Theorem two_edits_compose sid s first second w :
  stored sid w = Some s ->
  exists l s2,
    editSuggestion sid second (fst (editSuggestion sid first w)) =
      (upd l s2 w, Ok (Some l)) /\
    stored sid (upd l s2 w) = Some s2 /\
    id s2 = id s /\ confirmed s2 = confirmed s /\
    title s2 = latest VString (Editing.upd_title second) (Editing.upd_title first) (title s) /\
    due s2 = latest (fun d => d) (Editing.upd_due second) (Editing.upd_due first) (due s) /\
    confidence s2 =
      latest VNumber (Editing.upd_confidence second) (Editing.upd_confidence first)
        (confidence s) /\
    provenance s2 =
      latest VString (Editing.upd_provenance second) (Editing.upd_provenance first)
        (provenance s) /\
    warnings s2 =
      Some (warnings_or_empty s ++ ["Manually edited by user"; "Manually edited by user"]).
Proof.
  intros St. destruct (stored_find _ _ _ St) as (l & F & E).
  set (s1 := apply_updates first s).
  destruct (stored_upd_same sid l s s1 w F E (apply_updates_id _ _)) as (F1 & _).
  pose proof (heap_upd_same l s1 s w E) as E1.
  exists l, (apply_updates second s1).
  rewrite (editSuggestion_run _ _ _ first _ F E). cbn [fst]. fold s1.
  rewrite (editSuggestion_run _ _ _ second _ F1 E1), upd_upd.
  split; [reflexivity|].
  split; [apply (stored_upd_same _ _ _ _ _ F E); subst s1; now rewrite !apply_updates_id|].
  subst s1. unfold apply_updates, latest, push_warning, warnings_or_empty.
  destruct first as [[?|] [?|] [?|] [?|]], second as [[?|] [?|] [?|] [?|]]; cbn;
    rewrite <- ?app_assoc; repeat split.
Qed.

(** *** The batch *)

(** The array holds an object with the identifier. *)
Definition found_in (refs : list loc) (w : World) (sid : string) : bool :=
  match List.find (has_id (heap w) sid) refs with Some _ => true | None => false end.

Lemma found_in_ext refs w1 w :
  (forall sid l, has_id (heap w1) sid l = has_id (heap w) sid l) ->
  forall sid, found_in refs w1 sid = found_in refs w sid.
Proof.
  intros Ids sid. unfold found_in.
  now rewrite (find_ext_pointwise _ (has_id (heap w) sid)) by (intros; apply Ids).
Qed.

Lemma batch_loop_run refs timeRule ids :
  forall success failed w,
  exists w',
    Editing.batchUpdateTiming_loop refs ids timeRule success failed w =
      (w', Ok (match Editing.timeMatch timeRule with
               | Some _ => (success + List.length (List.filter (found_in refs w) ids),
                            failed + List.length (List.filter (fun sid => negb (found_in refs w sid)) ids))
               | None => (success, failed + List.length ids)
               end)) /\
    (forall sid l, has_id (heap w') sid l = has_id (heap w) sid l) /\
    suggestions w' = suggestions w /\
    (Editing.timeMatch timeRule = None -> w' = w).
Proof.
  induction ids as [|sid rest IH]; intros success failed w.
  - exists w. cbn. unfold ret. rewrite !Nat.add_0_r.
    destruct (Editing.timeMatch timeRule); repeat split.
  - cbn [Editing.batchUpdateTiming_loop]. unfold Editing.find_by_id.
    unfold bind at 1. cbn [List.filter].
    destruct (found_in refs w sid) eqn:Fd; unfold found_in in Fd;
      destruct (List.find (has_id (heap w) sid) refs) as [l|] eqn:F; try discriminate.
    + destruct (List.find_some _ _ F) as (_ & Hid).
      destruct (has_id_true _ _ _ Hid) as (s & E & _).
      destruct (Editing.timeMatch timeRule) as [[[h m] p]|] eqn:T.
      * rewrite (bind_ok _ _ _ _ _ (Editing_updateSuggestionTime_run _ _ _ _ _ _ _ E T)).
        set (w1 := upd l _ w).
        assert (Ids : forall sid' l', has_id (heap w1) sid' l' = has_id (heap w) sid' l').
        { intros sid' l'. apply (has_id_upd _ _ _ _ _ _ E), apply_updates_id. }
        destruct (IH (S success) failed w1) as (w' & Run & Ids' & Sg & _).
        exists w'. rewrite Run. split; [|split; [|split]].
        -- cbn [negb List.length].
           rewrite (filter_ext _ _ (found_in_ext refs w1 w Ids)).
           rewrite (filter_ext (fun sid => negb (found_in refs w1 sid))
                      (fun sid => negb (found_in refs w sid)))
             by (intros a; now rewrite (found_in_ext refs w1 w Ids)).
           do 3 f_equal. lia.
        -- intros sid' l'. now rewrite Ids', Ids.
        -- now rewrite Sg.
        -- discriminate.
      * rewrite (bind_ok _ _ _ _ _ (Editing_updateSuggestionTime_reject l _ _ T)).
        destruct (IH success (S failed) w) as (w' & Run & Ids' & Sg & Same).
        exists w'. rewrite Run. split; [|auto].
        cbn [List.length]. do 3 f_equal. lia.
    + unfold bind at 1. cbn [ret].
      destruct (IH success (S failed) w) as (w' & Run & Ids' & Sg & Same).
      exists w'. rewrite Run. split; [|auto].
      destruct (Editing.timeMatch timeRule); cbn [negb List.length]; do 3 f_equal; lia.
Qed.

(** X6. The batch update of the time of day counts every identifier once,
    as a success or as a failure. With a time text that holds no clock time
    every identifier fails and nothing changes; with one that does, the
    successes are the identifiers that the store holds (a repeated
    identifier is counted, and edited, each time) and the failures the
    others. Earlier successes stay when a later one fails. *)
Theorem batch_counts ids timeRule w :
  exists success failed,
    snd (batchUpdateTiming ids timeRule w) = Ok (success, failed) /\
    success + failed = List.length ids /\
    (Editing.timeMatch timeRule = None ->
       success = 0 /\ fst (batchUpdateTiming ids timeRule w) = w) /\
    (Editing.timeMatch timeRule <> None ->
       success = List.length (List.filter (fun sid => holds sid w) ids)) /\
    suggestions (fst (batchUpdateTiming ids timeRule w)) = suggestions w.
Proof.
  unfold batchUpdateTiming, getAllSuggestions, Editing.batchUpdateTiming, bind.
  destruct (batch_loop_run (suggestions w) timeRule ids 0 0 w)
    as (w' & Run & _ & Sg & Same).
  rewrite Run. cbn [fst snd].
  assert (Len : List.length (List.filter (found_in (suggestions w) w) ids) +
                List.length (List.filter (fun sid => negb (found_in (suggestions w) w sid)) ids)
                = List.length ids).
  { clear. induction ids as [|a ids IH]; cbn; [reflexivity|].
    destruct (found_in (suggestions w) w a); cbn; lia. }
  assert (Hd : forall sid, found_in (suggestions w) w sid = holds sid w).
  { intros sid. unfold found_in, holds, stored.
    destruct (List.find (has_id (heap w) sid) (suggestions w)) as [l|] eqn:F; [|reflexivity].
    destruct (List.find_some _ _ F) as (_ & Hid).
    now destruct (has_id_true _ _ _ Hid) as (s & -> & _). }
  destruct (Editing.timeMatch timeRule) as [m|] eqn:T.
  - do 2 eexists. split; [reflexivity|]. cbn [Nat.add]. split; [exact Len|].
    split; [discriminate|]. split; [|exact Sg].
    intros _. f_equal. apply filter_ext. exact Hd.
  - do 2 eexists. split; [reflexivity|]. split; [reflexivity|].
    split; [|split; [congruence|exact Sg]].
    intros _. split; [reflexivity|]. now apply Same.
Qed.

End EditsById.

(** *** Clock texts *)

(** The decimal digit [n], two digits for a number below 100, and an hour
    written without a leading zero. *)
Definition digit_char (n : nat) : ascii := ascii_of_nat (48 + n).
Definition two_digits (n : nat) : string :=
  String (digit_char (n / 10)) (String (digit_char (n mod 10)) EmptyString).
Definition hour_text (h : nat) : string :=
  if (h <? 10)%nat then String (digit_char h) EmptyString else two_digits h.

(** [s] is am or pm in some mix of cases. *)
Definition spells (p : Editing.Period) (s : string) : bool :=
  String.eqb (toLowerCase s)
    match p with Editing.AM => "am" | Editing.PM => "pm" end.

Definition blank (s : string) : bool :=
  forallb Editing.is_space (list_ascii_of_string s).
Definition no_digit (s : string) : bool :=
  forallb (fun c => negb (Editing.is_digit c)) (list_ascii_of_string s).

Lemma digit_char_digit n :
  (n < 10)%nat -> Editing.is_digit (digit_char n) = true /\ Editing.digit (digit_char n) = n.
Proof.
  intros L. do 10 (destruct n as [|n]; [split; reflexivity|]). lia.
Qed.

Lemma append_cons c (a b : string) : (String c a ++ b)%string = String c (a ++ b)%string.
Proof. reflexivity. Qed.
Lemma append_nil (b : string) : (EmptyString ++ b)%string = b.
Proof. reflexivity. Qed.

Lemma match_here_two h m tail :
  (10 <= h < 100)%nat -> (m < 100)%nat ->
  Editing.match_here (two_digits h ++ ":" ++ two_digits m ++ tail) =
    Some (h, m, Editing.match_period (Editing.skip_spaces tail)).
Proof.
  intros Rh Rm. unfold two_digits.
  assert (Hd : (h / 10 < 10)%nat) by (apply Nat.Div0.div_lt_upper_bound; lia).
  assert (Hu : (h mod 10 < 10)%nat) by (apply Nat.mod_upper_bound; lia).
  assert (Md : (m / 10 < 10)%nat) by (apply Nat.Div0.div_lt_upper_bound; lia).
  assert (Mu : (m mod 10 < 10)%nat) by (apply Nat.mod_upper_bound; lia).
  destruct (digit_char_digit _ Hd) as (a1 & a2), (digit_char_digit _ Hu) as (b1 & b2),
    (digit_char_digit _ Md) as (c1 & c2), (digit_char_digit _ Mu) as (d1 & d2).
  rewrite ?append_cons, ?append_nil. unfold Editing.match_here. cbv beta iota zeta.
  rewrite a1, a2, b1, b2, c1, c2, d1, d2. cbn [andb Ascii.eqb Bool.eqb].
  now rewrite <- !Nat.div_mod_eq.
Qed.

Lemma match_here_one h m tail :
  (h < 10)%nat -> (m < 100)%nat ->
  Editing.match_here (String (digit_char h) (":" ++ two_digits m ++ tail)) =
    Some (h, m, Editing.match_period (Editing.skip_spaces tail)).
Proof.
  intros Rh Rm. unfold two_digits.
  assert (Md : (m / 10 < 10)%nat) by (apply Nat.Div0.div_lt_upper_bound; lia).
  assert (Mu : (m mod 10 < 10)%nat) by (apply Nat.mod_upper_bound; lia).
  destruct (digit_char_digit _ Rh) as (a1 & a2),
    (digit_char_digit _ Md) as (c1 & c2), (digit_char_digit _ Mu) as (d1 & d2).
  rewrite ?append_cons, ?append_nil. unfold Editing.match_here. cbv beta iota zeta.
  rewrite a1, a2, c1, c2, d1, d2.
  replace (Editing.is_digit ":") with false by reflexivity.
  cbn [andb Ascii.eqb Bool.eqb].
  destruct tail; now rewrite <- !Nat.div_mod_eq.
Qed.

Lemma match_here_no_digit c rest :
  Editing.is_digit c = false -> Editing.match_here (String c rest) = None.
Proof.
  intros N. unfold Editing.match_here. rewrite N. cbn [andb].
  destruct rest as [|? [|? [|? [|? ?]]]]; reflexivity.
Qed.

Lemma timeMatch_after before text r :
  no_digit before = true -> Editing.match_here text = Some r ->
  Editing.timeMatch (before ++ text) = Some r.
Proof.
  intros N Mh. induction before as [|c before IH].
  - rewrite append_nil. destruct text; cbn [Editing.timeMatch]; now rewrite Mh.
  - cbn in N. apply andb_prop in N as (Nc & N). apply negb_true_iff in Nc.
    rewrite append_cons. cbn [Editing.timeMatch].
    rewrite (match_here_no_digit _ _ Nc). now apply IH.
Qed.

Lemma skip_blank gap tail :
  blank gap = true -> Editing.skip_spaces (gap ++ tail) = Editing.skip_spaces tail.
Proof.
  intros B. induction gap as [|c gap IH]; [reflexivity|].
  cbn in B. apply andb_prop in B as (Bc & B).
  rewrite append_cons. cbn [Editing.skip_spaces]. rewrite Bc. now apply IH.
Qed.

Lemma lower_unit_inv (l : ascii) x :
  (97 <= nat_of_ascii l <= 122)%nat ->
  lower_unit x = l -> x = l \/ x = ascii_of_nat (nat_of_ascii l - 32).
Proof.
  intros R E. unfold lower_unit, code in E.
  destruct ((65 <=? nat_of_ascii x)%nat && (nat_of_ascii x <=? 90)%nat ||
            (192 <=? nat_of_ascii x)%nat && (nat_of_ascii x <=? 222)%nat &&
            negb (nat_of_ascii x =? 215)%nat) eqn:C; [|now left].
  right. pose proof (nat_ascii_bounded x) as Bx.
  assert (N : nat_of_ascii l = (nat_of_ascii x + 32)%nat).
  { rewrite <- E. apply nat_ascii_embedding.
    apply orb_prop in C as [C|C]; repeat (apply andb_prop in C as (C & ?));
      repeat match goal with
             | H : (_ <=? _)%nat = true |- _ => apply Nat.leb_le in H
             end; lia. }
  rewrite N. replace (nat_of_ascii x + 32 - 32)%nat with (nat_of_ascii x) by lia.
  now rewrite ascii_nat_embedding.
Qed.

Lemma spelled p spelling after :
  spells p spelling = true ->
  Editing.match_period (Editing.skip_spaces (spelling ++ after)) = Some p.
Proof.
  unfold spells. intros E. apply String.eqb_eq in E.
  destruct spelling as [|a [|m [|? ?]]]; try (destruct p; discriminate).
  assert (Em : lower_unit m = "m"%char) by (destruct p; now injection E).
  destruct (lower_unit_inv "m" m ltac:(vm_compute; lia) Em) as [->| ->];
    (destruct p;
     [assert (Ea : lower_unit a = "a"%char) by now injection E
     |assert (Ea : lower_unit a = "p"%char) by now injection E]);
    [destruct (lower_unit_inv "a" a ltac:(vm_compute; lia) Ea) as [->| ->]
    |destruct (lower_unit_inv "p" a ltac:(vm_compute; lia) Ea) as [->| ->]
    |destruct (lower_unit_inv "a" a ltac:(vm_compute; lia) Ea) as [->| ->]
    |destruct (lower_unit_inv "p" a ltac:(vm_compute; lia) Ea) as [->| ->]];
    reflexivity.
Qed.

(** How a time text with hour, colon, two minute digits and an optional
    period is read, wherever it stands in a text without earlier digits. *)
Lemma timeMatch_clock before h m tail :
  no_digit before = true -> (h < 100)%nat -> (m < 100)%nat ->
  Editing.timeMatch (before ++ hour_text h ++ ":" ++ two_digits m ++ tail) =
    Some (h, m, Editing.match_period (Editing.skip_spaces tail)).
Proof.
  intros N Rh Rm. apply timeMatch_after; [exact N|]. unfold hour_text.
  destruct (h <? 10)%nat eqn:C.
  - apply Nat.ltb_lt in C. now apply match_here_one.
  - apply Nat.ltb_ge in C. apply match_here_two; [lia|exact Rm].
Qed.

Section ClockTexts.
Context `{Host}.
Local Open Scope Z_scope.

(** X7. A time of the twelve-hour clock, written as hour (1 to 12, no
    leading zero), colon, two minute digits, optional blanks and am or pm in
    any case, anywhere in a text that has no digit before it, is read as
    that time: 12 am is hour 0, 12 pm is hour 12, and the other pm hours are
    twelve later. The stored suggestion gets this clock time on its own
    local day (when that local time exists in the time zone), with the
    manual-edit warning appended and nothing else changed. *)
Theorem twelve_hour_clock_sets_time sid s t h m p before gap spelling after w :
  stored sid w = Some s -> due s = Some t ->
  (1 <= h <= 12)%nat -> (m < 60)%nat ->
  no_digit before = true -> blank gap = true -> spells p spelling = true ->
  let text := (before ++ hour_text h ++ ":" ++ two_digits m ++ gap ++ spelling ++ after)%string in
  let hours := Z.of_nat (match p with
                         | Editing.AM => h mod 12
                         | Editing.PM => h mod 12 + 12
                         end) in
  let local := MakeDate (Day (LocalTime t)) (MakeTime hours (Z.of_nat m) 0 0) in
  LocalTime (UTC local) = local -> Z.abs (UTC local) <= maxTime ->
  exists s',
    snd (updateSuggestionTime sid text w) = Ok true /\
    stored sid (fst (updateSuggestionTime sid text w)) = Some s' /\
    local_date (due s') = local_date (due s) /\
    local_clock (due s') = (Some hours, Some (Z.of_nat m), Some 0) /\
    edited (only_due (due s')) s s'.
Proof.
  intros St D Rh Rm N B Sp text hours local RT Clip.
  destruct (stored_find _ _ _ St) as (l & F & E).
  assert (T : Editing.timeMatch text = Some (h, m, Some p)).
  { subst text. rewrite timeMatch_clock by (assumption || lia).
    now rewrite skip_blank, (spelled _ _ _ Sp). }
  assert (Hh : Z.of_nat (Editing.to24 h (Some p)) = hours).
  { subst hours. f_equal. unfold Editing.to24.
    destruct (h =? 12)%nat eqn:C.
    - apply Nat.eqb_eq in C. subst h. now destruct p.
    - apply Nat.eqb_neq in C. rewrite Nat.mod_small by lia. now destruct p. }
  assert (Rg : 0 <= hours < 24).
  { subst hours. pose proof (Nat.mod_upper_bound h 12). destruct p; lia. }
  destruct (setHours_keeps_day t hours (Z.of_nat m)) as (Sh & Ld & Lc);
    [exact Rg|lia|exact RT|exact Clip|].
  rewrite (updateSuggestionTime_run _ _ _ _ _ _ _ _ F E T), Hh, D, Sh.
  fold local. cbn [fst snd].
  eexists. split; [reflexivity|]. split.
  - apply (stored_upd_same _ _ _ _ _ F E), apply_updates_id.
  - assert (Du : forall d, due (apply_updates (only_due d) s) = d) by reflexivity.
    rewrite !Du. split; [exact Ld|]. split; [exact Lc|]. apply apply_updates_edited.
Qed.

End ClockTexts.

(** ** Validation: which objects get warnings *)

(** [s'] is [s] with warnings added at the end. *)
Definition grows (s s' : ParsedDeadlineSuggestion) : Prop :=
  same_but_warnings s s' /\
  exists extra, warnings_or_empty s' = warnings_or_empty s ++ extra.

(** The second world is the first one with warnings added at the end of
    the lists of objects among [targets]; every other object is as it was. *)
Definition appends (targets : list loc) (w w' : World) : Prop :=
  suggestions w' = suggestions w /\ draws w' = draws w /\
  List.length (heap w') = List.length (heap w) /\
  forall l s, heap w !! l = Some s ->
    exists s', heap w' !! l = Some s' /\ grows s s' /\ (~ In l targets -> s' = s).

Definition appending {A} (targets : list loc) (m : M A) : Prop :=
  forall w w' r, m w = (w', r) -> appends targets w w'.

Lemma grows_refl s : grows s s.
Proof. split; [reflexivity|]. exists []. now rewrite app_nil_r. Qed.

Lemma grows_trans a b c : grows a b -> grows b c -> grows a c.
Proof.
  intros (S1 & x & E1) (S2 & y & E2). split.
  - now apply (same_but_warnings_trans a b c).
  - exists (x ++ y). now rewrite E2, E1, app_assoc.
Qed.

Lemma grows_push x s : grows s (push_warning x s).
Proof. split; [reflexivity|]. now exists [x]. Qed.

Lemma appends_refl targets w : appends targets w w.
Proof.
  repeat split. intros l s E. exists s. split; [exact E|].
  split; [apply grows_refl|reflexivity].
Qed.

Lemma appends_trans targets a b c :
  appends targets a b -> appends targets b c -> appends targets a c.
Proof.
  intros (S1 & D1 & L1 & F1) (S2 & D2 & L2 & F2).
  split; [congruence|]. split; [congruence|]. split; [congruence|].
  intros l s E. destruct (F1 _ _ E) as (s1 & E1 & G1 & K1).
  destruct (F2 _ _ E1) as (s2 & E2 & G2 & K2).
  exists s2. split; [exact E2|]. split; [apply (grows_trans _ _ _ G1 G2)|].
  intros N. rewrite (K2 N). now apply K1.
Qed.

Lemma appends_weaken targets targets' w w' :
  incl targets targets' -> appends targets w w' -> appends targets' w w'.
Proof.
  intros I (S1 & D1 & L1 & F1). repeat split; try assumption.
  intros l s E. destruct (F1 _ _ E) as (s1 & E1 & G1 & K1).
  exists s1. split; [exact E1|]. split; [exact G1|].
  intros N. apply K1. intros M. apply N, I, M.
Qed.

Lemma appends_push targets l x s w :
  In l targets -> heap w !! l = Some s ->
  appends targets w (upd l (push_warning x s) w).
Proof.
  intros I E. split; [reflexivity|]. split; [reflexivity|].
  split; [apply length_insert|].
  intros l' s' E'. destruct (Nat.eq_dec l l') as [<-|N].
  - exists (push_warning x s). rewrite (heap_upd_same _ _ _ _ E).
    rewrite E in E'. injection E' as <-.
    split; [reflexivity|]. split; [apply grows_push|]. intros K. now destruct K.
  - exists s'. rewrite (heap_upd_other _ _ _ _ N).
    split; [exact E'|]. split; [apply grows_refl|reflexivity].
Qed.

Lemma appending_ret {A} targets (a : A) : appending targets (ret a).
Proof. intros w w' r [= <- _]. apply appends_refl. Qed.

Lemma appending_lift {A} targets (x : result A) : appending targets (lift x).
Proof. intros w w' r [= <- _]. apply appends_refl. Qed.

Lemma appending_deref targets l : appending targets (deref l).
Proof.
  intros w w' r. unfold deref. destruct (heap w !! l); intros [= <- _];
    apply appends_refl.
Qed.

Lemma appending_push l x : appending [l] (modify l (push_warning x)).
Proof.
  intros w w' r. unfold modify. destruct (heap w !! l) as [s|] eqn:E.
  - intros [= <- _]. apply (appends_push [l] l x s w (or_introl eq_refl) E).
  - intros [= <- _]. apply appends_refl.
Qed.

Lemma appending_bind {A B} targets (m : M A) (k : A -> M B) :
  appending targets m -> (forall a, appending targets (k a)) ->
  appending targets (bind m k).
Proof.
  intros Hm Hk w w' r. unfold bind. destruct (m w) as [w1 [a|e]] eqn:E.
  - intros K. apply (appends_trans _ _ w1); [apply (Hm _ _ _ E)|apply (Hk _ _ _ _ K)].
  - intros [= <- _]. apply (Hm _ _ _ E).
Qed.

Lemma appending_weaken {A} targets targets' (m : M A) :
  incl targets targets' -> appending targets m -> appending targets' m.
Proof. intros I Hm w w' r E. apply (appends_weaken _ _ _ _ I), (Hm _ _ _ E). Qed.

Create HintDb appending discriminated.
#[local] Hint Resolve appending_ret appending_lift appending_deref
  appending_push : appending.

(** Decomposes an operation into its steps. *)
Ltac appending_steps :=
  repeat first
    [ apply appending_bind; [|intros ?]
    | match goal with |- appending _ (if ?b then _ else _) => destruct b end
    | solve [auto with appending] ].

Section Appending.
Context `{Host}.

Lemma appending_calendar l issues :
  appending [l] (validateAcademicCalendarLogic l issues).
Proof. unfold validateAcademicCalendarLogic. appending_steps. Qed.

Lemma appending_hallucination l issues now :
  appending [l] (validateForHallucination l issues now).
Proof. unfold validateForHallucination. appending_steps. Qed.

Lemma appending_duplicates targets s all : appending targets (duplicates_of s all).
Proof. induction all as [|a rest IH]; cbn [duplicates_of]; appending_steps. Qed.

Lemma appending_validate_one l all now issues :
  appending [l] (validate_one l all now issues).
Proof.
  unfold validate_one.
  pose proof appending_calendar. pose proof appending_hallucination.
  pose proof (appending_duplicates [l]). appending_steps.
Qed.

Lemma appending_validate_loop refs all now issues :
  appending refs (validate_loop refs all now issues).
Proof.
  revert issues. induction refs as [|l rest IH]; intros issues; cbn [validate_loop].
  - appending_steps.
  - apply appending_bind.
    + apply (appending_weaken [l]); [|apply appending_validate_one].
      intros x [<-|[]]. now left.
    + intros a. apply (appending_weaken rest); [|apply IH].
      intros x I. now right.
Qed.

(** X8. Domain validation changes nothing but warning lists, and those
    only by adding at the end, and only for the suggestions it is asked to
    validate: the store, their other fields and every other object
    (the stored suggestions it compares with) are as before. This holds
    also when the pass stops on an exception partway. *)
Theorem validation_only_appends refs all now w :
  let w' := fst (validateSuggestions refs all now w) in
  suggestions w' = suggestions w /\
  List.length (heap w') = List.length (heap w) /\
  forall l s, heap w !! l = Some s ->
    exists s' extra,
      heap w' !! l = Some s' /\
      set_warnings None s' = set_warnings None s /\
      warnings_or_empty s' = warnings_or_empty s ++ extra /\
      (~ In l refs -> s' = s).
Proof.
  intros w'. subst w'.
  destruct (validateSuggestions refs all now w) as [w' r] eqn:E.
  destruct (appending_validate_loop refs all now [] _ _ _ E) as (Sg & _ & Ln & F).
  cbn [fst]. split; [exact Sg|]. split; [exact Ln|].
  intros l s El. destruct (F _ _ El) as (s' & E' & (Sb & extra & Ex) & K).
  now exists s', extra.
Qed.

End Appending.

(** ** Validation: the warnings a suggestion gets *)

Section Verdicts.
Context `{Host}.

(** The decisions of [validateSuggestions] on a suggestion [s] with title
    [t], against the objects behind [all] in the heap [h], the clock
    reading [now]. *)
Definition past_flag (s : ParsedDeadlineSuggestion) (now : Z) : bool :=
  Date_lt (due s) (Some now).
Definition far_flag (s : ParsedDeadlineSuggestion) (now : Z) : bool :=
  Date_lt (TimeClip (now + 365 * 24 * 60 * 60 * 1000)%Z) (due s).
Definition low_flag (s : ParsedDeadlineSuggestion) : bool :=
  ToBoolean (confidence s) && value_lt (confidence s) 0.3%float.

(** The object behind [a] has the title [t] up to the case of its letters,
    and another identifier than [sid]. *)
Definition twin (h : list ParsedDeadlineSuggestion) (t sid : string) (a : loc) : bool :=
  match h !! a with
  | Some other =>
      match title other with
      | VString u =>
          String.eqb (toLowerCase u) (toLowerCase t) && negb (String.eqb (id other) sid)
      | _ => false
      end
  | None => false
  end.

Definition duplicate_flag (h : list ParsedDeadlineSuggestion)
    (s : ParsedDeadlineSuggestion) (t : string) (all : list loc) : bool :=
  (0 <? List.length (List.filter (twin h t (id s)) all))%nat.

(** The warnings of one validation, in the order in which they are added. *)
Definition verdict (h : list ParsedDeadlineSuggestion) (s : ParsedDeadlineSuggestion)
    (t : string) (all : list loc) (now : Z) : list string :=
  pick (past_flag s now) W_past ++ pick (far_flag s now) W_far ++
  pick (duplicate_flag h s t all) W_duplicate ++ pick (low_flag s) W_low ++
  pick (weekend_flag s) W_weekend ++ pick (early_flag s) W_early ++
  pick (vague_flag s t) W_vague ++ pick (short_flag s now) W_short ++
  pick (round_flag s) W_round.

(** Every reference leads to an object whose title is a text. *)
Definition typed_titles (h : list ParsedDeadlineSuggestion) (refs : list loc) : Prop :=
  Forall (fun a => exists s t, h !! a = Some s /\ title s = VString t) refs.

Lemma same_but_warnings_read s s' :
  same_but_warnings s s' ->
  id s' = id s /\ title s' = title s /\ due s' = due s /\ confidence s' = confidence s.
Proof.
  unfold same_but_warnings. intros E.
  repeat split; [exact (f_equal id E)|exact (f_equal title E)|exact (f_equal due E)
                |exact (f_equal confidence E)].
Qed.

Lemma appends_twin targets w w' t sid a :
  appends targets w w' -> twin (heap w') t sid a = twin (heap w) t sid a.
Proof.
  intros (_ & _ & Ln & F). unfold twin. destruct (heap w !! a) as [s|] eqn:E.
  - destruct (F _ _ E) as (s' & -> & (Sb & _) & _).
    destruct (same_but_warnings_read _ _ Sb) as (-> & -> & _). reflexivity.
  - assert (L : heap w' !! a = None).
    { apply lookup_ge_None. apply lookup_ge_None in E. lia. }
    now rewrite L.
Qed.

Lemma appends_typed targets w w' refs :
  appends targets w w' -> typed_titles (heap w) refs -> typed_titles (heap w') refs.
Proof.
  intros (_ & _ & _ & F) Ty. unfold typed_titles in *.
  rewrite Forall_forall in *. intros a I.
  destruct (Ty a I) as (s & t & E & T).
  destruct (F _ _ E) as (s' & E' & (Sb & _) & _).
  destruct (same_but_warnings_read _ _ Sb) as (_ & Tt & _).
  exists s', t. split; [exact E'|congruence].
Qed.

Lemma verdict_same targets w w' s s' t all now :
  appends targets w w' -> same_but_warnings s s' ->
  verdict (heap w') s' t all now = verdict (heap w) s t all now.
Proof.
  intros A Sb. destruct (same_but_warnings_read _ _ Sb) as (I & T & D & C).
  unfold verdict, past_flag, far_flag, duplicate_flag, low_flag, weekend_flag,
    early_flag, vague_flag, short_flag, round_flag.
  rewrite I, D, C.
  now rewrite (filter_ext (twin (heap w') t (id s)) (twin (heap w) t (id s)))
    by (intros a; apply (appends_twin _ _ _ _ _ _ A)).
Qed.

Lemma duplicates_of_run s t all w :
  title s = VString t -> typed_titles (heap w) all ->
  duplicates_of s all w = (w, Ok (List.filter (twin (heap w) t (id s)) all)).
Proof.
  intros T Ty. induction Ty as [|a rest (other & u & E & U) Ty IH]; [reflexivity|].
  cbn [duplicates_of List.filter].
  rewrite (bind_ok _ _ _ _ _ (deref_ok _ _ _ E)).
  rewrite U, T. cbn [toLowerCase_method]. unfold bind at 1 2. unfold lift at 1 2.
  rewrite (bind_ok _ _ _ _ _ IH).
  assert (Tw : twin (heap w) t (id s) a =
               String.eqb (toLowerCase u) (toLowerCase t) && negb (String.eqb (id other) (id s)))
    by (unfold twin; now rewrite E, U).
  rewrite Tw. now destruct (_ && _).
Qed.

(** A conditional push whose message quotes the date. *)
Definition time_of (d : Date) : Z := match d with Some t => t | None => 0%Z end.

Lemma dated_push {B} l (b : bool) x (issue : Z -> Issue) issues s d w
    (k : list Issue -> M B) :
  heap w !! l = Some s -> (b = true -> d <> None) ->
  (let* issues' :=
     (if b then
        let* iso := lift (toISOString d) in
        modify l (push_warning x) ;; ret (issues ++ [issue iso])
      else ret issues) in k issues') w =
  k (if b then issues ++ [issue (time_of d)] else issues)
    (if b then upd l (push_warning x s) w else w).
Proof.
  intros E V. destruct b; [|reflexivity].
  destruct d as [iso|]; [|now destruct V].
  unfold bind at 1 2. unfold lift at 1.
  cbn [toISOString time_of]. now rewrite (modify_then _ _ _ _ _ E).
Qed.

Lemma Date_lt_valid_l a b : Date_lt a b = true -> a <> None.
Proof. now destruct a. Qed.
Lemma Date_lt_valid_r a b : Date_lt a b = true -> b <> None.
Proof. destruct a, b; discriminate || congruence. Qed.

Lemma validate_one_run l s t all now issues w :
  heap w !! l = Some s -> title s = VString t -> typed_titles (heap w) all ->
  exists w' issues' s',
    validate_one l all now issues w = (w', Ok issues') /\
    heap w' !! l = Some s' /\
    warnings_or_empty s' = warnings_or_empty s ++ verdict (heap w) s t all now.
Proof.
  intros E T Ty. unfold validate_one.
  rewrite (bind_ok _ _ _ _ _ (deref_ok _ _ _ E)).
  unfold verdict. fold (past_flag s now) (far_flag s now) (low_flag s).
  set (Pa := past_flag s now). set (Fa := far_flag s now). set (Lo := low_flag s).
  rewrite (dated_push l Pa W_past (PastDate (title s)) issues s (due s) w _ E
             (Date_lt_valid_l _ _)).
  set (i1 := if Pa then _ else issues).
  set (w1 := if Pa then _ else w). set (s1 := if Pa then push_warning W_past s else s).
  assert (E1 : heap w1 !! l = Some s1).
  { subst w1 s1. destruct Pa; [apply (heap_upd_same _ _ _ _ E)|exact E]. }
  rewrite (dated_push l Fa W_far (FarFutureDate (title s)) i1 s1 (due s) w1 _ E1
             (Date_lt_valid_r _ _)).
  set (i2 := if Fa then _ else i1).
  set (w2 := if Fa then _ else w1). set (s2 := if Fa then push_warning W_far s1 else s1).
  assert (E2 : heap w2 !! l = Some s2).
  { subst w2 s2. destruct Fa; [apply (heap_upd_same _ _ _ _ E1)|exact E1]. }
  assert (A2 : appends [l] w w2).
  { apply (appends_trans _ _ w1).
    - subst w1. destruct Pa; [apply (appends_push [l] l _ _ _ (or_introl eq_refl) E)
                             |apply appends_refl].
    - subst w2. destruct Fa; [apply (appends_push [l] l _ _ _ (or_introl eq_refl) E1)
                             |apply appends_refl]. }
  rewrite (bind_ok _ _ _ _ _ (duplicates_of_run s t all w2 T (appends_typed _ _ _ _ A2 Ty))).
  rewrite (filter_ext (twin (heap w2) t (id s)) (twin (heap w) t (id s)))
    by (intros a; apply (appends_twin _ _ _ _ _ _ A2)).
  fold (duplicate_flag (heap w) s t all). set (Du := duplicate_flag (heap w) s t all).
  rewrite (conditional_push l Du W_duplicate _ i2 s2 w2 _ E2).
  set (w3 := if Du then _ else w2).
  set (s3 := if Du then push_warning W_duplicate s2 else s2).
  assert (E3 : heap w3 !! l = Some s3).
  { subst w3 s3. destruct Du; [apply (heap_upd_same _ _ _ _ E2)|exact E2]. }
  rewrite (conditional_push l Lo W_low _ _ s3 w3 _ E3).
  set (w4 := if Lo then _ else w3). set (s4 := if Lo then push_warning W_low s3 else s3).
  assert (E4 : heap w4 !! l = Some s4).
  { subst w4 s4. destruct Lo; [apply (heap_upd_same _ _ _ _ E3)|exact E3]. }
  set (i4 := if Lo then _ else _).
  destruct (validateAcademicCalendarLogic_run l s4 i4 w4 E4)
    as (w5 & i5 & s5 & R5 & E5 & W5).
  rewrite (bind_ok _ _ _ _ _ R5).
  assert (S4 : same_but_warnings s s4).
  { subst s4 s3 s2 s1. destruct Pa, Fa, Du, Lo; reflexivity. }
  assert (W4 : warnings_or_empty s4 =
               warnings_or_empty s ++ pick Pa W_past ++ pick Fa W_far ++
               pick Du W_duplicate ++ pick Lo W_low).
  { subst s4 s3 s2 s1. destruct Pa, Fa, Du, Lo; cbn;
      rewrite <- ?app_assoc, ?app_nil_r; reflexivity. }
  assert (S5 : same_but_warnings s4 s5).
  { destruct (annotates_lookup _ _ _ _ (annotating_calendar _ _ _ _ _ R5) E4)
      as (x & Ex & Sx). rewrite E5 in Ex. now injection Ex as <-. }
  assert (T5 : title s5 = VString t).
  { destruct (same_but_warnings_read _ _ S5) as (_ & -> & _).
    destruct (same_but_warnings_read _ _ S4) as (_ & -> & _). exact T. }
  destruct (validateForHallucination_run l s5 t i5 now w5 E5 T5)
    as (w6 & i6 & s6 & R6 & E6 & W6).
  exists w6, i6, s6. split; [exact R6|]. split; [exact E6|].
  rewrite W6, W5.
  assert (F4 : weekend_flag s4 = weekend_flag s /\ early_flag s4 = early_flag s).
  { destruct (same_but_warnings_read _ _ S4) as (_ & _ & D & _).
    unfold weekend_flag, early_flag. now rewrite D. }
  assert (F5 : vague_flag s5 t = vague_flag s t /\ short_flag s5 now = short_flag s now /\
               round_flag s5 = round_flag s).
  { pose proof (same_but_warnings_trans _ _ _ S4 S5) as S05.
    destruct (same_but_warnings_read _ _ S05) as (_ & _ & D & C).
    unfold vague_flag, short_flag, round_flag. now rewrite D, C. }
  destruct F4 as (-> & ->), F5 as (-> & -> & ->).
  rewrite W4, <- !app_assoc. reflexivity.
Qed.

Lemma validate_loop_run refs all now :
  forall issues w,
  NoDup refs -> typed_titles (heap w) refs -> typed_titles (heap w) all ->
  exists w' issues',
    validate_loop refs all now issues w = (w', Ok issues') /\
    forall l s t, In l refs -> heap w !! l = Some s -> title s = VString t ->
      exists s', heap w' !! l = Some s' /\
        warnings_or_empty s' = warnings_or_empty s ++ verdict (heap w) s t all now.
Proof.
  induction refs as [|l rest IH]; intros issues w Nd Tr Ta.
  - exists w, issues. split; [reflexivity|]. intros l s t [].
  - cbn [validate_loop]. inversion Nd as [|? ? Nl Nd']; subst.
    inversion Tr as [|? ? (sl & tl & El & Tl) Tr']; subst.
    destruct (validate_one_run l sl tl all now issues w El Tl Ta)
      as (w1 & i1 & s1 & R1 & E1 & W1).
    pose proof (appending_validate_one _ _ _ _ _ _ _ R1) as A1.
    rewrite (bind_ok _ _ _ _ _ R1).
    destruct (IH i1 w1 Nd' (appends_typed _ _ _ _ A1 Tr') (appends_typed _ _ _ _ A1 Ta))
      as (w' & issues' & R & K).
    pose proof (appending_validate_loop _ _ _ _ _ _ _ R) as A.
    exists w', issues'. split; [exact R|].
    intros x s t [<-|I] E T.
    + rewrite El in E. injection E as <-. rewrite Tl in T. injection T as <-.
      destruct A as (_ & _ & _ & F). destruct (F _ _ E1) as (s' & E' & _ & Same).
      exists s1. split; [|exact W1]. now rewrite E', (Same Nl).
    + assert (Nx : ~ In x [l]) by (intros [->|[]]; contradiction).
      destruct A1 as (A1s & A1d & A1l & F1).
      destruct (F1 _ _ E) as (s0 & E0 & _ & Same). rewrite (Same Nx) in E0.
      destruct (K x s t I E0 T) as (s' & E' & W').
      exists s'. split; [exact E'|]. rewrite W'. f_equal.
      apply (verdict_same [l]); [|reflexivity].
      split; [exact A1s|]. split; [exact A1d|]. split; [exact A1l|exact F1].
Qed.

(** The stored suggestion that makes a title a duplicate: the same title up
    to the case of the letters, under another identifier. *)
Definition has_twin (h : list ParsedDeadlineSuggestion) (s : ParsedDeadlineSuggestion)
    (t : string) (all : list loc) : Prop :=
  exists a other u,
    In a all /\ h !! a = Some other /\ title other = VString u /\
    toLowerCase u = toLowerCase t /\ id other <> id s.

Lemma duplicate_flag_meaning h s t all :
  duplicate_flag h s t all = true <-> has_twin h s t all.
Proof.
  unfold duplicate_flag, has_twin. rewrite Nat.ltb_lt. split.
  - intros L. destruct (List.filter _ all) as [|a more] eqn:F; [cbn in L; lia|].
    assert (I : In a (List.filter (twin h t (id s)) all)) by (rewrite F; now left).
    apply filter_In in I as (I & Tw). unfold twin in Tw.
    destruct (h !! a) as [other|] eqn:E; [|discriminate].
    destruct (title other) as [| | | |u| |] eqn:U; try discriminate.
    apply andb_prop in Tw as (Eq & Ne).
    exists a, other, u. repeat split; try assumption.
    + now apply String.eqb_eq.
    + apply negb_true_iff in Ne. now apply String.eqb_neq.
  - intros (a & other & u & I & E & U & Eq & Ne).
    assert (Tw : twin h t (id s) a = true).
    { unfold twin. rewrite E, U. apply andb_true_intro. split.
      - now apply String.eqb_eq.
      - apply negb_true_iff. now apply String.eqb_neq. }
    pose proof (proj2 (filter_In (twin h t (id s)) a all) (conj I Tw)) as J.
    destruct (List.filter _ all); [destruct J|cbn; lia].
Qed.

Lemma In_pick x b y rest :
  In x (pick b y ++ rest) <-> (b = true /\ x = y) \/ In x rest.
Proof. destruct b; cbn; intuition (discriminate || auto). Qed.

Lemma In_pick_last x b y : In x (pick b y) <-> b = true /\ x = y.
Proof. destruct b; cbn; intuition (discriminate || auto). Qed.

Lemma NoDup_pick b (y : string) rest :
  ~ In y rest -> NoDup rest -> NoDup (pick b y ++ rest).
Proof. intros N D. destruct b; [now constructor|exact D]. Qed.

(** Settles a goal by the texts of the warnings, which differ. *)
Ltac warning_texts :=
  unfold W_past, W_far, W_duplicate, W_low, W_weekend, W_early, W_late, W_vague,
    W_short, W_round;
  intuition (discriminate || auto).

Lemma verdict_duplicate h s t all now :
  In W_duplicate (verdict h s t all now) <-> has_twin h s t all.
Proof.
  rewrite <- duplicate_flag_meaning. unfold verdict.
  rewrite !In_pick, In_pick_last. split; [warning_texts|intros ->; auto].
Qed.

(** X9. The whole outcome of domain validation when titles are texts (the
    suggestions to validate, without repeats, and the stored ones they are
    compared with): the pass does not throw, and each suggestion gets, after
    the warnings it had, the warnings of the rules that fire, each once and
    in this order: past date, far future, duplicate, low confidence,
    weekend, early morning, vague term, short notice, round date. The
    late-evening warning is never given, past and far future never
    together, and the duplicate warning exactly when one of the compared
    suggestions has the same title up to case under another identifier.
    The clock reads [now] during the pass. *)
Theorem validation_verdict refs all now w :
  NoDup refs -> typed_titles (heap w) refs -> typed_titles (heap w) all ->
  let w' := fst (validateSuggestions refs all now w) in
  (exists issues, snd (validateSuggestions refs all now w) = Ok issues) /\
  forall l s t, In l refs -> heap w !! l = Some s -> title s = VString t ->
    exists s' added,
      heap w' !! l = Some s' /\
      warnings_or_empty s' = warnings_or_empty s ++ added /\
      added = verdict (heap w) s t all now /\
      NoDup added /\ ~ In W_late added /\
      ~ (In W_past added /\ In W_far added) /\
      (In W_duplicate added <-> has_twin (heap w) s t all).
Proof.
  intros Nd Tr Ta w'. subst w'. unfold validateSuggestions.
  destruct (validate_loop_run refs all now [] w Nd Tr Ta) as (w' & issues' & R & K).
  rewrite R. cbn [fst snd]. split; [eauto|].
  intros l s t I E T. destruct (K l s t I E T) as (s' & E' & W').
  exists s', (verdict (heap w) s t all now).
  split; [exact E'|]. split; [exact W'|]. split; [reflexivity|].
  rewrite <- duplicate_flag_meaning. unfold verdict.
  assert (X : past_flag s now && far_flag s now = false).
  { unfold past_flag, far_flag, TimeClip.
    destruct (due s) as [d|]; [|reflexivity]. cbn.
    destruct (maxTime <? _)%Z; cbn; [apply andb_false_r|].
    apply andb_false_iff. rewrite !Z.ltb_ge. lia. }
  generalize dependent (past_flag s now). generalize dependent (far_flag s now).
  intros Fa Pa X.
  split; [|split; [|split]].
  - repeat (apply NoDup_pick; [rewrite ?In_pick, In_pick_last; warning_texts|]).
    destruct (round_flag s); cbn [pick]; [constructor; [intros []|constructor]|constructor].
  - rewrite !In_pick, In_pick_last. warning_texts.
  - rewrite !In_pick, !In_pick_last. intros (P & F).
    assert (Pa = true) by (revert P; warning_texts).
    assert (Fa = true) by (revert F; warning_texts).
    subst. discriminate.
  - rewrite !In_pick, In_pick_last. split; [warning_texts|intros ->; auto].
Qed.

End Verdicts.

(** ** Intake and refinement: what they leave alone *)

Section Intake.
Context `{Host}.

(** [parseLLMResponse] either throws before any object is created, or
    converts the entries of a payload that passed structural validation. *)
Lemma parseLLMResponse_cases response document source websiteUrl w :
  (exists e, parseLLMResponse response document source websiteUrl w = (w, Throw e)) \/
  (exists text props items issues,
     jsonMatch response = Some text /\
     JSON_parse text = Some (VObject props) /\
     validateLLMResponse (VObject props) (source_label document websiteUrl) = Ok issues /\
     lookup_prop "suggestions" props = VArray items /\
     parseLLMResponse response document source websiteUrl w =
       (extended (converted items (draws w) document source websiteUrl) w,
        Ok (seq (List.length (heap w))
              (List.length (converted items (draws w) document source websiteUrl))))).
Proof.
  destruct (jsonMatch response) as [text|] eqn:J;
    [|left; unfold parseLLMResponse; rewrite J; eauto].
  destruct (JSON_parse text) as [parsed|] eqn:P;
    [|left; unfold parseLLMResponse; rewrite J, P; eauto].
  destruct (validateLLMResponse parsed (source_label document websiteUrl))
    as [issues|e] eqn:V.
  - destruct (validateLLMResponse_passes _ _ _ V) as (props & items & -> & L & _).
    right. exists text, props, items, issues. repeat split; try assumption.
    apply (parseLLMResponse_run _ _ _ _ _ _ _ _ _ J P V L).
  - left. exists e. unfold parseLLMResponse. rewrite J, P.
    unfold bind, lift. now rewrite V.
Qed.

(** What every converted object carries. *)
Definition fresh_from (document : option UploadedDocument) (source0 : SourceType)
    (url : option string) (s : ParsedDeadlineSuggestion) : Prop :=
  source s = source0 /\ uploadedDocument s = document /\ websiteUrl s = nonempty url /\
  confirmed s = None /\ extractionMethod s = Some LLM /\ canvasMetadata s = None.

Lemma converted_fresh items n document source0 url :
  Forall (fun s => fresh_from document source0 url s /\ warnings s = Some [])
    (converted items n document source0 url).
Proof.
  revert n. induction items as [|item rest IH]; intros n; cbn [converted].
  - constructor.
  - destruct (is_candidate item); [|apply IH].
    constructor; [|apply IH]. repeat split.
Qed.

Lemma same_but_warnings_fresh document source0 url s s' :
  same_but_warnings s s' -> fresh_from document source0 url s ->
  fresh_from document source0 url s'.
Proof.
  unfold same_but_warnings, fresh_from. intros E (F1 & F2 & F3 & F4 & F5 & F6).
  pose proof (f_equal source E) as E1. pose proof (f_equal uploadedDocument E) as E2.
  pose proof (f_equal websiteUrl E) as E3. pose proof (f_equal confirmed E) as E4.
  pose proof (f_equal extractionMethod E) as E5.
  pose proof (f_equal canvasMetadata E) as E6.
  cbn in E1, E2, E3, E4, E5, E6. repeat split; congruence.
Qed.

(** The steps that the two intakes share, once the model has answered. *)
Definition take_in (response : string) (document : option UploadedDocument)
    (source0 : SourceType) (url : option string) (now : Z) : M (list loc) :=
  let* suggestions := parseLLMResponse response document source0 url in
  let* all := ParsedDeadlineState.getAllSuggestions in
  let* _ := validateSuggestions suggestions all now in
  ParsedDeadlineState.addSuggestions suggestions ;;
  ret suggestions.

(** The outcome [run] of an intake in the world [w]: the objects of [w] are
    as they were, and the store is as it was on an exception, and extended
    by the returned suggestions, all new, otherwise. *)
Definition all_or_nothing (document : option UploadedDocument) (source0 : SourceType)
    (url : option string) (w : World) (run : World * result (list loc)) : Prop :=
  let w' := fst run in
  (forall l s, heap w !! l = Some s -> heap w' !! l = Some s) /\
  match snd run with
  | Throw _ => suggestions w' = suggestions w
  | Ok refs =>
      suggestions w' = suggestions w ++ refs /\
      refs = seq (List.length (heap w)) (List.length refs) /\
      List.length (heap w') = List.length (heap w) + List.length refs /\
      Forall (fun l => exists s, heap w' !! l = Some s /\ fresh_from document source0 url s)
        refs
  end.

Lemma not_in_later_seq l n k : l < n -> ~ In l (seq n k).
Proof. intros L I. apply in_seq in I. lia. Qed.

Lemma take_in_all_or_nothing response document source0 url now w :
  all_or_nothing document source0 url w (take_in response document source0 url now w).
Proof.
  unfold take_in.
  destruct (parseLLMResponse_cases response document source0 url w)
    as [(e & R)|(text & props & items & issues & _ & _ & _ & _ & R)].
  { rewrite (bind_throw _ _ _ _ _ R). split; [auto|reflexivity]. }
  rewrite (bind_ok _ _ _ _ _ R).
  set (news := converted items (draws w) document source0 url) in *.
  set (refs := seq (List.length (heap w)) (List.length news)).
  set (w1 := extended news w).
  unfold ParsedDeadlineState.getAllSuggestions at 1. unfold bind at 1.
  destruct (validateSuggestions refs (suggestions w1) now w1) as [w2 r] eqn:V.
  pose proof (appending_validate_loop _ _ _ _ _ _ _ V) as (Sg & _ & Ln & F).
  assert (Old : forall l s, heap w !! l = Some s -> heap w2 !! l = Some s).
  { intros l s E. assert (E1 : heap w1 !! l = Some s) by (cbn; now apply lookup_app_l_Some).
    destruct (F _ _ E1) as (s' & E' & _ & Same). rewrite E', Same; [reflexivity|].
    apply not_in_later_seq. now apply lookup_lt_Some in E. }
  unfold bind at 1. rewrite V. destruct r as [i|e]; cbn [fst snd].
  - split; [exact Old|]. cbn [ParsedDeadlineState.addSuggestions bind ret fst snd
                               suggestions heap with_suggestions].
    unfold ParsedDeadlineState.addSuggestions, bind, ret. cbn [fst snd suggestions heap with_suggestions].
    rewrite Sg. subst refs. rewrite length_seq.
    split; [reflexivity|]. split; [reflexivity|].
    split; [rewrite Ln; cbn; apply length_app|].
    apply Forall_forall. intros l I. apply in_seq in I.
    assert (exists s, news !! (l - List.length (heap w)) = Some s) as (s & En).
    { apply lookup_lt_is_Some. lia. }
    assert (E1 : heap w1 !! l = Some s).
    { cbn. rewrite lookup_app_r by lia. exact En. }
    destruct (F _ _ E1) as (s' & E' & (Sb & _) & _).
    exists s'. split; [exact E'|].
    apply (same_but_warnings_fresh _ _ _ _ _ Sb).
    pose proof (converted_fresh items (draws w) document source0 url) as Fr.
    fold news in Fr. apply (Forall_lookup_1 _ _ _ _ Fr En).
  - split; [exact Old|]. cbn [fst snd]. now rewrite Sg.
Qed.

(** X10. An intake, from a document or from a website, adds to the store
    all the suggestions it returns or none: when it throws (the model
    fails, the answer holds no JSON, the payload is rejected, or validation
    stops on a value of the wrong type), the store lists what it listed
    before; when it returns, the store lists the returned suggestions after
    the earlier ones, and they are new objects, unconfirmed, marked as
    extracted by the model and carrying the source, the document or the
    address of the intake. In both cases no object that existed before is
    changed. *)
Theorem intake_all_or_nothing config llm now w :
  (forall document,
     all_or_nothing (Some document) SYLLABUS None w
       (llmExtractFromDocument document config llm now w)) /\
  (forall url,
     all_or_nothing None WEBSITE (Some url) w
       (llmExtractFromWebsite url config llm now w)).
Proof.
  split.
  - intros document. unfold llmExtractFromDocument.
    destruct (executeLLM llm _ _) as [response|e] eqn:L.
    + unfold bind at 1. unfold lift at 1.
      apply (take_in_all_or_nothing response (Some document) SYLLABUS None now w).
    + split; [auto|reflexivity].
  - intros url. unfold llmExtractFromWebsite.
    destruct (executeLLMWithURL llm _ _ _) as [response|e] eqn:L.
    + unfold bind at 1. unfold lift at 1.
      apply (take_in_all_or_nothing response None WEBSITE (Some url) now w).
    + split; [auto|reflexivity].
Qed.

End Intake.

(** ** Intake: the warnings of the new suggestions *)

Section IntakeWarnings.
Context `{Host}.

(** Objects created later do not change the verdict against stored
    suggestions. *)
Lemma verdict_extended h news s t all now :
  typed_titles h all ->
  verdict (h ++ news) s t all now = verdict h s t all now.
Proof.
  intros Ty. unfold verdict, duplicate_flag.
  rewrite (filter_ext_in (twin (h ++ news) t (id s)) (twin h t (id s))); [reflexivity|].
  intros a I. unfold typed_titles in Ty. rewrite Forall_forall in Ty.
  destruct (Ty a I) as (o & u & E & _). unfold twin.
  now rewrite (lookup_app_l_Some _ _ _ _ E), E.
Qed.

Lemma typed_titles_extended h news refs :
  typed_titles h refs -> typed_titles (h ++ news) refs.
Proof.
  unfold typed_titles. rewrite !Forall_forall. intros Ty a I.
  destruct (Ty a I) as (o & u & E & U). exists o, u.
  split; [now apply lookup_app_l_Some|exact U].
Qed.

Lemma typed_titles_new h news :
  Forall (fun s => exists t, title s = VString t /\ t <> "") news ->
  typed_titles (h ++ news) (seq (List.length h) (List.length news)).
Proof.
  intros Ty. unfold typed_titles. apply Forall_forall. intros a I. apply in_seq in I.
  assert (exists s, news !! (a - List.length h) = Some s) as (s & En).
  { apply lookup_lt_is_Some. lia. }
  destruct (Forall_lookup_1 _ _ _ _ Ty En) as (t & T & _).
  exists s, t. split; [|exact T]. rewrite lookup_app_r by lia. exact En.
Qed.

Lemma take_in_run response text props items issues document source0 url now w :
  jsonMatch response = Some text -> JSON_parse text = Some (VObject props) ->
  validateLLMResponse (VObject props) (source_label document url) = Ok issues ->
  lookup_prop "suggestions" props = VArray items ->
  typed_titles (heap w) (suggestions w) ->
  let news := converted items (draws w) document source0 url in
  let n := List.length (heap w) in
  let run := take_in response document source0 url now w in
  snd run = Ok (seq n (List.length news)) /\
  forall i s, news !! i = Some s ->
    exists t s',
      title s = VString t /\
      heap (fst run) !! (n + i) = Some s' /\
      set_warnings None s' = set_warnings None s /\
      warnings_or_empty s' = verdict (heap w) s t (suggestions w) now /\
      (In W_duplicate (warnings_or_empty s') <-> has_twin (heap w) s t (suggestions w)).
Proof.
  intros J P V L Ty news n run. subst run.
  set (refs := seq n (List.length news)). set (w1 := extended news w).
  assert (Tn : Forall (fun s => exists t, title s = VString t /\ t <> "") news).
  { unfold validateLLMResponse in V. cbn in V. rewrite L in V.
    apply (converted_titles _ _ _ _ _ _ _ _ V). }
  destruct (validate_loop_run refs (suggestions w1) now [] w1)
    as (w2 & issues2 & R & K).
  { apply seq_NoDup. }
  { apply typed_titles_new, Tn. }
  { apply typed_titles_extended, Ty. }
  pose proof (appending_validate_loop _ _ _ _ _ _ _ R) as (_ & _ & _ & F).
  assert (Run : take_in response document source0 url now w =
                (with_suggestions (suggestions w2 ++ refs) w2, Ok refs)).
  { unfold take_in.
    rewrite (bind_ok _ _ _ _ _ (parseLLMResponse_run _ _ _ _ _ _ _ _ _ J P V L)).
    fold news n refs w1.
    unfold ParsedDeadlineState.getAllSuggestions at 1. unfold bind at 1.
    unfold validateSuggestions. now rewrite (bind_ok _ _ _ _ _ R). }
  rewrite Run. cbn [fst snd heap with_suggestions].
  split; [reflexivity|].
  intros i s En. destruct (Forall_lookup_1 _ _ _ _ Tn En) as (t & T & _).
  assert (E1 : heap w1 !! (n + i) = Some s).
  { cbn. rewrite lookup_app_r by (subst n; lia).
    now replace (n + i - List.length (heap w)) with i by (subst n; lia). }
  assert (I : In (n + i) refs).
  { apply in_seq. apply lookup_lt_Some in En. lia. }
  destruct (K _ _ _ I E1 T) as (s' & E' & W').
  destruct (F _ _ E1) as (s0 & E0 & (Sb & _) & _).
  rewrite E' in E0. injection E0 as <-.
  assert (We : warnings_or_empty s = []).
  { destruct (Forall_lookup_1 _ _ _ _ (converted_fresh items (draws w) document source0 url) En)
      as (_ & Ws). unfold warnings_or_empty. now rewrite Ws. }
  rewrite We in W'. cbn [app] in W'.
  change (heap w1) with (heap w ++ news) in W'. change (suggestions w1) with (suggestions w) in W'.
  rewrite (verdict_extended _ _ _ _ _ _ Ty) in W'.
  exists t, s'. split; [exact T|]. split; [exact E'|]. split; [exact Sb|].
  split; [exact W'|]. rewrite W'. apply verdict_duplicate.
Qed.

(** X11. A document intake into a store whose titles are texts, when the
    model answers with a payload that passes structural validation, does
    not throw: it returns one new suggestion per kept entry, in order, and
    each carries exactly the warnings of the validation rules that fire for
    it (past date, far future, duplicate, low confidence, weekend, early
    morning, vague term, short notice, round date). The duplicate warning is
    decided against the suggestions stored before the intake only: a new
    suggestion is flagged exactly when one of those has the same title up
    to case under another identifier, so two entries of one payload with
    the same title do not flag each other. *)
Theorem intake_warnings document config llm now response text props items issues w :
  executeLLM llm (createDocumentExtractionPrompt document config) (llmConfig_of config)
    = Ok response ->
  jsonMatch response = Some text -> JSON_parse text = Some (VObject props) ->
  validateLLMResponse (VObject props) (filename document) = Ok issues ->
  lookup_prop "suggestions" props = VArray items ->
  typed_titles (heap w) (suggestions w) ->
  let news := converted items (draws w) (Some document) SYLLABUS None in
  let n := List.length (heap w) in
  let run := llmExtractFromDocument document config llm now w in
  snd run = Ok (seq n (List.length news)) /\
  forall i s, news !! i = Some s ->
    exists t s',
      title s = VString t /\
      heap (fst run) !! (n + i) = Some s' /\
      set_warnings None s' = set_warnings None s /\
      warnings_or_empty s' = verdict (heap w) s t (suggestions w) now /\
      (In W_duplicate (warnings_or_empty s') <-> has_twin (heap w) s t (suggestions w)).
Proof.
  intros Lm J P V L Ty. unfold llmExtractFromDocument. rewrite Lm.
  unfold bind at 1. unfold lift at 1.
  apply (take_in_run response text props items issues (Some document) SYLLABUS None now w
           J P); [|exact L|exact Ty].
  unfold source_label. cbn [option_map].
  destruct (String.eqb (filename document) "") eqn:Fe; [|exact V].
  apply String.eqb_eq in Fe. now rewrite <- Fe.
Qed.

End IntakeWarnings.

(** ** Refinement: the object passed in and the object returned *)

Section RefineFrame.
Context `{Host}.

(** X12. A refinement that throws changes nothing at all. One that returns
    hands back a new object and never writes to the object it was given,
    nor to any other older object: the new object has the identifier, the
    source, the document and the address of the old one and its warnings
    followed by "Refined with user feedback", while the confirmation flag
    and the Canvas metadata are absent and the extraction method is the
    language model, whatever they were on the old one. The store keeps its
    length, and at least one identifier was drawn. *)
Theorem refine_frame l feedback config llm w :
  let run := refineWithFeedback l feedback config llm w in
  match snd run with
  | Throw _ => fst run = w
  | Ok r =>
      r = List.length (heap w) /\
      (forall x s, heap w !! x = Some s -> heap (fst run) !! x = Some s) /\
      List.length (suggestions (fst run)) = List.length (suggestions w) /\
      draws w < draws (fst run) /\
      exists s s',
        heap w !! l = Some s /\ heap (fst run) !! r = Some s' /\
        id s' = id s /\ source s' = source s /\
        uploadedDocument s' = uploadedDocument s /\
        websiteUrl s' = nonempty (websiteUrl s) /\
        warnings s' = Some (warnings_or_empty s ++ ["Refined with user feedback"]) /\
        confirmed s' = None /\ canvasMetadata s' = None /\
        extractionMethod s' = Some LLM
  end.
Proof.
  intros run. subst run.
  destruct (heap w !! l) as [s|] eqn:E.
  2:{ assert (Run : refineWithFeedback l feedback config llm w = (w, Throw InvalidReference))
        by (unfold refineWithFeedback, bind, deref; now rewrite E).
      now rewrite Run. }
  destruct (createRefinementPrompt s feedback config) as [prompt|e] eqn:Pr.
  2:{ assert (Run : refineWithFeedback l feedback config llm w = (w, Throw e)).
      { unfold refineWithFeedback. rewrite (bind_ok _ _ _ _ _ (deref_ok _ _ _ E)).
        unfold bind, lift. now rewrite Pr. }
      now rewrite Run. }
  destruct (executeLLM llm prompt (llmConfig_of config)) as [response|e] eqn:L.
  2:{ assert (Run : refineWithFeedback l feedback config llm w = (w, Throw e)).
      { unfold refineWithFeedback. rewrite (bind_ok _ _ _ _ _ (deref_ok _ _ _ E)).
        unfold bind, lift. now rewrite Pr, L. }
      now rewrite Run. }
  destruct (parseLLMResponse_cases response (uploadedDocument s) (source s) (websiteUrl s) w)
    as [(e & R)|(text & props & items & issues & J & P & V & Sg & R)].
  { assert (Run : refineWithFeedback l feedback config llm w = (w, Throw e)).
    { unfold refineWithFeedback. rewrite (bind_ok _ _ _ _ _ (deref_ok _ _ _ E)).
      unfold bind at 1. unfold lift at 1. rewrite Pr.
      unfold bind at 1. unfold lift at 1. rewrite L.
      now rewrite (bind_throw _ _ _ _ _ R). }
    now rewrite Run. }
  destruct (List.find is_candidate items) as [item|] eqn:F.
  - destruct (refineWithFeedback_run l s feedback config llm prompt response text props
                items issues _ item w E Pr L J P V Sg F) as (Run & Er & Old).
    rewrite Run. cbn [fst snd]. rewrite updateSuggestion_heap.
    split; [reflexivity|]. split; [|split; [|split]].
    + intros x s0 E0. rewrite Old; [exact E0|]. now apply lookup_lt_Some in E0.
    + unfold updateSuggestion. destruct (findIndex _ _); cbn [fst suggestions with_suggestions];
        [now rewrite length_insert|reflexivity].
    + unfold updateSuggestion. destruct (findIndex _ _); cbn [fst draws with_suggestions];
        destruct (converted_first items item (draws w) (uploadedDocument s) (source s)
                    (websiteUrl s) F) as (more & ->); cbn; lia.
    + exists s, (refined s item (draws w)). split; [reflexivity|]. split; [exact Er|].
      repeat split.
  - assert (Run : refineWithFeedback l feedback config llm w =
                  (w, Throw (Error "No refined suggestions returned from LLM"))).
    { unfold refineWithFeedback. rewrite (bind_ok _ _ _ _ _ (deref_ok _ _ _ E)).
      unfold bind at 1. unfold lift at 1. rewrite Pr.
      unfold bind at 1. unfold lift at 1. rewrite L.
      rewrite (bind_ok _ _ _ _ _ R), (converted_none _ _ _ _ _ F).
      cbn [List.length seq]. now rewrite extended_nil. }
    now rewrite Run.
Qed.

End RefineFrame.

(** ** Confirmation *)

Lemma updateSuggestion_stored sid l x w :
  heap w !! l = Some x -> id x = sid -> stored sid w <> None ->
  stored sid (fst (updateSuggestion sid l w)) = Some x.
Proof.
  intros E I N. unfold updateSuggestion.
  destruct (findIndex (has_id (heap w) sid) (suggestions w)) as [i|] eqn:Fi.
  - unfold stored. cbn [fst heap suggestions with_suggestions].
    rewrite (find_insert_first _ _ _ _ Fi); [exact E|].
    unfold has_id. rewrite E, I. apply String.eqb_refl.
  - destruct N. now apply stored_None, find_None_findIndex.
Qed.

Section ConfirmOnce.
Context `{Host}.

(** The course of a suggestion without Canvas metadata whose provenance is
    the text [p]. *)
Definition course_of_provenance (p : string) : value :=
  VString (if includes p "6.1040" then "6.1040" else "Unknown Course").

Lemma extractCourse_of_provenance s p :
  canvasMetadata s = None -> provenance s = VString p ->
  extractCourseFromSuggestion s = Ok (course_of_provenance p).
Proof.
  intros C P. unfold extractCourseFromSuggestion, course_of_provenance.
  rewrite C, P. cbn [ToBoolean includes_method].
  destruct (String.eqb_spec p "") as [->|N]; cbn [negb rbind]; [reflexivity|].
  now destruct (includes p "6.1040").
Qed.

(** X13. Confirming an unconfirmed suggestion that has a non-empty text
    title, no Canvas metadata and a text provenance, whatever its due date
    (an invalid date passes the guard as well): the call returns the
    title, due date and source of the suggestion, the user, and as course
    "6.1040" when the provenance mentions it and "Unknown Course"
    otherwise. Only the confirmation flag of this object changes; the
    store keeps its length, its record of the identifier (when it has one)
    is the confirmed object, the suggestion is no longer listed as
    unconfirmed, and a second confirmation fails and changes nothing. *)
Theorem confirm_once l s t p user w :
  heap w !! l = Some s -> is_confirmed s = false ->
  title s = VString t -> t <> "" ->
  canvasMetadata s = None -> provenance s = VString p ->
  let w' := fst (confirm l user w) in
  snd (confirm l user w) =
    Ok {| course := course_of_provenance p; conf_title := VString t;
          conf_due := due s; conf_source := source s; addedBy := user |} /\
  heap w' = <[l := set_confirmed (Some true) s]> (heap w) /\
  List.length (suggestions w') = List.length (suggestions w) /\
  (stored (id s) w <> None -> stored (id s) w' = Some (set_confirmed (Some true) s)) /\
  (forall unconfirmed,
     snd (getUnconfirmedSuggestions w') = Ok unconfirmed -> ~ In l unconfirmed) /\
  confirm l user w' = (w', Throw (Error "Suggestion is already confirmed")).
Proof.
  intros E C T Ne Cm P w'. subst w'.
  assert (Tb : ToBoolean (title s) = true).
  { rewrite T. cbn. apply negb_true_iff. now apply String.eqb_neq. }
  rewrite (confirm_run _ _ _ _ E C Tb). cbn [fst snd].
  set (s' := set_confirmed (Some true) s).
  assert (Ec : extractCourseFromSuggestion s' = Ok (course_of_provenance p))
    by now apply extractCourse_of_provenance.
  rewrite Ec, T.
  pose proof (heap_upd_same l s' s w E) as E'.
  set (w1 := upd l s' w) in *.
  assert (Hp : heap (fst (updateSuggestion (id s) l w1)) = <[l := s']> (heap w))
    by now rewrite updateSuggestion_heap.
  assert (El : heap (fst (updateSuggestion (id s) l w1)) !! l = Some s')
    by now rewrite updateSuggestion_heap.
  split; [reflexivity|]. split; [exact Hp|]. split; [|split; [|split]].
  - unfold updateSuggestion. destruct (findIndex _ _);
      cbn [fst suggestions with_suggestions]; [now rewrite length_insert|reflexivity].
  - intros St. apply (updateSuggestion_stored (id s) l s' w1 E' eq_refl).
    intros N. apply St. apply stored_None in N. apply stored_None.
    rewrite <- N. subst w1. cbn [suggestions upd with_heap]. symmetry.
    apply find_ext_pointwise. intros l'. now apply (has_id_upd _ _ _ _ _ _ E).
  - intros us [= <-] I. apply filter_In in I as (_ & I). now rewrite El in I.
  - now apply (confirm_already_confirmed _ s').
Qed.

End ConfirmOnce.

(** ** The Canvas feed *)

Section Canvas.
Context `{Host}.

(** What [JSON.parse] makes of the text that [JSON.stringify] writes for an
    assignment of the feed. *)
Definition assignment_value (item : CanvasAssignment) : value :=
  VObject [("title", VString (canvas_title item));
           ("due_date", VString (due_date item));
           ("course_name", VString (course_name item))].

Definition problem_set_3 : CanvasAssignment :=
  {| canvas_title := "Problem Set 3"; due_date := "2024-12-15T23:59:59Z";
     course_name := "6.1040" |}.
Definition final_project_item : CanvasAssignment :=
  {| canvas_title := "Final Project"; due_date := "2024-12-20T17:00:00Z";
     course_name := "6.1040" |}.

(** The confirmation of a suggestion made from [item]. *)
Definition canvas_confirmation (item : CanvasAssignment) (user : User) : Confirmation :=
  {| course := VString (course_name item); conf_title := VString (canvas_title item);
     conf_due := Date_parse (due_date item); conf_source := CANVAS; addedBy := user |}.

Lemma parseFromCanvas_run user w :
  let n := List.length (heap w) in
  exists c1 c2,
    parseFromCanvas user w =
      ({| heap := (heap w ++ [c1]) ++ [c2]; suggestions := suggestions w ++ [n; S n];
          draws := S (S (draws w)) |}, Ok [n; S n]) /\
    confirmed c1 = None /\ confirmed c2 = None /\
    title c1 = VString "Problem Set 3" /\ title c2 = VString "Final Project" /\
    due c1 = Date_parse "2024-12-15T23:59:59Z" /\
    due c2 = Date_parse "2024-12-20T17:00:00Z" /\
    source c1 = CANVAS /\ source c2 = CANVAS /\
    canvasMetadata c1 = Some (stringify_assignment problem_set_3) /\
    canvasMetadata c2 = Some (stringify_assignment final_project_item) /\
    warnings c1 = None /\ warnings c2 = None.
Proof.
  intros n. eexists _, _. split.
  - unfold parseFromCanvas, mockCanvasData, parseFromCanvas_map, bind, generateId, alloc,
      ParsedDeadlineState.addSuggestions, ret.
    cbn [heap suggestions draws with_heap with_draws with_suggestions].
    rewrite length_app. cbn [List.length]. rewrite Nat.add_1_r. reflexivity.
  - repeat split.
Qed.

Lemma confirm_canvas l c item user w :
  heap w !! l = Some c -> is_confirmed c = false ->
  title c = VString (canvas_title item) -> canvas_title item <> "" ->
  due c = Date_parse (due_date item) -> source c = CANVAS ->
  canvasMetadata c = Some (stringify_assignment item) ->
  course_name item <> "" ->
  JSON_parse (stringify_assignment item) = Some (assignment_value item) ->
  snd (confirm l user w) = Ok (canvas_confirmation item user).
Proof.
  intros E C T Nt D Sc Cm Nc P.
  assert (Tb : ToBoolean (title c) = true).
  { rewrite T. cbn. apply negb_true_iff. now apply String.eqb_neq. }
  rewrite (confirm_run _ _ _ _ E C Tb). cbn [snd].
  unfold extractCourseFromSuggestion. cbn [canvasMetadata set_confirmed]. rewrite Cm.
  assert (Ns : String.eqb (stringify_assignment item) "" = false) by reflexivity.
  rewrite Ns, P. cbn [assignment_value Get lookup_prop String.eqb Ascii.eqb Bool.eqb rbind].
  unfold or_else. cbn [ToBoolean].
  destruct (String.eqb_spec (course_name item) "") as [Z|_]; [now destruct Nc|].
  cbn [negb]. unfold canvas_confirmation. now rewrite T, D, Sc.
Qed.

(** X14. The Canvas intake adds its two assignments to the store, after
    what the store listed, as new unconfirmed objects without warnings (no
    validation pass runs on them), and touches no older object; a second
    intake adds them again. When the engine's [JSON.parse] reads back what
    [JSON.stringify] wrote for the two assignments, confirming either new
    suggestion returns its title, its due date, the source CANVAS and the
    course of the feed, "6.1040". *)
Theorem canvas_then_confirm user confirmer w :
  JSON_parse (stringify_assignment problem_set_3) = Some (assignment_value problem_set_3) ->
  JSON_parse (stringify_assignment final_project_item) =
    Some (assignment_value final_project_item) ->
  let w' := fst (parseFromCanvas user w) in
  let n := List.length (heap w) in
  snd (parseFromCanvas user w) = Ok [n; S n] /\
  suggestions w' = suggestions w ++ [n; S n] /\
  (forall l s, heap w !! l = Some s -> heap w' !! l = Some s) /\
  (exists c1 c2, heap w' !! n = Some c1 /\ heap w' !! S n = Some c2 /\
     warnings c1 = None /\ warnings c2 = None /\
     confirmed c1 = None /\ confirmed c2 = None) /\
  snd (confirm n confirmer w') = Ok (canvas_confirmation problem_set_3 confirmer) /\
  snd (confirm (S n) confirmer w') = Ok (canvas_confirmation final_project_item confirmer) /\
  List.length (suggestions (fst (parseFromCanvas user w'))) =
    List.length (suggestions w) + 4.
Proof.
  intros P1 P2 w' n. subst w'.
  destruct (parseFromCanvas_run user w)
    as (c1 & c2 & Run & C1 & C2 & T1 & T2 & D1 & D2 & S1 & S2 & M1 & M2 & W1 & W2).
  fold n in Run. rewrite Run. cbn [fst snd heap suggestions].
  assert (E1 : ((heap w ++ [c1]) ++ [c2]) !! n = Some c1).
  { rewrite <- app_assoc. now apply list_lookup_middle. }
  assert (E2 : ((heap w ++ [c1]) ++ [c2]) !! S n = Some c2).
  { apply list_lookup_middle. rewrite length_app. cbn. subst n. lia. }
  split; [reflexivity|]. split; [reflexivity|]. split; [|split; [|split; [|split]]].
  - intros l s E. rewrite <- app_assoc. now apply lookup_app_l_Some.
  - exists c1, c2. repeat split; assumption.
  - apply (confirm_canvas n c1 problem_set_3); try assumption; try discriminate.
    unfold is_confirmed. now rewrite C1.
  - apply (confirm_canvas (S n) c2 final_project_item); try assumption; try discriminate.
    unfold is_confirmed. now rewrite C2.
  - destruct (parseFromCanvas_run user
                {| heap := (heap w ++ [c1]) ++ [c2]; suggestions := suggestions w ++ [n; S n];
                   draws := S (S (draws w)) |}) as (d1 & d2 & -> & _).
    cbn [fst suggestions]. rewrite !length_app. cbn [List.length]. lia.
Qed.

End Canvas.

(** ** Structural validation: what a clean verdict means *)

Section CleanVerdict.
Context `{Host}.

(** An entry that structural validation has nothing to say about: the
    title is a non-empty text without "tbd" and "soon", the due value is
    truthy and reads as a valid date, and the confidence is absent or a
    number that is neither below 0 nor above 1. *)
Definition clean_entry (item : value) : Prop :=
  exists t,
    prop item "title" = VString t /\ t <> "" /\
    includes (toLowerCase t) "tbd" = false /\
    includes (toLowerCase t) "soon" = false /\
    ToBoolean (prop item "due") = true /\
    Date_of_value (prop item "due") <> None /\
    (prop item "confidence" = VUndefined \/
     exists c, prop item "confidence" = VNumber c /\
               PrimFloat.ltb c 0 = false /\ PrimFloat.ltb 1 c = false).

Lemma clean_entry_readable item : clean_entry item -> readable item = true.
Proof. intros (t & T & _). now destruct item. Qed.

Lemma validate_entry_clean item index issues :
  clean_entry item -> validate_entry item index issues = Ok issues.
Proof.
  intros C. pose proof (clean_entry_readable _ C) as R.
  destruct C as (t & T & Ne & Tbd & Soon & Du & Dv & Cf).
  unfold validate_entry. repeat (rewrite Get_readable by exact R). cbn [rbind].
  rewrite T, Du. cbn [ToBoolean typeof_string negb orb].
  apply String.eqb_neq in Ne. rewrite Ne. cbn [negb].
  unfold title_mentions. cbn [ToBoolean]. rewrite Ne. cbn [negb toLowerCase_method rbind].
  rewrite Tbd, Soon.
  destruct (Date_of_value (prop item "due")) as [d|]; [|now destruct Dv].
  cbn [isNaN_getTime].
  destruct Cf as [->|(c & -> & Lo & Hi)]; [reflexivity|].
  unfold value_lt, value_gt. cbn [typeof_number negb orb ToNumber]. now rewrite Lo, Hi.
Qed.

Lemma validate_entry_inv item index issues issues' :
  validate_entry item index issues = Ok issues' ->
  List.length issues <= List.length issues' /\
  (List.length issues' = List.length issues -> clean_entry item).
Proof.
  intros V. pose proof (validate_entry_readable _ _ _ _ V) as R.
  unfold validate_entry in V. repeat (rewrite Get_readable in V by exact R).
  cbn [rbind] in V. unfold clean_entry.
  set (title := prop item "title") in *. set (due := prop item "due") in *.
  set (confidence := prop item "confidence") in *.
  set (i1 := if negb (ToBoolean title) || negb (typeof_string title) then _ else issues) in V.
  set (i2 := if negb (ToBoolean due) then _ else _) in V.
  set (i3 := match confidence with VUndefined => i2 | _ => _ end) in V.
  destruct (title_mentions title "tbd") as [tbd|] eqn:M1; [|discriminate].
  cbn [rbind] in V.
  destruct (title_mentions title "soon") as [soon|] eqn:M2; [|discriminate].
  cbn [rbind] in V. injection V as <-.
  assert (L1 : List.length issues <= List.length i1 /\
               (List.length i1 = List.length issues ->
                exists t, title = VString t /\ t <> "")).
  { subst i1. destruct title as [| |[|]|n|t| |]; cbn [ToBoolean typeof_string negb orb];
      rewrite ?length_app; cbn [List.length]; try (split; lia).
    - destruct (negb (number_falsy n)); cbn [negb orb]; rewrite ?length_app;
        cbn [List.length]; split; lia.
    - destruct (String.eqb_spec t "") as [->|N]; cbn [negb orb]; rewrite ?length_app;
        cbn [List.length]; [split; lia|]. split; [lia|]. intros _. now exists t. }
  assert (L2 : List.length i1 <= List.length i2 /\
               (List.length i2 = List.length i1 ->
                ToBoolean due = true /\ Date_of_value due <> None)).
  { subst i2. destruct (ToBoolean due); cbn [negb]; rewrite ?length_app; cbn [List.length];
      [|split; lia].
    destruct (Date_of_value due); cbn [isNaN_getTime]; rewrite ?length_app;
      cbn [List.length]; [|split; lia]. split; [lia|]. intros _. split; [reflexivity|discriminate]. }
  assert (L3 : List.length i2 <= List.length i3 /\
               (List.length i3 = List.length i2 ->
                confidence = VUndefined \/
                exists c, confidence = VNumber c /\
                          PrimFloat.ltb c 0 = false /\ PrimFloat.ltb 1 c = false)).
  { subst i3. destruct confidence as [| |b|c|u|a|o];
      cbn [typeof_number negb orb]; rewrite ?length_app; cbn [List.length];
      try (split; lia).
    - split; [lia|]. intros _. now left.
    - unfold value_lt, value_gt. cbn [ToNumber].
      destruct (PrimFloat.ltb c 0) eqn:Lo, (PrimFloat.ltb 1 c) eqn:Hi; cbn [orb];
        rewrite ?length_app; cbn [List.length]; try (split; lia).
      split; [lia|]. intros _. right. now exists c. }
  set (i4 := if tbd then _ else i3). 
  assert (L4 : List.length i3 <= List.length i4 /\
               (List.length i4 = List.length i3 -> tbd = false)).
  { subst i4. destruct tbd; rewrite ?length_app; cbn [List.length]; split; (lia || reflexivity). }
  assert (L5 : List.length i4 <= List.length (if soon then i4 ++ [HallucinatedSoon index] else i4) /\
               (List.length (if soon then i4 ++ [HallucinatedSoon index] else i4) = List.length i4 ->
                soon = false)).
  { destruct soon; rewrite ?length_app; cbn [List.length]; split; (lia || reflexivity). }
  split; [lia|]. intros Len.
  destruct L1 as (G1 & K1), L2 as (G2 & K2), L3 as (G3 & K3), L4 as (G4 & K4),
    L5 as (G5 & K5).
  destruct K1 as (t & T & Ne); [lia|]. destruct K2 as (Du & Dv); [lia|].
  specialize (K3 ltac:(lia)). specialize (K4 ltac:(lia)). specialize (K5 ltac:(lia)).
  subst tbd soon. exists t. rewrite T in M1, M2.
  unfold title_mentions in M1, M2. cbn [ToBoolean] in M1, M2.
  apply String.eqb_neq in Ne. rewrite Ne in M1, M2.
  cbn [negb toLowerCase_method rbind] in M1, M2.
  injection M1 as M1. injection M2 as M2. apply String.eqb_neq in Ne.
  repeat split; assumption.
Qed.

Lemma validate_entries_clean items :
  forall index issues,
  Forall clean_entry items -> validate_entries items index issues = Ok issues.
Proof.
  induction items as [|item rest IH]; intros index issues C; [reflexivity|].
  inversion C as [|? ? C1 C2]; subst. cbn [validate_entries].
  rewrite (validate_entry_clean _ _ _ C1). cbn [rbind]. now apply IH.
Qed.

Lemma validate_entries_inv items :
  forall index issues issues',
  validate_entries items index issues = Ok issues' ->
  List.length issues <= List.length issues' /\
  (List.length issues' = List.length issues -> Forall clean_entry items).
Proof.
  induction items as [|item rest IH]; intros index issues issues' V.
  - injection V as <-. split; [lia|]. constructor.
  - cbn [validate_entries] in V.
    destruct (validate_entry item index issues) as [i1|] eqn:V1; [|discriminate].
    cbn [rbind] in V. destruct (validate_entry_inv _ _ _ _ V1) as (G1 & K1).
    destruct (IH _ _ _ V) as (G & K). split; [lia|].
    intros Len. constructor; [apply K1|apply K]; lia.
Qed.

(** X15. Structural validation returns without an issue exactly for a
    payload that is an object whose candidate list is a list of clean
    entries: every title a non-empty text without "tbd" and "soon" in any
    case, every due value truthy and readable as a date, every confidence
    absent or a number that is not below 0 and not above 1. Any other
    payload throws or yields at least one issue. *)
Theorem clean_verdict parsed label :
  validateLLMResponse parsed label = Ok [] <->
  exists props items,
    parsed = VObject props /\ lookup_prop "suggestions" props = VArray items /\
    Forall clean_entry items.
Proof.
  split.
  - intros V. destruct (validateLLMResponse_passes _ _ _ V) as (props & items & -> & L & _).
    exists props, items. split; [reflexivity|]. split; [exact L|].
    unfold validateLLMResponse in V. cbn in V. rewrite L in V.
    now apply (validate_entries_inv _ _ _ _ V).
  - intros (props & items & -> & L & C).
    unfold validateLLMResponse. cbn. rewrite L. now apply validate_entries_clean.
Qed.

End CleanVerdict.

(** ** The JSON text inside an answer *)

(** The character [c] does not occur in [s]. *)
Fixpoint lacks (c : ascii) (s : string) : bool :=
  match s with
  | EmptyString => true
  | String x rest => negb (Ascii.eqb x c) && lacks c rest
  end.

Lemma upto_last_brace_None s : upto_last_brace s = None <-> lacks "}" s = true.
Proof.
  induction s as [|c rest IH]; cbn [upto_last_brace lacks]; [tauto|].
  destruct (upto_last_brace rest) as [p|].
  - split; [discriminate|]. intros L. apply andb_prop in L as (_ & L).
    apply IH in L. discriminate.
  - destruct (Ascii.eqb c "}"); cbn [negb andb]; [split; discriminate|].
    split; [intros _; now apply IH|reflexivity].
Qed.

Lemma brace_then (after : string) : ("}" ++ after)%string = String "}" after.
Proof. reflexivity. Qed.

Lemma upto_last_brace_app middle after :
  lacks "}" after = true ->
  upto_last_brace (middle ++ "}" ++ after) = Some (middle ++ "}")%string.
Proof.
  intros L. induction middle as [|c middle IH].
  - rewrite !append_nil, brace_then. cbn [upto_last_brace].
    now rewrite (proj2 (upto_last_brace_None after) L).
  - rewrite (append_cons c middle), (append_cons c middle "}"). cbn [upto_last_brace].
    now rewrite IH.
Qed.

Lemma upto_last_brace_Some s p :
  upto_last_brace s = Some p <->
  exists middle after,
    s = (middle ++ "}" ++ after)%string /\ p = (middle ++ "}")%string /\
    lacks "}" after = true.
Proof.
  split.
  - revert p. induction s as [|c rest IH]; intros p; cbn [upto_last_brace]; [discriminate|].
    destruct (upto_last_brace rest) as [p'|] eqn:U.
    + destruct (IH p' eq_refl) as (middle & after & -> & -> & L).
      intros [= <-]. now exists (String c middle), after.
    + apply upto_last_brace_None in U.
      destruct (Ascii.eqb_spec c "}") as [->|N]; [|discriminate].
      intros [= <-]. now exists EmptyString, rest.
  - intros (middle & after & -> & -> & L). now apply upto_last_brace_app.
Qed.

Lemma jsonMatch_app before middle after :
  lacks "{" before = true -> lacks "}" after = true ->
  jsonMatch (before ++ "{" ++ middle ++ "}" ++ after) =
    Some ("{" ++ middle ++ "}")%string.
Proof.
  intros Lb La. induction before as [|c before IH].
  - rewrite append_nil. change ("{" ++ middle ++ "}" ++ after)%string
      with (String "{" (middle ++ "}" ++ after)).
    cbn [jsonMatch]. rewrite (upto_last_brace_app _ _ La). reflexivity.
  - cbn [lacks] in Lb. apply andb_prop in Lb as (Nc & Lb).
    rewrite (append_cons c before). cbn [jsonMatch].
    apply negb_true_iff in Nc. rewrite Nc. now apply IH.
Qed.

(** X16. The JSON text taken from an answer of the model runs from the
    first opening brace to the last closing brace after it: the answer is
    some text without an opening brace, then the match, then some text
    without a closing brace. Prose around the JSON is dropped only under
    these conditions: a brace in the prose before or after becomes part of
    the match. Without an opening brace that has a closing brace after it
    there is no match. *)
Theorem jsonMatch_spec response text :
  jsonMatch response = Some text <->
  exists before middle after,
    response = (before ++ "{" ++ middle ++ "}" ++ after)%string /\
    text = ("{" ++ middle ++ "}")%string /\
    lacks "{" before = true /\ lacks "}" after = true.
Proof.
  split.
  - revert text. induction response as [|c rest IH]; intros text; cbn [jsonMatch];
      [discriminate|].
    destruct (Ascii.eqb_spec c "{") as [->|N].
    + destruct (upto_last_brace rest) as [p|] eqn:U; [|discriminate].
      intros [= <-]. apply upto_last_brace_Some in U as (middle & after & -> & -> & L).
      now exists EmptyString, middle, after.
    + intros J. apply IH in J as (before & middle & after & -> & -> & Lb & La).
      exists (String c before), middle, after. repeat split; try assumption.
      cbn [lacks]. rewrite Lb. apply Ascii.eqb_neq in N. now rewrite N.
  - intros (before & middle & after & -> & -> & Lb & La). now apply jsonMatch_app.
Qed.

(** ** The service as a whole: sequences of calls *)

Definition text_titled (s : ParsedDeadlineSuggestion) : Prop :=
  exists t, title s = VString t.

(** No reference of the store dangles, and every object has a text as
    title. *)
Definition sound (w : World) : Prop :=
  well_formed w /\ Forall text_titled (heap w).

(** [new ParsedDeadlineSuggestions()] *)
Definition new_service : World := {| heap := []; suggestions := []; draws := 0 |}.

Lemma sound_upd l x w : sound w -> text_titled x -> sound (upd l x w).
Proof.
  intros (Wf & Ty) Tx. split.
  - unfold well_formed in *. cbn. now rewrite length_insert.
  - cbn. now apply Forall_insert.
Qed.

Lemma sound_updateSuggestion sid l w :
  sound w -> l < List.length (heap w) -> sound (fst (updateSuggestion sid l w)).
Proof.
  intros (Wf & Ty) L. unfold updateSuggestion.
  destruct (findIndex _ _); cbn [fst]; [|now split].
  split; [|exact Ty]. unfold well_formed in *. cbn. now apply Forall_insert.
Qed.

Lemma sound_extended news w :
  sound w -> Forall text_titled news -> sound (extended news w).
Proof.
  intros (Wf & Ty) Tn. split.
  - unfold well_formed in *. cbn. rewrite length_app.
    eapply Forall_impl; [|exact Wf]. cbn. intros r Lr. lia.
  - cbn. apply Forall_app. now split.
Qed.

Lemma sound_annotates w w' : annotates w w' -> sound w -> sound w'.
Proof.
  intros (Sg & _ & F) (Wf & Ty). split.
  - unfold well_formed in *. rewrite Sg. pose proof F as Fl.
    apply Forall2_length in Fl. rewrite <- Fl. exact Wf.
  - clear Sg Wf. induction F as [|s s' h h' R F IH]; [constructor|].
    inversion Ty as [|? ? (t & T) Ty']; subst. constructor; [|now apply IH].
    exists t. rewrite <- T. exact (f_equal title R).
Qed.

Lemma sound_add refs w :
  sound w -> Forall (fun r => r < List.length (heap w)) refs ->
  sound (with_suggestions (suggestions w ++ refs) w).
Proof.
  intros (Wf & Ty) Fr. split; [|exact Ty].
  unfold well_formed in *. cbn. apply Forall_app. now split.
Qed.

Lemma sound_titled l s w : sound w -> heap w !! l = Some s -> text_titled s.
Proof. intros (_ & Ty) E. apply (Forall_lookup_1 _ _ _ _ Ty E). Qed.

Lemma sound_typed w : sound w -> typed_titles (heap w) (suggestions w).
Proof.
  intros (Wf & Ty). unfold typed_titles, well_formed in *.
  eapply Forall_impl; [|exact Wf]. cbn. intros r Lr.
  destruct (lookup_lt_is_Some_2 _ _ Lr) as (s & E).
  destruct (Forall_lookup_1 _ _ _ _ Ty E) as (t & T). now exists s, t.
Qed.

Lemma apply_updates_titled u s : text_titled s -> text_titled (apply_updates u s).
Proof.
  intros (t & T). unfold apply_updates, text_titled.
  destruct u as [[t'|] [?|] [?|] [?|]]; cbn; eauto.
Qed.

Lemma find_ext_in {A} (p p' : A -> bool) xs :
  (forall x, In x xs -> p x = p' x) -> List.find p xs = List.find p' xs.
Proof.
  induction xs as [|y ys IH]; intros E; cbn; [reflexivity|].
  rewrite (E y (or_introl eq_refl)), IH; [reflexivity|].
  intros x I. apply E. now right.
Qed.

(** A confirmed record stays the record of its identifier when objects and
    store entries are added after the existing ones. *)
Lemma confirmed_in_store_grow sid w h' more d :
  well_formed w -> (forall l s, heap w !! l = Some s -> h' !! l = Some s) ->
  confirmed_in_store sid w ->
  confirmed_in_store sid {| heap := h'; suggestions := suggestions w ++ more; draws := d |}.
Proof.
  intros Wf Old (s & St & C). exists s. split; [|exact C].
  unfold stored in *. cbn [heap suggestions]. rewrite find_app_local.
  rewrite (find_ext_in (has_id h' sid) (has_id (heap w) sid)).
  - destruct (List.find (has_id (heap w) sid) (suggestions w)) as [l|]; [|discriminate].
    now apply Old.
  - intros r I. unfold well_formed in Wf. rewrite Forall_forall in Wf.
    destruct (lookup_lt_is_Some_2 _ _ (Wf r I)) as (x & E).
    unfold has_id. now rewrite E, (Old _ _ E).
Qed.

Section Service.
Context `{Host}.

(** The calls of the service that change its state. *)
Inductive Call : Type :=
| CallCanvas (user : User)
| CallDocument (document : UploadedDocument) (config : ExtractionConfig)
    (llm : GeminiLLM) (now : Z)
| CallWebsite (url : string) (config : ExtractionConfig) (llm : GeminiLLM) (now : Z)
| CallRefine (suggestion : loc) (feedback : string) (config : ExtractionConfig)
    (llm : GeminiLLM)
| CallEdit (suggestionId : string) (updates : Editing.Updates)
| CallTitle (suggestionId newTitle : string)
| CallDate (suggestionId : string) (newDate : Date)
| CallTime (suggestionId newTime : string)
| CallBatch (suggestionIds : list string) (timeRule : string)
| CallConfirm (suggestion : loc) (user : User)
| CallClear.

(** The state after a call, whether it returns or throws. *)
Definition perform (c : Call) (w : World) : World :=
  match c with
  | CallCanvas user => fst (parseFromCanvas user w)
  | CallDocument document config llm now =>
      fst (llmExtractFromDocument document config llm now w)
  | CallWebsite url config llm now => fst (llmExtractFromWebsite url config llm now w)
  | CallRefine suggestion feedback config llm =>
      fst (refineWithFeedback suggestion feedback config llm w)
  | CallEdit suggestionId updates => fst (editSuggestion suggestionId updates w)
  | CallTitle suggestionId newTitle => fst (updateSuggestionTitle suggestionId newTitle w)
  | CallDate suggestionId newDate => fst (updateSuggestionDate suggestionId newDate w)
  | CallTime suggestionId newTime => fst (updateSuggestionTime suggestionId newTime w)
  | CallBatch suggestionIds timeRule => fst (batchUpdateTiming suggestionIds timeRule w)
  | CallConfirm suggestion user => fst (confirm suggestion user w)
  | CallClear => fst (clearSuggestions w)
  end.

Definition perform_all (calls : list Call) (w : World) : World :=
  List.fold_left (fun w c => perform c w) calls w.

(** The calls other than refinement and clearing. *)
Definition gentle (c : Call) : bool :=
  match c with
  | CallRefine _ _ _ _ | CallClear => false
  | _ => true
  end.

(** *** The worlds after each call *)

Lemma then_ret_world {A B} (m : M A) (f : A -> B) w :
  fst ((let* a := m in ret (f a)) w) = fst (m w).
Proof. unfold bind, ret. now destruct (m w) as [w' [a|e]]. Qed.

Lemma edit_world sid u w :
  fst (editSuggestion sid u w) = w \/
  exists l s, List.find (has_id (heap w) sid) (suggestions w) = Some l /\
              heap w !! l = Some s /\
              fst (editSuggestion sid u w) = upd l (apply_updates u s) w.
Proof.
  destruct (List.find (has_id (heap w) sid) (suggestions w)) as [l|] eqn:F.
  - destruct (List.find_some _ _ F) as (_ & Hid).
    destruct (has_id_true _ _ _ Hid) as (s & E & _).
    right. exists l, s. now rewrite (editSuggestion_run _ _ _ u _ F E).
  - left. unfold editSuggestion, getSuggestionById, bind. now rewrite F.
Qed.

Lemma time_world sid newTime w :
  fst (updateSuggestionTime sid newTime w) = w \/
  exists l s u, List.find (has_id (heap w) sid) (suggestions w) = Some l /\
                heap w !! l = Some s /\
                fst (updateSuggestionTime sid newTime w) = upd l (apply_updates u s) w.
Proof.
  destruct (Editing.timeMatch newTime) as [[[hours minutes] period]|] eqn:T;
    [|left; now rewrite (updateSuggestionTime_reject _ _ _ T)].
  destruct (List.find (has_id (heap w) sid) (suggestions w)) as [l|] eqn:F.
  - destruct (List.find_some _ _ F) as (_ & Hid).
    destruct (has_id_true _ _ _ Hid) as (s & E & _).
    right. exists l, s. eexists.
    now rewrite (updateSuggestionTime_run _ _ _ _ _ _ _ _ F E T).
  - left. unfold updateSuggestionTime, getSuggestionById, bind. now rewrite F.
Qed.

Lemma confirm_world l user w :
  fst (confirm l user w) = w \/
  exists s, heap w !! l = Some s /\
            fst (confirm l user w) =
              fst (updateSuggestion (id s) l (upd l (set_confirmed (Some true) s) w)).
Proof.
  destruct (heap w !! l) as [s|] eqn:E;
    [|left; unfold confirm, bind, deref; now rewrite E].
  destruct (is_confirmed s) eqn:C;
    [left; now rewrite (confirm_already_confirmed _ _ _ _ E C)|].
  destruct (ToBoolean (title s)) eqn:T;
    [|left; now rewrite (confirm_without_title _ _ _ _ E C T)].
  right. exists s. split; [reflexivity|]. now rewrite (confirm_run _ _ _ _ E C T).
Qed.

(** The world after the steps that the intakes share: the world before, or
    the world with the converted objects, annotated by validation, and
    listed in the store when validation returned. *)
Lemma take_in_world response document source0 url now w :
  fst (take_in response document source0 url now w) = w \/
  exists news w2,
    Forall text_titled news /\ annotates (extended news w) w2 /\
    (fst (take_in response document source0 url now w) = w2 \/
     fst (take_in response document source0 url now w) =
       with_suggestions
         (suggestions w2 ++ seq (List.length (heap w)) (List.length news)) w2).
Proof.
  unfold take_in.
  destruct (parseLLMResponse_cases response document source0 url w)
    as [(e & R)|(text & props & items & issues & _ & _ & V & L & R)].
  { left. now rewrite (bind_throw _ _ _ _ _ R). }
  right. rewrite (bind_ok _ _ _ _ _ R).
  set (news := converted items (draws w) document source0 url).
  set (refs := seq (List.length (heap w)) (List.length news)).
  destruct (validateSuggestions refs (suggestions (extended news w)) now (extended news w))
    as [w2 r] eqn:Vs.
  assert (Run : (let* all := ParsedDeadlineState.getAllSuggestions in
                 let* _ := validateSuggestions refs all now in
                 ParsedDeadlineState.addSuggestions refs ;; ret refs) (extended news w) =
                match r with
                | Ok _ => (with_suggestions (suggestions w2 ++ refs) w2, Ok refs)
                | Throw e => (w2, Throw e)
                end).
  { unfold ParsedDeadlineState.getAllSuggestions at 1. unfold bind at 1.
    unfold bind at 1. rewrite Vs. now destruct r. }
  rewrite Run. exists news, w2. split; [|split].
  - unfold validateLLMResponse in V. cbn in V. rewrite L in V.
    eapply Forall_impl; [|apply (converted_titles _ _ _ _ _ _ _ _ V)].
    cbn. intros s (t & T & _). now exists t.
  - apply (annotating_validateSuggestions _ _ _ _ _ _ Vs).
  - destruct r as [i|e]; [right|left]; reflexivity.
Qed.

Lemma document_world document config llm now w :
  fst (llmExtractFromDocument document config llm now w) = w \/
  exists response,
    fst (llmExtractFromDocument document config llm now w) =
    fst (take_in response (Some document) SYLLABUS None now w).
Proof.
  unfold llmExtractFromDocument.
  destruct (executeLLM llm _ _) as [response|e]; [right; now exists response|now left].
Qed.

Lemma website_world url config llm now w :
  fst (llmExtractFromWebsite url config llm now w) = w \/
  exists response,
    fst (llmExtractFromWebsite url config llm now w) =
    fst (take_in response None WEBSITE (Some url) now w).
Proof.
  unfold llmExtractFromWebsite.
  destruct (executeLLMWithURL llm _ _ _) as [response|e]; [right; now exists response|now left].
Qed.

(** *** Soundness is kept *)

Lemma sound_take_in response document source0 url now w :
  sound w -> sound (fst (take_in response document source0 url now w)).
Proof.
  intros Sw. destruct (take_in_world response document source0 url now w)
    as [->|(news & w2 & Tn & A & [->| ->])]; [exact Sw| |].
  - apply (sound_annotates _ _ A), sound_extended; assumption.
  - pose proof (sound_annotates _ _ A (sound_extended _ _ Sw Tn)) as S2.
    apply sound_add; [exact S2|].
    destruct A as (_ & _ & F). apply Forall2_length in F. rewrite <- F.
    cbn. rewrite length_app. apply Forall_forall. intros r I. apply in_seq in I. lia.
Qed.

Lemma sound_batch_loop refs rule ids :
  forall success failed w,
  sound w -> sound (fst (Editing.batchUpdateTiming_loop refs ids rule success failed w)).
Proof.
  induction ids as [|sid rest IH]; intros success failed w Sw; [exact Sw|].
  cbn [Editing.batchUpdateTiming_loop]. unfold Editing.find_by_id. unfold bind at 1.
  destruct (List.find (has_id (heap w) sid) refs) as [l|] eqn:F.
  - destruct (List.find_some _ _ F) as (_ & Hid).
    destruct (has_id_true _ _ _ Hid) as (s & E & _).
    destruct (Editing.timeMatch rule) as [[[h m] p]|] eqn:T.
    + rewrite (bind_ok _ _ _ _ _ (Editing_updateSuggestionTime_run _ _ _ _ _ _ _ E T)).
      apply IH, sound_upd; [exact Sw|].
      apply apply_updates_titled, (sound_titled _ _ _ Sw E).
    + rewrite (bind_ok _ _ _ _ _ (Editing_updateSuggestionTime_reject l _ _ T)).
      now apply IH.
  - unfold bind at 1. cbn [ret]. now apply IH.
Qed.

Lemma sound_refine l feedback config llm w :
  sound w -> sound (fst (refineWithFeedback l feedback config llm w)).
Proof.
  intros Sw.
  destruct (heap w !! l) as [s|] eqn:E.
  2:{ unfold refineWithFeedback, bind, deref. now rewrite E. }
  destruct (createRefinementPrompt s feedback config) as [prompt|e] eqn:Pr.
  2:{ unfold refineWithFeedback. rewrite (bind_ok _ _ _ _ _ (deref_ok _ _ _ E)).
      unfold bind, lift. now rewrite Pr. }
  destruct (executeLLM llm prompt (llmConfig_of config)) as [response|e] eqn:L.
  2:{ unfold refineWithFeedback. rewrite (bind_ok _ _ _ _ _ (deref_ok _ _ _ E)).
      unfold bind, lift. now rewrite Pr, L. }
  destruct (parseLLMResponse_cases response (uploadedDocument s) (source s) (websiteUrl s) w)
    as [(e & R)|(text & props & items & issues & J & P & V & Sg & R)].
  { unfold refineWithFeedback. rewrite (bind_ok _ _ _ _ _ (deref_ok _ _ _ E)).
    unfold bind at 1. unfold lift at 1. rewrite Pr.
    unfold bind at 1. unfold lift at 1. rewrite L.
    now rewrite (bind_throw _ _ _ _ _ R). }
  destruct (List.find is_candidate items) as [item|] eqn:F.
  - destruct (refineWithFeedback_run l s feedback config llm prompt response text props
                items issues _ item w E Pr L J P V Sg F) as (-> & Er & Old).
    cbn [fst].
    assert (Tn : Forall text_titled
                   (converted items (draws w) (uploadedDocument s) (source s) (websiteUrl s))).
    { unfold validateLLMResponse in V. cbn in V. rewrite Sg in V.
      eapply Forall_impl; [|apply (converted_titles _ _ _ _ _ _ _ _ V)].
      cbn. intros x (t & T & _). now exists t. }
    apply sound_updateSuggestion.
    + apply sound_upd; [now apply sound_extended|].
      destruct (converted_first items item (draws w) (uploadedDocument s) (source s)
                  (websiteUrl s) F) as (more & N).
      rewrite N in Tn. inversion Tn as [|? ? (t & T) _]; subst. now exists t.
    + now apply lookup_lt_Some in Er.
  - unfold refineWithFeedback. rewrite (bind_ok _ _ _ _ _ (deref_ok _ _ _ E)).
    unfold bind at 1. unfold lift at 1. rewrite Pr.
    unfold bind at 1. unfold lift at 1. rewrite L.
    rewrite (bind_ok _ _ _ _ _ R), (converted_none _ _ _ _ _ F).
    cbn [List.length seq]. now rewrite extended_nil.
Qed.

Lemma sound_perform c w : sound w -> sound (perform c w).
Proof.
  intros Sw. destruct c; cbn [perform].
  - destruct (parseFromCanvas_run user w)
      as (c1 & c2 & -> & _ & _ & T1 & T2 & _). cbn [fst].
    destruct Sw as (Wf & Ty). split.
    + unfold well_formed in *. cbn. rewrite !length_app. cbn.
      apply Forall_app. split.
      * eapply Forall_impl; [|exact Wf]. cbn. intros r Lr. lia.
      * repeat constructor; lia.
    + cbn. rewrite !Forall_app. repeat split; [exact Ty| |];
        constructor; [eexists; eassumption|constructor|eexists; eassumption|constructor].
  - destruct (document_world document config llm now w) as [->|(response & ->)];
      [exact Sw|now apply sound_take_in].
  - destruct (website_world url config llm now w) as [->|(response & ->)];
      [exact Sw|now apply sound_take_in].
  - now apply sound_refine.
  - destruct (edit_world suggestionId updates w) as [->|(l & s & _ & E & ->)];
      [exact Sw|].
    apply sound_upd; [exact Sw|]. apply apply_updates_titled, (sound_titled _ _ _ Sw E).
  - unfold updateSuggestionTitle. rewrite then_ret_world.
    pose proof (edit_world suggestionId (only_title newTitle) w) as K.
    unfold only_title in K. destruct K as [->|(l & s & _ & E & ->)]; [exact Sw|].
    apply sound_upd; [exact Sw|]. apply apply_updates_titled, (sound_titled _ _ _ Sw E).
  - unfold updateSuggestionDate. rewrite then_ret_world.
    pose proof (edit_world suggestionId (only_due newDate) w) as K.
    unfold only_due in K. destruct K as [->|(l & s & _ & E & ->)]; [exact Sw|].
    apply sound_upd; [exact Sw|]. apply apply_updates_titled, (sound_titled _ _ _ Sw E).
  - destruct (time_world suggestionId newTime w) as [->|(l & s & u & _ & E & ->)];
      [exact Sw|].
    apply sound_upd; [exact Sw|]. apply apply_updates_titled, (sound_titled _ _ _ Sw E).
  - unfold batchUpdateTiming, getAllSuggestions, Editing.batchUpdateTiming.
    unfold bind at 1. now apply sound_batch_loop.
  - destruct (confirm_world suggestion user w) as [->|(s & E & ->)]; [exact Sw|].
    apply sound_updateSuggestion.
    + apply sound_upd; [exact Sw|]. destruct (sound_titled _ _ _ Sw E) as (t & T).
      now exists t.
    + cbn. rewrite length_insert. now apply lookup_lt_Some in E.
  - destruct Sw as (_ & Ty). split; [constructor|exact Ty].
Qed.

Lemma sound_perform_all calls : forall w, sound w -> sound (perform_all calls w).
Proof.
  induction calls as [|c rest IH]; intros w Sw; [exact Sw|].
  cbn [perform_all List.fold_left]. apply IH, sound_perform, Sw.
Qed.

Lemma new_service_sound : sound new_service.
Proof. split; constructor. Qed.

(** X17. In every state that the service reaches from its creation by any
    sequence of its calls (Canvas intake, document and website intakes,
    refinement, the manual edits, the batch, confirmation, clearing, each
    returning or throwing, and each given only suggestion objects that the
    service made), every suggestion object has a text as title. So in such
    a state the validation pass inside an intake never stops on a value of
    the wrong type: once the model has answered with a payload that passes
    structural validation, the intake returns. *)
Theorem service_stays_sound calls :
  let w := perform_all calls new_service in
  Forall text_titled (heap w) /\
  (forall document config llm now response text props issues label,
     executeLLM llm (createDocumentExtractionPrompt document config) (llmConfig_of config)
       = Ok response ->
     jsonMatch response = Some text -> JSON_parse text = Some (VObject props) ->
     validateLLMResponse (VObject props) label = Ok issues ->
     exists refs, snd (llmExtractFromDocument document config llm now w) = Ok refs) /\
  (forall url config llm now response text props issues label,
     executeLLMWithURL llm (createWebsiteExtractionPrompt url "" config) url
       (llmConfig_of config) = Ok response ->
     jsonMatch response = Some text -> JSON_parse text = Some (VObject props) ->
     validateLLMResponse (VObject props) label = Ok issues ->
     exists refs, snd (llmExtractFromWebsite url config llm now w) = Ok refs).
Proof.
  intros w. pose proof (sound_perform_all calls _ new_service_sound) as Sw. fold w in Sw.
  split; [apply Sw|]. split.
  - intros document config llm now response text props issues label Lm J P V.
    destruct (validateLLMResponse_passes _ _ _ V) as (props' & items & [= <-] & L & _).
    unfold llmExtractFromDocument. rewrite Lm. unfold bind at 1. unfold lift at 1.
    eexists.
    apply (take_in_run response text props items issues (Some document) SYLLABUS None now w
             J P V L (sound_typed _ Sw)).
  - intros url config llm now response text props issues label Lm J P V.
    destruct (validateLLMResponse_passes _ _ _ V) as (props' & items & [= <-] & L & _).
    unfold llmExtractFromWebsite. rewrite Lm. unfold bind at 1. unfold lift at 1.
    eexists.
    apply (take_in_run response text props items issues None WEBSITE (Some url) now w
             J P V L (sound_typed _ Sw)).
Qed.

(** *** A confirmed suggestion stays confirmed *)

Lemma confirmed_in_store_add sid refs w :
  confirmed_in_store sid w ->
  confirmed_in_store sid (with_suggestions (suggestions w ++ refs) w).
Proof.
  intros (s & St & C). exists s. split; [|exact C].
  unfold stored in *. cbn [heap suggestions with_suggestions]. rewrite find_app_local.
  destruct (List.find _ (suggestions w)); [exact St|discriminate].
Qed.

Lemma confirmed_in_store_extended sid news w :
  well_formed w -> confirmed_in_store sid w -> confirmed_in_store sid (extended news w).
Proof.
  intros Wf C.
  pose proof (confirmed_in_store_grow sid w (heap w ++ news) []
                (draws w + List.length news) Wf) as K.
  rewrite app_nil_r in K. apply K; [|exact C].
  intros l s E. now apply lookup_app_l_Some.
Qed.

Lemma stays_take_in sid response document source0 url now w :
  well_formed w -> confirmed_in_store sid w ->
  confirmed_in_store sid (fst (take_in response document source0 url now w)).
Proof.
  intros Wf C. destruct (take_in_world response document source0 url now w)
    as [->|(news & w2 & _ & A & [->| ->])]; [exact C| |].
  - apply (annotates_keeps_confirmed _ _ _ A), confirmed_in_store_extended; assumption.
  - apply confirmed_in_store_add, (annotates_keeps_confirmed _ _ _ A),
      confirmed_in_store_extended; assumption.
Qed.

Lemma stays_batch_loop sid refs rule ids :
  forall success failed w,
  confirmed_in_store sid w ->
  confirmed_in_store sid
    (fst (Editing.batchUpdateTiming_loop refs ids rule success failed w)).
Proof.
  induction ids as [|x rest IH]; intros success failed w C; [exact C|].
  cbn [Editing.batchUpdateTiming_loop]. unfold Editing.find_by_id. unfold bind at 1.
  destruct (List.find (has_id (heap w) x) refs) as [l|] eqn:F.
  - destruct (List.find_some _ _ F) as (_ & Hid).
    destruct (has_id_true _ _ _ Hid) as (s & E & _).
    destruct (Editing.timeMatch rule) as [[[h m] p]|] eqn:T.
    + rewrite (bind_ok _ _ _ _ _ (Editing_updateSuggestionTime_run _ _ _ _ _ _ _ E T)).
      apply IH, (confirmed_in_store_upd _ _ _ _ _ E); [apply apply_updates_id| |exact C].
      unfold is_confirmed. now rewrite apply_updates_confirmed.
    + rewrite (bind_ok _ _ _ _ _ (Editing_updateSuggestionTime_reject l _ _ T)).
      now apply IH.
  - unfold bind at 1. cbn [ret]. now apply IH.
Qed.

Lemma stays_perform sid c w :
  gentle c = true -> sound w -> confirmed_in_store sid w ->
  confirmed_in_store sid (perform c w).
Proof.
  intros G (Wf & _) C. destruct (confirmed_kept sid w C) as (Kc & Ke & Kt & _).
  destruct c; try discriminate; cbn [perform].
  - destruct (parseFromCanvas_run user w) as (c1 & c2 & -> & _). cbn [fst].
    apply (confirmed_in_store_grow _ _ _ _ _ Wf); [|exact C].
    intros l s E. rewrite <- app_assoc. now apply lookup_app_l_Some.
  - destruct (document_world document config llm now w) as [->|(response & ->)];
      [exact C|now apply stays_take_in].
  - destruct (website_world url config llm now w) as [->|(response & ->)];
      [exact C|now apply stays_take_in].
  - apply Ke.
  - unfold updateSuggestionTitle. rewrite then_ret_world. apply Ke.
  - unfold updateSuggestionDate. rewrite then_ret_world. apply Ke.
  - apply Kt.
  - unfold batchUpdateTiming, getAllSuggestions, Editing.batchUpdateTiming.
    unfold bind at 1. now apply stays_batch_loop.
  - apply Kc.
Qed.

(** X18. Once the store holds a confirmed record for an identifier, it
    holds one after any sequence of calls that has no refinement and no
    clearing in it: the Canvas, document and website intakes, the manual
    edits of fields, title, date and time, the batch, and confirmations,
    whether they return or throw. (The state before is one without
    dangling references and with text titles, as every state reached from
    a new service is.) *)
Theorem confirmed_stays sid calls w :
  sound w -> confirmed_in_store sid w -> forallb gentle calls = true ->
  confirmed_in_store sid (perform_all calls w).
Proof.
  revert w. induction calls as [|c rest IH]; intros w Sw C G; [exact C|].
  cbn [forallb] in G. apply andb_prop in G as (Gc & G).
  cbn [perform_all List.fold_left]. apply IH; [|now apply stays_perform|exact G].
  now apply sound_perform.
Qed.

End Service.

(** ** A suggestion whose due date is invalid *)

Section InvalidDue.
Context `{Host}.

(** X19. What a stored suggestion with an invalid due date (as an intake
    can store) meets afterwards. It cannot be refined: the call throws a
    RangeError before the model is asked, and nothing changes. A time
    update with a text that holds a clock time reports success and appends
    the manual-edit warning, but the due date stays invalid. The validation
    pass gives it no warning that depends on the date: of the nine
    warnings only duplicate, low confidence and vague term can be added. *)
Theorem invalid_due_is_sticky sid s t w :
  stored sid w = Some s -> due s = None -> title s = VString t ->
  (forall l feedback config llm,
     heap w !! l = Some s ->
     refineWithFeedback l feedback config llm w = (w, Throw RangeError)) /\
  (forall newTime hours minutes period,
     Editing.timeMatch newTime = Some (hours, minutes, period) ->
     exists s',
       snd (updateSuggestionTime sid newTime w) = Ok true /\
       stored sid (fst (updateSuggestionTime sid newTime w)) = Some s' /\
       due s' = None /\
       warnings s' = Some (warnings_or_empty s ++ ["Manually edited by user"])) /\
  (forall l all now,
     heap w !! l = Some s -> typed_titles (heap w) all ->
     exists s' added,
       heap (fst (validateSuggestions [l] all now w)) !! l = Some s' /\
       warnings_or_empty s' = warnings_or_empty s ++ added /\
       forall x, In x added -> x = W_duplicate \/ x = W_low \/ x = W_vague).
Proof.
  intros St D T. split; [|split].
  - intros l feedback config llm E. now apply (refineWithFeedback_invalid_due _ s).
  - intros newTime hours minutes period Tm.
    destruct (stored_find _ _ _ St) as (l & F & E).
    rewrite (updateSuggestionTime_run _ _ _ _ _ _ _ _ F E Tm). cbn [fst snd].
    eexists. split; [reflexivity|]. split.
    + apply (stored_upd_same _ _ _ _ _ F E), apply_updates_id.
    + rewrite D. split; reflexivity.
  - intros l all now E Ty. unfold validateSuggestions.
    destruct (validate_loop_run [l] all now [] w) as (w' & issues' & R & K).
    { repeat constructor. intros []. }
    { constructor; [|constructor]. now exists s, t. }
    { exact Ty. }
    rewrite R. cbn [fst].
    destruct (K l s t (or_introl eq_refl) E T) as (s' & E' & W').
    exists s', (verdict (heap w) s t all now). split; [exact E'|]. split; [exact W'|].
    intros x. unfold verdict, past_flag, far_flag, weekend_flag, early_flag, short_flag,
      round_flag. rewrite D.
    replace (Date_lt (TimeClip (now + 365 * 24 * 60 * 60 * 1000)) None) with false
      by now destruct (TimeClip _).
    cbn [Date_lt getDay getHours getDate option_map num_eq num_lt num_gt round_day orb andb].
    rewrite !In_pick, In_pick_last. intuition (discriminate || auto).
Qed.

End InvalidDue.

(** ** Conversion of a payload *)

Section Conversion.
Context `{Host}.

Lemma converted_length items n document source0 url :
  List.length (converted items n document source0 url) =
  List.length (List.filter is_candidate items).
Proof.
  revert n. induction items as [|item rest IH]; intros n; cbn [converted List.filter];
    [reflexivity|].
  destruct (is_candidate item); cbn [List.length]; now rewrite IH.
Qed.

Lemma converted_lookup items document source0 url :
  forall n k item,
  List.filter is_candidate items !! k = Some item ->
  converted items n document source0 url !! k =
    Some (suggestion_of item (Math_random_id (n + k)) document source0 url).
Proof.
  induction items as [|x rest IH]; intros n k item; cbn [converted List.filter];
    [discriminate|].
  destruct (is_candidate x).
  - destruct k as [|k].
    + intros [= ->]. cbn. now rewrite Nat.add_0_r.
    + intros E. change (List.filter is_candidate rest !! k = Some item) in E.
      change (converted rest (S n) document source0 url !! k =
              Some (suggestion_of item (Math_random_id (n + S k)) document source0 url)).
      rewrite (IH (S n) k item E). do 3 f_equal. lia.
  - apply IH.
Qed.

(** X20. The conversion of a payload that passes structural validation
    makes one new object per entry whose title and due are truthy, in the
    order of the payload, and returns them in that order; the other entries
    are skipped without drawing an identifier, so the k-th kept entry gets
    the k-th identifier drawn. Title, due, confidence and provenance come
    from the entry (confidence 0.5 and provenance "LLM extraction" when
    falsy), source, document and address from the caller. The store and the
    older objects are untouched. *)
Theorem conversion_keeps_candidates response text props items issues label
    document source0 url w :
  jsonMatch response = Some text ->
  JSON_parse text = Some (VObject props) ->
  validateLLMResponse (VObject props) label = Ok issues ->
  lookup_prop "suggestions" props = VArray items ->
  let kept := List.filter is_candidate items in
  let w' := fst (parseLLMResponse response document source0 url w) in
  snd (parseLLMResponse response document source0 url w) =
    Ok (seq (List.length (heap w)) (List.length kept)) /\
  draws w' = draws w + List.length kept /\
  suggestions w' = suggestions w /\
  (forall l s, heap w !! l = Some s -> heap w' !! l = Some s) /\
  (forall k item, kept !! k = Some item ->
     heap w' !! (List.length (heap w) + k) =
       Some (suggestion_of item (Math_random_id (draws w + k)) document source0 url)).
Proof.
  intros J P V L kept w'. subst w'.
  rewrite (parseLLMResponse_run _ _ _ _ _ _ _ _ w J P V L).
  cbn [fst snd extended draws suggestions heap].
  rewrite !converted_length. fold kept.
  split; [reflexivity|]. split; [reflexivity|]. split; [reflexivity|]. split.
  - intros l s E. cbn. now apply lookup_app_l_Some.
  - intros k item E. cbn. rewrite lookup_app_r by lia.
    replace (List.length (heap w) + k - List.length (heap w)) with k by lia.
    now apply converted_lookup.
Qed.

End Conversion.

(** ** The queries of the store *)

Lemma filter_partition_length {A} (p q : A -> bool) xs :
  (forall x, In x xs -> p x = negb (q x)) ->
  List.length (List.filter p xs) + List.length (List.filter q xs) = List.length xs.
Proof.
  induction xs as [|x rest IH]; intros E; cbn [List.filter List.length]; [reflexivity|].
  rewrite (E x (or_introl eq_refl)).
  specialize (IH (fun y I => E y (or_intror I))).
  destruct (q x); cbn [negb List.length]; lia.
Qed.

(** The test of [getSuggestionsBySource] on a reference. *)
Definition by_source (h : list ParsedDeadlineSuggestion) (name : string) (l : loc) : bool :=
  match h !! l with
  | Some s => String.eqb (source_text s) name
  | None => false
  end.

Lemma by_source_count h xs :
  (forall l, In l xs -> exists s, h !! l = Some s) ->
  List.length xs =
    List.length (List.filter (by_source h "SYLLABUS") xs) +
    List.length (List.filter (by_source h "IMAGE") xs) +
    List.length (List.filter (by_source h "WEBSITE") xs) +
    List.length (List.filter (by_source h "CANVAS") xs).
Proof.
  induction xs as [|l rest IH]; intros Res; [reflexivity|].
  cbn [List.filter List.length].
  destruct (Res l (or_introl eq_refl)) as (s & E).
  assert (B : forall name, by_source h name l = String.eqb (source_text s) name)
    by (intros name; unfold by_source; now rewrite E).
  specialize (IH (fun y I => Res y (or_intror I))).
  rewrite !B. unfold source_text.
  destruct (source s); cbn [SourceType_text];
    repeat match goal with
           | |- context [String.eqb ?a ?b] =>
               let r := eval vm_compute in (String.eqb a b) in
               change (String.eqb a b) with r
           end;
    cbn [List.length]; lia.
Qed.

Lemma by_source_other h name xs :
  ~ In name ["SYLLABUS"; "IMAGE"; "WEBSITE"; "CANVAS"] ->
  List.filter (by_source h name) xs = [].
Proof.
  intros N. induction xs as [|l rest IH]; [reflexivity|].
  cbn [List.filter]. rewrite IH. unfold by_source.
  destruct (h !! l) as [s|]; [|reflexivity].
  destruct (String.eqb_spec (source_text s) name) as [<-|_]; [|reflexivity].
  destruct N. unfold source_text. destruct (source s); cbn; tauto.
Qed.

(** X21. The queries by source split the store: in a store without
    dangling entries every stored suggestion is returned by the query for
    exactly one of SYLLABUS, IMAGE, WEBSITE and CANVAS, so that the four
    answers together have as many suggestions as [getSuggestionsCount]
    reports; a source text that is none of the four (one in lower case,
    for instance) returns nothing. The unconfirmed suggestions and those
    whose confirmation flag is true also add up to that count. *)
Theorem source_queries_split w :
  well_formed w ->
  exists syllabus image website canvas unconfirmed,
    getSuggestionsBySource "SYLLABUS" w = (w, Ok syllabus) /\
    getSuggestionsBySource "IMAGE" w = (w, Ok image) /\
    getSuggestionsBySource "WEBSITE" w = (w, Ok website) /\
    getSuggestionsBySource "CANVAS" w = (w, Ok canvas) /\
    getUnconfirmedSuggestions w = (w, Ok unconfirmed) /\
    getSuggestionsCount w =
      (w, Ok (List.length syllabus + List.length image + List.length website +
              List.length canvas)) /\
    (forall l, In l (suggestions w) ->
       exists! name, In name ["SYLLABUS"; "IMAGE"; "WEBSITE"; "CANVAS"] /\
                     In l (match snd (getSuggestionsBySource name w) with
                           | Ok found => found | Throw _ => [] end)) /\
    (forall name, ~ In name ["SYLLABUS"; "IMAGE"; "WEBSITE"; "CANVAS"] ->
       getSuggestionsBySource name w = (w, Ok [])) /\
    List.length unconfirmed +
      List.length (List.filter (fun l => match heap w !! l with
                                         | Some s => is_confirmed s
                                         | None => false
                                         end) (suggestions w)) =
      List.length (suggestions w).
Proof.
  intros Wf. unfold well_formed in Wf. rewrite Forall_forall in Wf.
  assert (Res : forall l, In l (suggestions w) -> exists s, heap w !! l = Some s).
  { intros l I. apply lookup_lt_is_Some_2, Wf, I. }
  exists (List.filter (by_source (heap w) "SYLLABUS") (suggestions w)),
    (List.filter (by_source (heap w) "IMAGE") (suggestions w)),
    (List.filter (by_source (heap w) "WEBSITE") (suggestions w)),
    (List.filter (by_source (heap w) "CANVAS") (suggestions w)).
  eexists. do 5 (split; [reflexivity|]).
  unfold getSuggestionsCount. split; [|split; [|split]].
  - do 2 f_equal. now apply by_source_count.
  - intros l I. destruct (Res l I) as (s & E).
    exists (SourceType_text (source s)). split.
    + split; [destruct (source s); cbn; tauto|].
      cbn. apply filter_In. split; [exact I|]. rewrite E. apply String.eqb_refl.
    + intros name (_ & J). cbn in J. apply filter_In in J as (_ & J).
      rewrite E in J. now apply String.eqb_eq in J.
  - intros name N. change (getSuggestionsBySource name w)
      with (w, @Ok (list nat) (List.filter (by_source (heap w) name) (suggestions w))).
    now rewrite by_source_other.
  - apply filter_partition_length. intros l I. now destruct (Res l I) as (s & ->).
Qed.

(** ** Edits, seen through the queries *)

Lemma filter_refs_upd (p : ParsedDeadlineSuggestion -> bool) l x s w xs :
  heap w !! l = Some s -> p x = p s ->
  List.filter (fun r => match heap (upd l x w) !! r with
                        | Some y => p y
                        | None => false
                        end) xs =
  List.filter (fun r => match heap w !! r with
                        | Some y => p y
                        | None => false
                        end) xs.
Proof.
  intros E Px. apply filter_ext. intros r. destruct (Nat.eq_dec l r) as [<-|N].
  - now rewrite (heap_upd_same _ _ _ _ E), E.
  - now rewrite (heap_upd_other _ _ _ _ N).
Qed.

Section EditsAndQueries.
Context `{Host}.

(** X22. A manual edit of a stored suggestion, seen through the queries
    of the store. The edited suggestion is returned by
    [getSuggestionsWithWarnings]. The answers of [getSuggestionsBySource],
    [getSuggestionsByMethod] and [getUnconfirmedSuggestions] are the same
    as before the edit: a suggestion extracted by the model and corrected
    by hand still counts as extracted by the model. When the edit sets a
    due date, [getSuggestionsByDateRange] returns the suggestion exactly
    for the ranges with valid bounds that contain the new date, both ends
    included, and for no range when the new date is invalid; when it sets
    a confidence, [getSuggestionsByConfidence] returns it exactly for the
    ranges that contain the new confidence, both ends included. *)
Theorem edits_seen_by_queries sid s updates w :
  stored sid w = Some s ->
  let w' := fst (editSuggestion sid updates w) in
  exists l,
    snd (editSuggestion sid updates w) = Ok (Some l) /\
    (forall found, snd (getSuggestionsWithWarnings w') = Ok found -> In l found) /\
    (forall name, getSuggestionsBySource name w' = (w', snd (getSuggestionsBySource name w))) /\
    (forall method,
       getSuggestionsByMethod method w' = (w', snd (getSuggestionsByMethod method w))) /\
    getUnconfirmedSuggestions w' = (w', snd (getUnconfirmedSuggestions w)) /\
    (forall newDate startDate endDate found,
       Editing.upd_due updates = Some newDate ->
       snd (getSuggestionsByDateRange startDate endDate w') = Ok found ->
       (In l found <->
        exists a t b, startDate = Some a /\ newDate = Some t /\ endDate = Some b /\
                      (a <= t <= b)%Z)) /\
    (forall c minConfidence maxConfidence found,
       Editing.upd_confidence updates = Some c ->
       snd (getSuggestionsByConfidence minConfidence maxConfidence w') = Ok found ->
       (In l found <->
        PrimFloat.leb minConfidence c = true /\ PrimFloat.leb c maxConfidence = true)).
Proof.
  intros St w'. subst w'. destruct (stored_find _ _ _ St) as (l & F & E).
  rewrite (editSuggestion_run _ _ _ updates _ F E). cbn [fst snd].
  set (x := apply_updates updates s).
  pose proof (heap_upd_same l x s w E) as Ex. cbn [upd heap with_heap] in Ex.
  assert (I : In l (suggestions w)) by (apply (List.find_some _ _ F)).
  destruct (apply_updates_edited updates s) as (_ & _ & Xd & Xc & _ & Xw & Xf & Xs).
  fold x in Xd, Xc, Xw, Xf, Xs.
  assert (Xm : extractionMethod x = extractionMethod s).
  { subst x. unfold apply_updates. now destruct updates as [[?|] [?|] [?|] [?|]]. }
  exists l. split; [reflexivity|]. split; [|split; [|split; [|split; [|split]]]].
  - intros found [= <-]. apply filter_In. split; [exact I|]. cbn [upd heap with_heap].
    rewrite Ex, Xw, length_app, Nat.add_1_r. reflexivity.
  - intros name. unfold getSuggestionsBySource, filter_store. cbn [snd suggestions upd with_heap].
    do 2 f_equal. apply (filter_refs_upd _ _ _ _ _ _ E).
    unfold source_text. now rewrite Xs.
  - intros method. unfold getSuggestionsByMethod, filter_store.
    cbn [snd suggestions upd with_heap]. do 2 f_equal.
    apply (filter_refs_upd _ _ _ _ _ _ E). now rewrite Xm.
  - unfold getUnconfirmedSuggestions. cbn [snd suggestions upd with_heap]. do 2 f_equal.
    apply (filter_refs_upd (fun y => negb (is_confirmed y)) _ _ _ _ _ E).
    unfold is_confirmed. now rewrite Xf.
  - intros newDate startDate endDate found U [= <-]. rewrite filter_In.
    cbn [upd heap with_heap]. rewrite Ex, Xd, U. unfold Date_le. split.
    + intros (_ & B). apply andb_prop in B as (B1 & B2).
      destruct startDate as [a|], newDate as [t|], endDate as [b|]; try discriminate.
      exists a, t, b. repeat split; now apply Z.leb_le.
    + intros (a & t & b & -> & -> & -> & L1 & L2). split; [exact I|].
      apply andb_true_intro. split; now apply Z.leb_le.
  - intros c lo hi found U [= <-]. rewrite filter_In.
    cbn [upd heap with_heap]. rewrite Ex, Xc, U. cbn [ToNumber].
    rewrite andb_true_iff. tauto.
Qed.

End EditsAndQueries.

(** ** Example worlds, on the reference host *)

Module Examples.

Import ReferenceHost.

Definition q : string := String quote EmptyString.

Definition tim : User :=
  {| user_id := "u1"; user_name := "Tim"; user_email := "tim@mit.edu";
     canvasApiKey := None |}.

Definition config : ExtractionConfig :=
  {| modelVersion := "gemini-2.5-flash-lite";
     basePromptTemplate := "Extract all deadline information from the provided content.";
     maxTokens := 2000%float; temperature := 0.1%float;
     timezone := "America/New_York"; timeout := Some 30000%float |}.

(** A model that answers every request with [response]. *)
Definition answering (response : string) : GeminiLLM :=
  {| executeLLM := fun _ _ => Ok response;
     executeLLMWithURL := fun _ _ _ => Ok response |}.

Definition syllabus : UploadedDocument :=
  {| doc_id := "d1"; filename := "syllabus.txt";
     content := "Essay due next Friday"; fileType := txt;
     uploadDate := Date_local 2025 8 1 9 0 0 |}.

(** "Problem Set 1", extracted from a syllabus, due at [d]. *)
Definition problem_set (d : Date) : ParsedDeadlineSuggestion :=
  {| id := "a1"; title := VString "Problem Set 1"; due := d; source := SYLLABUS;
     confirmed := None; confidence := VNumber 0.9%float;
     extractionMethod := Some LLM; provenance := VString "syllabus, page 2";
     warnings := Some []; uploadedDocument := None; canvasMetadata := None;
     websiteUrl := None |}.

(** Wednesday 1 October 2025, 10:00:00 local time *)
Definition oct1_10h : Date := Date_local 2025 9 1 10 0 0.

(** The clock of the runs: 1 October 2025, 10:00 local time. *)
Definition now_oct1 : Z := 1759327200000.

(** A store holding the one suggestion [s]. *)
Definition holding (s : ParsedDeadlineSuggestion) : World :=
  {| heap := [s]; suggestions := [0]; draws := 0 |}.

Definition pending_world : World := holding (problem_set oct1_10h).
Definition confirmed_world : World :=
  holding (set_confirmed (Some true) (problem_set oct1_10h)).

(** A Canvas suggestion whose metadata is not JSON text. *)
Definition canvas_item : ParsedDeadlineSuggestion :=
  {| id := "c1"; title := VString "Problem Set 3";
     due := Date_local 2025 11 15 23 59 59; source := CANVAS;
     confirmed := None; confidence := VNumber 0.9%float;
     extractionMethod := Some RULES;
     provenance := VString "Canvas assignment from 6.1040";
     warnings := None; uploadedDocument := None;
     canvasMetadata := Some "course_name=6.1040"; websiteUrl := None |}.

(** [{"suggestions":[{"title":"Problem Set 1 (revised)",
      "due":"2025-10-03T23:59:00-04:00","confidence":0.8}]}] *)
Definition revised_answer : string :=
  String.concat q
    ["{"; "suggestions"; ":[{"; "title"; ":"; "Problem Set 1 (revised)"; ",";
     "due"; ":"; "2025-10-03T23:59:00-04:00"; ","; "confidence"; ":0.8}]}"].

(** [Here you go: {"suggestions":[{"title":"Essay","due":"next Friday",
      "confidence":5}]}] *)
Definition careless_answer : string :=
  String.concat q
    ["Here you go: {"; "suggestions"; ":[{"; "title"; ":"; "Essay"; ",";
     "due"; ":"; "next Friday"; ","; "confidence"; ":5}]}"].

(** [{"suggestions":[{"title":"Quiz","due":"2025-10-07T14:00:00-04:00",
      "confidence":0}]}] *)
Definition doubtful_answer : string :=
  String.concat q
    ["{"; "suggestions"; ":[{"; "title"; ":"; "Quiz"; ",";
     "due"; ":"; "2025-10-07T14:00:00-04:00"; ","; "confidence"; ":0}]}"].

(** [{"suggestions":[{"title":"Lab 2","due":"2025-10-08T17:00:00-04:00",
      "confidence":0.9,"provenance":{"page":2}}]}] *)
Definition structured_answer : string :=
  String.concat q
    ["{"; "suggestions"; ":[{"; "title"; ":"; "Lab 2"; ",";
     "due"; ":"; "2025-10-08T17:00:00-04:00"; ","; "confidence"; ":0.9,";
     "provenance"; ":{"; "page"; ":2}}]}"].

(** [{"suggestions":[{"title":42,"due":"2025-10-08T17:00:00-04:00"}]}] *)
Definition numbered_answer : string :=
  String.concat q
    ["{"; "suggestions"; ":[{"; "title"; ":42,"; "due"; ":";
     "2025-10-08T17:00:00-04:00"; "}]}"].

(** [{"deadlines":[]}]: no candidate list *)
Definition shapeless_answer : string :=
  String.concat q ["{"; "deadlines"; ":[]}"].

(** [{"suggestions":[]}] *)
Definition empty_answer : string :=
  String.concat q ["{"; "suggestions"; ":[]}"].

Definition rename (t : string) : Editing.Updates :=
  {| Editing.upd_title := Some t; Editing.upd_due := None;
     Editing.upd_confidence := None; Editing.upd_provenance := None |}.

End Examples.

Import ReferenceHost Examples.

Example revised_answer_parses :
  JSON_parse revised_answer =
  Some (VObject [("suggestions",
    VArray [VObject [("title", VString "Problem Set 1 (revised)");
                     ("due", VString "2025-10-03T23:59:00-04:00");
                     ("confidence", VNumber 0.8%float)]])]).
Proof. reflexivity. Qed.

Example careless_answer_parses :
  option_map JSON_parse (jsonMatch careless_answer) =
  Some (Some (VObject [("suggestions",
    VArray [VObject [("title", VString "Essay"); ("due", VString "next Friday");
                     ("confidence", VNumber 5%float)]])])).
Proof. reflexivity. Qed.

Example oct1_is_a_wednesday :
  local_date oct1_10h = (Some 2025, Some 9, Some 1)%Z /\
  local_clock oct1_10h = (Some 10, Some 0, Some 0)%Z /\
  getDay oct1_10h = Some 3%Z.
Proof. repeat split. Qed.

(** C1. [confirm] on an unconfirmed suggestion with a title and a due
    date, whose canvasMetadata is not JSON text: the suggestion is marked
    confirmed in the store, and then the call throws instead of returning
    the tuple. The same happens to a suggestion taken in from a payload
    whose provenance is an object. *)
Theorem confirm_marks_then_throws :
  (stored "c1" (holding canvas_item) = Some canvas_item /\
   is_confirmed canvas_item = false /\
   ToBoolean (title canvas_item) = true /\
   confirm 0 tim (holding canvas_item) =
     (holding (set_confirmed (Some true) canvas_item), Throw SyntaxError)) /\
  (let intake := llmExtractFromDocument syllabus config (answering structured_answer)
                   now_oct1 pending_world in
   let confirmation := confirm 1 tim (fst intake) in
   snd intake = Ok [1] /\
   option_map is_confirmed (heap (fst intake) !! 1) = Some false /\
   snd confirmation = Throw TypeError /\
   option_map (fun s => (title s, confirmed s)) (stored "r0" (fst confirmation))
   = Some (VString "Lab 2", Some true)).
Proof. split; [repeat split|]. vm_compute. repeat split. Qed.

(** C2. Refining a confirmed suggestion: the record the store holds for its
    identifier afterwards is the new object, whose confirmed flag is unset. *)
Theorem refine_resets_confirmed :
  option_map confirmed (stored "a1" confirmed_world) = Some (Some true) /\
  exists w',
    refineWithFeedback 0 "It is due on Friday" config (answering revised_answer)
      confirmed_world = (w', Ok 1) /\
    option_map confirmed (stored "a1" w') = Some None /\
    getUnconfirmedSuggestions w' = (w', Ok [1]).
Proof. split; [reflexivity|]. eexists. repeat split. Qed.

(** C3. Intake of a payload whose only entry has an unparsable due text and
    a confidence of 5: the entry is stored, with an invalid date and the
    confidence 5. *)
Theorem intake_stores_invalid_entry :
  exists w' s,
    llmExtractFromDocument syllabus config (answering careless_answer)
      now_oct1 pending_world = (w', Ok [1]) /\
    suggestions w' = [0; 1] /\
    heap w' !! 1 = Some s /\
    title s = VString "Essay" /\ due s = None /\
    confidence s = VNumber 5%float /\ warnings s = Some [].
Proof. do 2 eexists. repeat split. Qed.

(** C5. The time text 25:00 is accepted, and moves a suggestion due on
    1 October 2025 at 10:00 to 2 October at 01:00. *)
Theorem time_update_changes_date :
  exists w' s',
    updateSuggestionTime "a1" "25:00" pending_world = (w', Ok true) /\
    stored "a1" w' = Some s' /\
    local_date (due (problem_set oct1_10h)) = (Some 2025, Some 9, Some 1)%Z /\
    local_date (due s') = (Some 2025, Some 9, Some 2)%Z /\
    local_clock (due s') = (Some 1, Some 0, Some 0)%Z.
Proof. do 2 eexists. repeat split. Qed.

(** C6, as stated: a manual edit of a confirmed suggestion is not rejected;
    it returns the suggestion and renames it. *)
Lemma edit_of_confirmed_is_applied :
  option_map confirmed (stored "a1" confirmed_world) = Some (Some true) /\
  editSuggestion "a1" (rename "Problem Set 2") confirmed_world =
    (holding (apply_updates (rename "Problem Set 2")
                (set_confirmed (Some true) (problem_set oct1_10h))), Ok (Some 0)) /\
  option_map title
    (stored "a1" (fst (editSuggestion "a1" (rename "Problem Set 2") confirmed_world)))
  = Some (VString "Problem Set 2").
Proof. repeat split. Qed.

(** C8. A suggestion due on Wednesday 1 October 2025 at 23:30 gets no
    warning from the calendar checks: the late-evening check compares the
    hour, 23, with 23. *)
Theorem late_evening_not_flagged :
  let w := holding (problem_set (Date_local 2025 9 1 23 30 0)) in
  local_clock (Date_local 2025 9 1 23 30 0) = (Some 23, Some 30, Some 0)%Z /\
  validateAcademicCalendarLogic 0 [] w = (w, Ok []).
Proof. split; reflexivity. Qed.

(** *** Further runs of the examples of the specification *)

(** Confirming twice: the first call returns the tuple and marks the
    suggestion, the second throws and changes nothing. *)
Example confirm_twice :
  confirm 0 tim pending_world =
    (confirmed_world,
     Ok {| course := VString "Unknown Course"; conf_title := VString "Problem Set 1";
           conf_due := oct1_10h; conf_source := SYLLABUS; addedBy := tim |}) /\
  confirm 0 tim confirmed_world =
    (confirmed_world, Throw (Error "Suggestion is already confirmed")).
Proof. split; reflexivity. Qed.

(** The time text "11:59 PM" on a suggestion due on 1 October 2025 at
    10:00:00 gives 1 October 2025 at 23:59:00. *)
Example time_update_11_59_PM :
  updateSuggestionTime "a1" "11:59 PM" pending_world =
    (holding (apply_updates (only_due (Date_local 2025 9 1 23 59 0))
                (problem_set oct1_10h)), Ok true) /\
  local_date (Date_local 2025 9 1 23 59 0) = local_date oct1_10h /\
  local_clock (Date_local 2025 9 1 23 59 0) = (Some 23, Some 59, Some 0)%Z.
Proof. repeat split. Qed.

Example time_update_rejects_words :
  updateSuggestionTime "a1" "midnight" pending_world = (pending_world, Ok false).
Proof. reflexivity. Qed.

(** Saturday 4 October 2025 at 14:00 is flagged as a weekend deadline,
    Tuesday 7 October 2025 at 14:00 is not flagged at all. *)
Example saturday_flagged :
  let s := problem_set (Date_local 2025 9 4 14 0 0) in
  getDay (due s) = Some 6%Z /\
  validateAcademicCalendarLogic 0 [] (holding s) =
    (holding (push_warning W_weekend s), Ok [WeekendDeadline (VString "Problem Set 1")]).
Proof. split; reflexivity. Qed.

Example tuesday_afternoon_not_flagged :
  let s := problem_set (Date_local 2025 9 7 14 0 0) in
  getDay (due s) = Some 2%Z /\
  validateAcademicCalendarLogic 0 [] (holding s) = (holding s, Ok []).
Proof. split; reflexivity. Qed.

Example early_morning_flagged :
  let s := problem_set (Date_local 2025 9 7 5 59 0) in
  validateAcademicCalendarLogic 0 [] (holding s) =
    (holding (push_warning W_early s),
     Ok [EarlyMorningDeadline (VString "Problem Set 1") (Some 5%Z)]).
Proof. reflexivity. Qed.

(** "Final Project TBD", due on Wednesday 10 December 2025 at 17:00. *)
Definition final_project (c : float) : ParsedDeadlineSuggestion :=
  {| id := "f1"; title := VString "Final Project TBD";
     due := Date_local 2025 11 10 17 0 0; source := SYLLABUS; confirmed := None;
     confidence := VNumber c; extractionMethod := Some LLM;
     provenance := VString "syllabus, page 4"; warnings := Some [];
     uploadedDocument := None; canvasMetadata := None; websiteUrl := None |}.

Example tbd_with_confidence_0_9_warned :
  validateForHallucination 0 [] now_oct1 (holding (final_project 0.9%float)) =
    (holding (push_warning W_vague (final_project 0.9%float)),
     Ok [VagueHighConfidence (VString "Final Project TBD") (VNumber 0.9%float)]).
Proof. reflexivity. Qed.

Example tbd_with_confidence_0_5_not_warned :
  validateForHallucination 0 [] now_oct1 (holding (final_project 0.5%float)) =
    (holding (final_project 0.5%float), Ok []).
Proof. reflexivity. Qed.

(** Intake of an entry with the stated confidence 0: it is stored with 0.5. *)
Example intake_of_zero_confidence :
  let intake := llmExtractFromDocument syllabus config (answering doubtful_answer)
                  now_oct1 pending_world in
  snd intake = Ok [1] /\ suggestions (fst intake) = [0; 1] /\
  option_map (fun s => (title s, confidence s)) (heap (fst intake) !! 1)
  = Some (VString "Quiz", VNumber 0.5%float).
Proof. vm_compute. repeat split. Qed.

(** An entry whose title is a number stops the intake of the whole payload
    on a TypeError, in structural validation; nothing is stored. *)
Example intake_of_numeric_title :
  llmExtractFromDocument syllabus config (answering numbered_answer) now_oct1
    pending_world = (pending_world, Throw TypeError).
Proof. reflexivity. Qed.

(** An answer without a candidate makes refinement fail. *)
Example refine_without_candidate :
  refineWithFeedback 0 "It is due on Friday" config (answering empty_answer)
    pending_world =
  (pending_world, Throw (Error "No refined suggestions returned from LLM")).
Proof. reflexivity. Qed.

Lemma edits_ignore_confirmation_witness :
  (forall updates, exists s',
      editSuggestion "a1" updates confirmed_world = (upd 0 s' confirmed_world, Ok (Some 0)) /\
      edited updates (set_confirmed (Some true) (problem_set oct1_10h)) s' /\
      is_confirmed s' = true) /\
  (forall newTime hours minutes period,
      Editing.timeMatch newTime = Some (hours, minutes, period) ->
      exists s',
        updateSuggestionTime "a1" newTime confirmed_world =
          (upd 0 s' confirmed_world, Ok true) /\
        edited (only_due (setHours oct1_10h (Z.of_nat (Editing.to24 hours period))
                            (Z.of_nat minutes)))
          (set_confirmed (Some true) (problem_set oct1_10h)) s' /\
        is_confirmed s' = true).
Proof.
  apply (edits_ignore_confirmation "a1" 0
           (set_confirmed (Some true) (problem_set oct1_10h)) confirmed_world);
    reflexivity.
Defined.

Lemma pending_world_well_formed : well_formed pending_world.
Proof. repeat constructor. Defined.


Lemma intake_rejects_invalid_shape_witness :
  exists e,
    llmExtractFromDocument syllabus config (answering shapeless_answer) now_oct1
      pending_world = (pending_world, Throw e) /\
    StructuralError e.
Proof.
  exact (proj1 (intake_rejects_invalid_shape shapeless_answer _ _ config
                  (answering shapeless_answer) now_oct1 pending_world
                  eq_refl eq_refl (missing_list [("deadlines", VArray [])] eq_refl))
           syllabus eq_refl).
Defined.

Lemma hallucination_warning_iff_witness :
  exists w' issues' s' added,
    validateForHallucination 0 [] now_oct1 (holding (final_project 0.9%float)) =
      (w', Ok issues') /\
    heap w' !! 0 = Some s' /\
    warnings_or_empty s' = warnings_or_empty (final_project 0.9%float) ++ added /\
    NoDup added /\
    (In W_vague added <->
     mentions_vague_term "Final Project TBD" /\
     confidence_above (VNumber 0.9%float) 0.7%float).
Proof.
  exact (hallucination_warning_iff 0 (final_project 0.9%float) "Final Project TBD"
           [] now_oct1 (holding (final_project 0.9%float))
           eq_refl eq_refl (or_intror (ex_intro _ 0.9%float eq_refl))).
Defined.

(** [{"title":"Quiz","due":"2025-10-07T14:00:00-04:00","confidence":0}] *)
Definition quiz_entry : value :=
  VObject [("title", VString "Quiz"); ("due", VString "2025-10-07T14:00:00-04:00");
           ("confidence", VNumber 0%float)].

Lemma zero_confidence_defaults_witness :
  exists w' l s,
    convert_item quiz_entry (Some syllabus) SYLLABUS None pending_world =
      (w', Ok (Some l)) /\
    heap w' !! l = Some s /\
    confidence s = VNumber 0.5%float /\
    title s = VString "Quiz".
Proof.
  exact (zero_confidence_defaults quiz_entry (Some syllabus) SYLLABUS None
           pending_world eq_refl eq_refl eq_refl (or_introl eq_refl)).
Defined.

(** ** Further properties on the reference host *)

Lemma update_then_get_witness :
  snd (updateSuggestion "a1" 0 pending_world) = Ok true /\
  getSuggestionById "a1" (fst (updateSuggestion "a1" 0 pending_world)) =
    (fst (updateSuggestion "a1" 0 pending_world), Ok (Some 0)) /\
  stored "a1" (fst (updateSuggestion "a1" 0 pending_world)) =
    Some (problem_set oct1_10h).
Proof.
  apply (update_then_get "a1" 0 (problem_set oct1_10h) pending_world eq_refl eq_refl).
  discriminate.
Defined.

Lemma two_edits_compose_witness :
  exists l s2,
    editSuggestion "a1" (only_due oct1_10h)
      (fst (editSuggestion "a1" (rename "PS 1") pending_world)) =
      (upd l s2 pending_world, Ok (Some l)) /\
    stored "a1" (upd l s2 pending_world) = Some s2 /\
    id s2 = "a1" /\ confirmed s2 = None /\
    title s2 = VString "PS 1" /\
    due s2 = oct1_10h /\
    confidence s2 = VNumber 0.9%float /\
    provenance s2 = VString "syllabus, page 2" /\
    warnings s2 = Some ["Manually edited by user"; "Manually edited by user"].
Proof.
  exact (two_edits_compose "a1" (problem_set oct1_10h) (rename "PS 1")
           (only_due oct1_10h) pending_world eq_refl).
Defined.

Lemma twelve_hour_clock_sets_time_witness :
  exists s',
    snd (updateSuggestionTime "a1" "due at 11:59 pm sharp" pending_world) = Ok true /\
    stored "a1" (fst (updateSuggestionTime "a1" "due at 11:59 pm sharp" pending_world))
      = Some s' /\
    local_date (due s') = local_date oct1_10h /\
    local_clock (due s') = (Some 23, Some 59, Some 0)%Z /\
    edited (only_due (due s')) (problem_set oct1_10h) s'.
Proof.
  apply (twelve_hour_clock_sets_time "a1" (problem_set oct1_10h) now_oct1 11 59
           Editing.PM "due at " " " "pm" " sharp" pending_world);
    try reflexivity; try lia.
  vm_compute. discriminate.
Defined.

Lemma pending_world_typed : typed_titles (heap pending_world) [0].
Proof.
  constructor; [|constructor].
  exists (problem_set oct1_10h), "Problem Set 1". split; reflexivity.
Defined.

Lemma validation_verdict_witness :
  exists issues, snd (validateSuggestions [0] [0] now_oct1 pending_world) = Ok issues.
Proof.
  apply (validation_verdict [0] [0] now_oct1 pending_world);
    [repeat constructor; intros []|exact pending_world_typed|exact pending_world_typed].
Defined.

Lemma intake_warnings_witness :
  snd (llmExtractFromDocument syllabus config (answering doubtful_answer) now_oct1
         pending_world) = Ok [1].
Proof.
  exact (proj1 (intake_warnings syllabus config (answering doubtful_answer) now_oct1
                  doubtful_answer _ _ _ _ pending_world
                  eq_refl eq_refl eq_refl eq_refl eq_refl pending_world_typed)).
Defined.

Lemma confirm_once_witness :
  snd (confirm 0 tim pending_world) =
    Ok {| course := VString "Unknown Course"; conf_title := VString "Problem Set 1";
          conf_due := oct1_10h; conf_source := SYLLABUS; addedBy := tim |}.
Proof.
  apply (confirm_once 0 (problem_set oct1_10h) "Problem Set 1" "syllabus, page 2" tim
           pending_world); try reflexivity.
  discriminate.
Defined.

Lemma canvas_then_confirm_witness :
  snd (parseFromCanvas tim pending_world) = Ok [1; 2] /\
  suggestions (fst (parseFromCanvas tim pending_world)) = [0; 1; 2].
Proof.
  pose proof (canvas_then_confirm tim tim pending_world eq_refl eq_refl) as K.
  split; [exact (proj1 K)|exact (proj1 (proj2 K))].
Defined.

Lemma confirmed_world_sound : sound confirmed_world.
Proof.
  split; [repeat constructor|].
  constructor; [|constructor]. now exists "Problem Set 1".
Defined.

Lemma confirmed_stays_witness :
  confirmed_in_store "a1"
    (perform_all
       [CallTitle "a1" "PS 1"; CallTime "a1" "11:59 PM"; CallCanvas tim;
        CallDocument syllabus config (answering doubtful_answer) now_oct1;
        CallBatch ["a1"; "zz"] "9:00 am"; CallConfirm 0 tim]
       confirmed_world).
Proof.
  apply (confirmed_stays "a1"
           [CallTitle "a1" "PS 1"; CallTime "a1" "11:59 PM"; CallCanvas tim;
            CallDocument syllabus config (answering doubtful_answer) now_oct1;
            CallBatch ["a1"; "zz"] "9:00 am"; CallConfirm 0 tim]
           confirmed_world confirmed_world_sound).
  - exists (set_confirmed (Some true) (problem_set oct1_10h)). split; reflexivity.
  - reflexivity.
Defined.

Lemma invalid_due_is_sticky_witness :
  refineWithFeedback 0 "It is due on Friday" config (answering revised_answer)
    (holding (problem_set None)) = (holding (problem_set None), Throw RangeError).
Proof.
  exact (proj1 (invalid_due_is_sticky "a1" (problem_set None) "Problem Set 1"
                  (holding (problem_set None)) eq_refl eq_refl eq_refl)
           0 "It is due on Friday" config (answering revised_answer) eq_refl).
Defined.

(** [{"suggestions":[{"title":"Lab 1","due":"2025-10-08T17:00:00-04:00"},
      {"title":"","due":"2025-10-09T17:00:00-04:00"},
      {"title":"Lab 2","due":"2025-10-10T17:00:00-04:00"}]}] *)
Definition mixed_answer : string :=
  String.concat q
    ["{"; "suggestions"; ":[{"; "title"; ":"; "Lab 1"; ","; "due"; ":";
     "2025-10-08T17:00:00-04:00"; "},{"; "title"; ":"; ""; ","; "due"; ":";
     "2025-10-09T17:00:00-04:00"; "},{"; "title"; ":"; "Lab 2"; ","; "due"; ":";
     "2025-10-10T17:00:00-04:00"; "}]}"].

Definition mixed_items : list value :=
  [VObject [("title", VString "Lab 1"); ("due", VString "2025-10-08T17:00:00-04:00")];
   VObject [("title", VString ""); ("due", VString "2025-10-09T17:00:00-04:00")];
   VObject [("title", VString "Lab 2"); ("due", VString "2025-10-10T17:00:00-04:00")]].

Lemma conversion_keeps_candidates_witness :
  snd (parseLLMResponse mixed_answer (Some syllabus) SYLLABUS None pending_world) =
    Ok [1; 2] /\
  draws (fst (parseLLMResponse mixed_answer (Some syllabus) SYLLABUS None pending_world))
    = 2.
Proof.
  assert (J : jsonMatch mixed_answer = Some mixed_answer) by (vm_compute; reflexivity).
  assert (P : JSON_parse mixed_answer = Some (VObject [("suggestions", VArray mixed_items)]))
    by (vm_compute; reflexivity).
  assert (V : validateLLMResponse (VObject [("suggestions", VArray mixed_items)])
                "syllabus.txt" = Ok [MissingTitle 1]) by (vm_compute; reflexivity).
  pose proof (conversion_keeps_candidates mixed_answer _ _ mixed_items _ "syllabus.txt"
                (Some syllabus) SYLLABUS None pending_world J P V eq_refl) as K.
  split; [exact (proj1 K)|exact (proj1 (proj2 K))].
Defined.

Lemma source_queries_split_witness :
  exists syllabus image website canvas unconfirmed,
    getSuggestionsBySource "SYLLABUS" pending_world = (pending_world, Ok syllabus) /\
    getSuggestionsBySource "IMAGE" pending_world = (pending_world, Ok image) /\
    getSuggestionsBySource "WEBSITE" pending_world = (pending_world, Ok website) /\
    getSuggestionsBySource "CANVAS" pending_world = (pending_world, Ok canvas) /\
    getUnconfirmedSuggestions pending_world = (pending_world, Ok unconfirmed) /\
    getSuggestionsCount pending_world =
      (pending_world,
       Ok (List.length syllabus + List.length image + List.length website +
           List.length canvas)).
Proof.
  destruct (source_queries_split pending_world pending_world_well_formed)
    as (a & b & c & d & u & Ea & Eb & Ec & Ed & Eu & Cnt & _).
  exists a, b, c, d, u. repeat split; assumption.
Defined.

Lemma edits_seen_by_queries_witness :
  exists l,
    snd (editSuggestion "a1" (rename "PS 1") pending_world) = Ok (Some l) /\
    (forall found,
       snd (getSuggestionsWithWarnings
              (fst (editSuggestion "a1" (rename "PS 1") pending_world))) = Ok found ->
       In l found).
Proof.
  destruct (edits_seen_by_queries "a1" (problem_set oct1_10h) (rename "PS 1")
              pending_world eq_refl) as (l & R & Ww & _).
  exists l. split; assumption.
Defined.
